(** * LLMChat: the conversation engine of the chat panel, embedded in Rocq

    The development follows the TypeScript sources:
    - [types/chat.ts]            the data model (sessions, messages, cards);
    - [stores/chatSessions.ts]   the session registry;
    - [utils/storage.ts], [stores/chatPersistence.ts]  the durable snapshot;
    - [utils/mockService.ts]     the chunked text stream;
    - [stores/chat.ts]           the message store and the send, attachment
                                 and regeneration flows.

    Conventions.  A JavaScript [number] that the engine handles is an integer
    (timestamps from [Date.now()], byte sizes, title numbers) and is a [Z].
    A JavaScript string is a [string]; a non-ASCII character is the sequence
    of its UTF-8 bytes, and lengths and chunk boundaries are counted in
    bytes.  [nanoid()] and [Date.now()] are inputs of the
    operation that calls them.  A pinia store is a record and an action is a
    function from the record to the new record. *)

From Stdlib Require Import ZArith String Ascii List Bool Lia.
From Stdlib Require Import Decimal DecimalString DecimalN DecimalZ DecimalFacts DecimalPos.
From stdpp Require Import gmap strings list sorting.

Local Open Scope Z_scope.

(** ** Data model ([types/chat.ts]) *)

Inductive ChatRole := RoleUser | RoleAssistant | RoleSystem.
Inductive MessageStatus := StatusPending | StatusStreaming | StatusSent | StatusError.
Inductive MessageType := TypeText | TypeCard | TypeFile.
Inductive CardType := CardContact | CardArticle.

#[global] Instance ChatRole_eq_dec : EqDecision ChatRole.
Proof. solve_decision. Defined.
#[global] Instance MessageStatus_eq_dec : EqDecision MessageStatus.
Proof. solve_decision. Defined.
#[global] Instance MessageType_eq_dec : EqDecision MessageType.
Proof. solve_decision. Defined.
#[global] Instance CardType_eq_dec : EqDecision CardType.
Proof. solve_decision. Defined.

Record FileAttachment := {
  att_name : string;
  att_size : Z;
  att_mime : string;
  att_url : option string;
  att_storageKey : option string
}.

Record AssistantCard := {
  cardType : CardType;
  card_title : string;
  description : string;
  actionText : string;
  actionUrl : string
}.

(** The only metadata the engine ever writes is [{ size, mime }]. *)
Record Metadata := { meta_size : Z; meta_mime : string }.

Module ChatMessage.
Record t := mk {
  id : string;
  sessionId : string;
  role : ChatRole;
  type : MessageType;
  content : string;
  createdAt : Z;
  status : MessageStatus;
  metadata : option Metadata;
  attachment : option FileAttachment;
  card : option AssistantCard
}.
Definition with_status (s : MessageStatus) (m : t) : t :=
  mk (id m) (sessionId m) (role m) (type m) (content m) (createdAt m) s
     (metadata m) (attachment m) (card m).
Definition with_content (c : string) (m : t) : t :=
  mk (id m) (sessionId m) (role m) (type m) c (createdAt m) (status m)
     (metadata m) (attachment m) (card m).
End ChatMessage.

Module ChatSession.
Record t := mk {
  id : string;
  title : string;
  createdAt : Z;
  updatedAt : Z;
  messageIds : list string
}.
End ChatSession.

(** ** JavaScript helpers *)

(** [Array.prototype.find] followed by a mutation of the element found: the
    first element that satisfies [p] is replaced, the others are kept. *)
Fixpoint find_update {A} (p : A -> bool) (f : A -> A) (l : list A) : list A :=
  match l with
  | [] => []
  | x :: r => if p x then f x :: r else x :: find_update p f r
  end.

(** [Array.prototype.findIndex]; [None] is the source's [-1]. *)
Fixpoint findIndex {A} (p : A -> bool) (l : list A) : option nat :=
  match l with
  | [] => None
  | x :: r => if p x then Some 0%nat else S <$> findIndex p r
  end.

(** [Array.prototype.includes] on an array of strings. *)
Definition includes (x : string) (l : list string) : bool :=
  existsb (String.eqb x) l.

(** White space that [String.prototype.trim] removes, in the ASCII range. *)
Definition is_js_space (c : ascii) : bool :=
  match nat_of_ascii c with
  | 9%nat | 10%nat | 11%nat | 12%nat | 13%nat | 32%nat => true
  | _ => false
  end.

Fixpoint trim_start (s : string) : string :=
  match s with
  | String c r => if is_js_space c then trim_start r else s
  | EmptyString => EmptyString
  end.

Definition string_rev (s : string) : string :=
  string_of_list_ascii (rev (list_ascii_of_string s)).

Definition trim (s : string) : string :=
  string_rev (trim_start (string_rev (trim_start s))).

(** A string is falsy exactly when it is empty. *)
Definition truthy (s : string) : bool := negb (String.eqb s "").

(** ** Session registry ([stores/chatSessions.ts]) *)

Record ChatSessionsState := {
  sessions : list ChatSession.t;
  activeSessionId : option string
}.

(** The text before the number in an auto-generated title. *)
Definition TITLE_PREFIX : string := "新的对话 ".

Fixpoint strip_prefix (p s : string) : option string :=
  match p, s with
  | EmptyString, _ => Some s
  | String a p', String b s' => if Ascii.eqb a b then strip_prefix p' s' else None
  | String _ _, EmptyString => None
  end.

(** [s.title.match(/^新的对话 (\d+)$/)] and [parseInt(match[1], 10)], with [0]
    for a title that does not match: the digits after the prefix, at least
    one and nothing else, read as a decimal number. *)
Definition title_number (t : string) : Z :=
  match strip_prefix TITLE_PREFIX t with
  | Some EmptyString => 0
  | Some d =>
      match NilEmpty.uint_of_string d with
      | Some u => Z.of_N (N.of_uint u)
      | None => 0
      end
  | None => 0
  end.

(** [`${n}`] for an integer. *)
Definition string_of_number (n : Z) : string :=
  NilEmpty.string_of_int (Z.to_int n).

Definition auto_title (n : Z) : string :=
  TITLE_PREFIX +:+ string_of_number n.

Definition existingNumbers (ss : list ChatSession.t) : list Z :=
  merge_sort Z.le
    (filter (fun n => 0 < n) (map (fun s => title_number (ChatSession.title s)) ss)).

(** The [for ... of] loop that looks for the first missing number. *)
Fixpoint next_number_from (nextNumber : Z) (nums : list Z) : Z :=
  match nums with
  | [] => nextNumber
  | num :: rest =>
      if num =? nextNumber then next_number_from (nextNumber + 1) rest
      else if nextNumber <? num then nextNumber
      else next_number_from nextNumber rest
  end.

Definition nextNumber (ss : list ChatSession.t) : Z :=
  next_number_from 1 (existingNumbers ss).

Definition createSession (title : option string) (newId : string) (now : Z)
    (st : ChatSessionsState) : ChatSessionsState * ChatSession.t :=
  let supplied := match title with Some t => trim t | None => "" end in
  let newSession :=
    ChatSession.mk newId
      (if truthy supplied then supplied else auto_title (nextNumber (sessions st)))
      now now [] in
  ({| sessions := newSession :: sessions st;
      activeSessionId := Some (ChatSession.id newSession) |}, newSession).

Definition setActiveSession (id : string) (st : ChatSessionsState) : ChatSessionsState :=
  {| sessions := sessions st; activeSessionId := Some id |}.

Definition has_id (id : string) (s : ChatSession.t) : bool :=
  String.eqb (ChatSession.id s) id.

Definition renameSession (id title : string) (now : Z)
    (st : ChatSessionsState) : ChatSessionsState :=
  {| sessions :=
       find_update (has_id id)
         (fun s => ChatSession.mk (ChatSession.id s) title (ChatSession.createdAt s)
                     now (ChatSession.messageIds s))
         (sessions st);
     activeSessionId := activeSessionId st |}.

Definition deleteSession_registry (id : string)
    (st : ChatSessionsState) : ChatSessionsState :=
  let kept := List.filter (fun s => negb (has_id id s)) (sessions st) in
  {| sessions := kept;
     activeSessionId :=
       if decide (activeSessionId st = Some id)
       then ChatSession.id <$> head kept
       else activeSessionId st |}.

Definition touchSession (id : string) (now : Z)
    (st : ChatSessionsState) : ChatSessionsState :=
  {| sessions :=
       find_update (has_id id)
         (fun s => ChatSession.mk (ChatSession.id s) (ChatSession.title s)
                     (ChatSession.createdAt s) now (ChatSession.messageIds s))
         (sessions st);
     activeSessionId := activeSessionId st |}.

Definition appendMessageId (sessionId messageId : string) (now : Z)
    (st : ChatSessionsState) : ChatSessionsState :=
  {| sessions :=
       find_update (has_id sessionId)
         (fun s =>
            if includes messageId (ChatSession.messageIds s) then s
            else ChatSession.mk (ChatSession.id s) (ChatSession.title s)
                   (ChatSession.createdAt s) now
                   (ChatSession.messageIds s ++ [messageId]))
         (sessions st);
     activeSessionId := activeSessionId st |}.

Definition replaceMessageIds (sessionId : string) (ids : list string) (now : Z)
    (st : ChatSessionsState) : ChatSessionsState :=
  {| sessions :=
       find_update (has_id sessionId)
         (fun s => ChatSession.mk (ChatSession.id s) (ChatSession.title s)
                     (ChatSession.createdAt s) now ids)
         (sessions st);
     activeSessionId := activeSessionId st |}.

Definition titles (st : ChatSessionsState) : list string :=
  map ChatSession.title (sessions st).

Definition session_messageIds (sessionId : string) (st : ChatSessionsState)
    : option (list string) :=
  ChatSession.messageIds <$> List.find (has_id sessionId) (sessions st).

(** ** JavaScript values and JSON

    [jsval] is the part of the JavaScript value space that the snapshot lives
    in.  An object is the list of its own enumerable members in enumeration
    order.  Numbers are integers: a JSON text with a fraction or an exponent
    is outside the model and is treated as unparsable, as is a [\u] escape
    of a surrogate. *)

#[local] Unset Elimination Schemes.
Inductive jsval :=
| JUndefined
| JNull
| JBool (b : bool)
| JNum (n : Z)
| JStr (s : string)
| JArr (l : list jsval)
| JObj (l : list (string * jsval)).
#[local] Set Elimination Schemes.

(** Induction over a value and, through the lists, over its parts. *)
Section jsval_induction.
Variable P : jsval -> Prop.
Hypothesis Hundef : P JUndefined.
Hypothesis Hnull : P JNull.
Hypothesis Hbool : forall b, P (JBool b).
Hypothesis Hnum : forall n, P (JNum n).
Hypothesis Hstr : forall s, P (JStr s).
Hypothesis Harr : forall l, Forall P l -> P (JArr l).
Hypothesis Hobj : forall l, Forall (fun kv => P (snd kv)) l -> P (JObj l).

Fixpoint jsval_forall_ind (v : jsval) : P v :=
  match v with
  | JUndefined => Hundef
  | JNull => Hnull
  | JBool b => Hbool b
  | JNum n => Hnum n
  | JStr s => Hstr s
  | JArr l =>
      Harr l ((fix all (l : list jsval) : Forall P l :=
                 match l with
                 | [] => @List.Forall_nil _ P
                 | x :: r => @List.Forall_cons _ P x r (jsval_forall_ind x) (all r)
                 end) l)
  | JObj l =>
      Hobj l ((fix all (l : list (string * jsval)) : Forall (fun kv => P (snd kv)) l :=
                 match l with
                 | [] => @List.Forall_nil _ (fun kv => P (snd kv))
                 | kv :: r =>
                     @List.Forall_cons _ (fun kv => P (snd kv)) kv r
                       (jsval_forall_ind (snd kv)) (all r)
                 end) l)
  end.
End jsval_induction.

Definition chars (s : string) : list ascii := list_ascii_of_string s.

Definition hex_digit (n : nat) : ascii :=
  nth n (chars "0123456789abcdef") "0"%char.

(** [QuoteJSONString]: the two-character escapes, [\u00xx] for the other
    control characters, every other character as it is. *)
Definition escape_char (c : ascii) : list ascii :=
  let n := nat_of_ascii c in
  if Ascii.eqb c "034" then ["\"%char; "034"%char]
  else if Ascii.eqb c "\" then chars "\\"
  else if (n =? 8)%nat then chars "\b"
  else if (n =? 9)%nat then chars "\t"
  else if (n =? 10)%nat then chars "\n"
  else if (n =? 12)%nat then chars "\f"
  else if (n =? 13)%nat then chars "\r"
  else if (n <? 32)%nat
       then chars "\u00" ++ [hex_digit (n / 16); hex_digit (n mod 16)]
  else [c].

(** The characters of a string literal after the opening quote. *)
Fixpoint escape_string (s : string) : list ascii :=
  match s with
  | EmptyString => ["034"%char]
  | String c r => escape_char c ++ escape_string r
  end.

Definition quote (s : string) : list ascii := "034"%char :: escape_string s.

Fixpoint join_comma (l : list (list ascii)) : list ascii :=
  match l with
  | [] => []
  | [x] => x
  | x :: r => x ++ ","%char :: join_comma r
  end.

(** [SerializeJSONProperty]: an [undefined] array element is written
    [null], an [undefined] member of an object is left out. *)
Fixpoint render (v : jsval) : list ascii :=
  match v with
  | JUndefined => chars "null"
  | JNull => chars "null"
  | JBool true => chars "true"
  | JBool false => chars "false"
  | JNum n => chars (string_of_number n)
  | JStr s => quote s
  | JArr l => "["%char :: join_comma (map render l) ++ ["]"%char]
  | JObj l =>
      "{"%char ::
      join_comma
        (omap (fun kv : string * jsval =>
                 match snd kv with
                 | JUndefined => None
                 | _ => Some (quote (fst kv) ++ ":"%char :: render (snd kv))
                 end) l)
      ++ ["}"%char]
  end.

(** [JSON.stringify(v)]; [None] is the result [undefined]. *)
Definition JSON_stringify (v : jsval) : option string :=
  match v with
  | JUndefined => None
  | _ => Some (string_of_list_ascii (render v))
  end.

Definition is_ws (c : ascii) : bool :=
  match nat_of_ascii c with
  | 9%nat | 10%nat | 13%nat | 32%nat => true
  | _ => false
  end.

Fixpoint skip_ws (s : list ascii) : list ascii :=
  match s with
  | c :: r => if is_ws c then skip_ws r else s
  | [] => []
  end.

Definition hex_value (c : ascii) : option N :=
  let n := N_of_ascii c in
  if (48 <=? n)%N && (n <=? 57)%N then Some (n - 48)%N
  else if (97 <=? n)%N && (n <=? 102)%N then Some (n - 87)%N
  else if (65 <=? n)%N && (n <=? 70)%N then Some (n - 55)%N
  else None.

Definition hex4 (a b c d : ascii) : option N :=
  match hex_value a, hex_value b, hex_value c, hex_value d with
  | Some x, Some y, Some z, Some w => Some (((x * 16 + y) * 16 + z) * 16 + w)%N
  | _, _, _, _ => None
  end.

(** The UTF-8 bytes of a code point of the basic plane; a surrogate has
    none. *)
Definition utf8_encode (n : N) : option string :=
  if (n <? 128)%N then Some (String (ascii_of_N n) EmptyString)
  else if (n <? 2048)%N then
    Some (String (ascii_of_N (192 + n / 64))
            (String (ascii_of_N (128 + n mod 64)) EmptyString))
  else if (55296 <=? n)%N && (n <=? 57343)%N then None
  else
    Some (String (ascii_of_N (224 + n / 4096))
            (String (ascii_of_N (128 + (n / 64) mod 64))
               (String (ascii_of_N (128 + n mod 64)) EmptyString))).

Definition simple_escape (e : ascii) : option ascii :=
  if Ascii.eqb e "034" then Some "034"%char
  else if Ascii.eqb e "\" then Some "\"%char
  else if Ascii.eqb e "/" then Some "/"%char
  else if Ascii.eqb e "b" then Some (ascii_of_nat 8)
  else if Ascii.eqb e "f" then Some (ascii_of_nat 12)
  else if Ascii.eqb e "n" then Some (ascii_of_nat 10)
  else if Ascii.eqb e "r" then Some (ascii_of_nat 13)
  else if Ascii.eqb e "t" then Some (ascii_of_nat 9)
  else None.

Definition prepend (p : string) (r : option (string * list ascii))
    : option (string * list ascii) :=
  match r with
  | Some (s, rest) => Some (p +:+ s, rest)
  | None => None
  end.

(** The body of a string literal, up to and including the closing quote. *)
Fixpoint parse_chars (s : list ascii) : option (string * list ascii) :=
  match s with
  | [] => None
  | c :: r =>
      if Ascii.eqb c "034" then Some (EmptyString, r)
      else if Ascii.eqb c "\" then
        match r with
        | [] => None
        | e :: r1 =>
            match simple_escape e with
            | Some c' => prepend (String c' EmptyString) (parse_chars r1)
            | None =>
                if Ascii.eqb e "u" then
                  match r1 with
                  | h1 :: h2 :: h3 :: h4 :: r2 =>
                      match hex4 h1 h2 h3 h4 with
                      | Some n =>
                          match utf8_encode n with
                          | Some bytes => prepend bytes (parse_chars r2)
                          | None => None
                          end
                      | None => None
                      end
                  | _ => None
                  end
                else None
            end
        end
      else if (nat_of_ascii c <? 32)%nat then None
      else prepend (String c EmptyString) (parse_chars r)
  end.

Definition digit_of (c : ascii) : option (uint -> uint) :=
  match nat_of_ascii c with
  | 48%nat => Some D0 | 49%nat => Some D1 | 50%nat => Some D2
  | 51%nat => Some D3 | 52%nat => Some D4 | 53%nat => Some D5
  | 54%nat => Some D6 | 55%nat => Some D7 | 56%nat => Some D8
  | 57%nat => Some D9
  | _ => None
  end.

Fixpoint read_uint (s : list ascii) : uint * list ascii :=
  match s with
  | [] => (Nil, [])
  | c :: r =>
      match digit_of c with
      | Some d => let '(u, rest) := read_uint r in (d u, rest)
      | None => (Nil, s)
      end
  end.

#[global] Instance uint_eq_decision : EqDecision uint := uint_eq_dec.

Definition is_number_start (c : ascii) : bool :=
  Ascii.eqb c "-" || bool_decide (is_Some (digit_of c)).

Definition starts_fraction (s : list ascii) : bool :=
  match s with
  | c :: _ => Ascii.eqb c "." || Ascii.eqb c "e" || Ascii.eqb c "E"
  | [] => false
  end.

(** A JSON integer: an optional minus sign, then digits without a leading
    zero. *)
Definition parse_number (s : list ascii) : option (Z * list ascii) :=
  let '(negative, s1) :=
    match s with
    | c :: r => if Ascii.eqb c "-" then (true, r) else (false, s)
    | [] => (false, s)
    end in
  let '(u, rest) := read_uint s1 in
  if decide (u = Nil) then None
  else if decide (unorm u = u) then
    if starts_fraction rest then None
    else Some (Z.of_int (if negative then Neg u else Pos u), rest)
  else None.

Fixpoint strip_chars (p s : list ascii) : option (list ascii) :=
  match p, s with
  | [], _ => Some s
  | a :: p', b :: s' => if Ascii.eqb a b then strip_chars p' s' else None
  | _ :: _, [] => None
  end.

Definition literal (word : string) (v : jsval) (s : list ascii)
    : option (jsval * list ascii) :=
  match strip_chars (chars word) s with
  | Some r => Some (v, r)
  | None => None
  end.

(** Assignment of a member while an object is built: a repeated key keeps
    its place and takes the later value. *)
Fixpoint obj_set (k : string) (v : jsval) (o : list (string * jsval))
    : list (string * jsval) :=
  match o with
  | [] => [(k, v)]
  | (k', v') :: r => if String.eqb k' k then (k, v) :: r else (k', v') :: obj_set k v r
  end.

Definition obj_of_members (l : list (string * jsval)) : list (string * jsval) :=
  fold_left (fun o kv => obj_set (fst kv) (snd kv) o) l [].

(** Recursive descent.  The three productions are written over the
    parsers they call; [fuel] bounds the depth of the calls. *)

Definition parse_value_with
    (elements : list ascii -> option (list jsval * list ascii))
    (members : list ascii -> option (list (string * jsval) * list ascii))
    (s : list ascii) : option (jsval * list ascii) :=
  match skip_ws s with
  | [] => None
  | c :: r =>
      if is_number_start c then
        match parse_number (c :: r) with
        | Some (n, rest) => Some (JNum n, rest)
        | None => None
        end
      else if Ascii.eqb c "034" then
        match parse_chars r with
        | Some (str, rest) => Some (JStr str, rest)
        | None => None
        end
      else if Ascii.eqb c "[" then
        match skip_ws r with
        | [] => None
        | c' :: r' =>
            if Ascii.eqb c' "]" then Some (JArr [], r')
            else match elements r with
                 | Some (l, rest) => Some (JArr l, rest)
                 | None => None
                 end
        end
      else if Ascii.eqb c "{" then
        match skip_ws r with
        | [] => None
        | c' :: r' =>
            if Ascii.eqb c' "}" then Some (JObj [], r')
            else match members r with
                 | Some (l, rest) => Some (JObj (obj_of_members l), rest)
                 | None => None
                 end
        end
      else if Ascii.eqb c "n" then literal "ull" JNull r
      else if Ascii.eqb c "t" then literal "rue" (JBool true) r
      else if Ascii.eqb c "f" then literal "alse" (JBool false) r
      else None
  end.

Definition parse_elements_with
    (value : list ascii -> option (jsval * list ascii))
    (elements : list ascii -> option (list jsval * list ascii))
    (s : list ascii) : option (list jsval * list ascii) :=
  match value s with
  | None => None
  | Some (v, r) =>
      match skip_ws r with
      | [] => None
      | c :: r' =>
          if Ascii.eqb c "," then
            match elements r' with
            | Some (l, rest) => Some (v :: l, rest)
            | None => None
            end
          else if Ascii.eqb c "]" then Some ([v], r')
          else None
      end
  end.

Definition parse_members_with
    (value : list ascii -> option (jsval * list ascii))
    (members : list ascii -> option (list (string * jsval) * list ascii))
    (s : list ascii) : option (list (string * jsval) * list ascii) :=
  match skip_ws s with
  | [] => None
  | q :: r =>
      if Ascii.eqb q "034" then
        match parse_chars r with
        | None => None
        | Some (k, r1) =>
            match skip_ws r1 with
            | [] => None
            | c1 :: r2 =>
                if Ascii.eqb c1 ":" then
                  match value r2 with
                  | None => None
                  | Some (v, r3) =>
                      match skip_ws r3 with
                      | [] => None
                      | c :: r4 =>
                          if Ascii.eqb c "," then
                            match members r4 with
                            | Some (l, rest) => Some ((k, v) :: l, rest)
                            | None => None
                            end
                          else if Ascii.eqb c "}" then Some ([(k, v)], r4)
                          else None
                      end
                  end
                else None
            end
        end
      else None
  end.

Fixpoint parse_value (fuel : nat) (s : list ascii) : option (jsval * list ascii) :=
  match fuel with
  | O => None
  | S fuel' => parse_value_with (parse_elements fuel') (parse_members fuel') s
  end
with parse_elements (fuel : nat) (s : list ascii) : option (list jsval * list ascii) :=
  match fuel with
  | O => None
  | S fuel' => parse_elements_with (parse_value fuel') (parse_elements fuel') s
  end
with parse_members (fuel : nat) (s : list ascii)
    : option (list (string * jsval) * list ascii) :=
  match fuel with
  | O => None
  | S fuel' => parse_members_with (parse_value fuel') (parse_members fuel') s
  end.

(** [JSON.parse(text)]; [None] is a [SyntaxError]. *)
Definition JSON_parse (text : string) : option jsval :=
  match parse_value (S (length (chars text))) (chars text) with
  | Some (v, rest) => match skip_ws rest with [] => Some v | _ :: _ => None end
  | None => None
  end.

(** Reading a member that is neither an index nor built in, as in
    [parsed.data]: [None] is the [TypeError] of a read on [null] or
    [undefined]; a value without the member gives [undefined]. *)
Fixpoint assoc (k : string) (o : list (string * jsval)) : option jsval :=
  match o with
  | [] => None
  | (k', v) :: r => if String.eqb k' k then Some v else assoc k r
  end.

Definition get_member (k : string) (v : jsval) : option jsval :=
  match v with
  | JUndefined | JNull => None
  | JObj o => Some (default JUndefined (assoc k o))
  | JBool _ | JNum _ | JStr _ | JArr _ => Some JUndefined
  end.

(** ** Durable storage ([utils/storage.ts])

    [window] is [None] where there is no browser window; otherwise it holds
    the item stored under [STORAGE_KEY], [None] when there is no such item
    ([getItem] returns [null]). *)

Definition Window := option (option string).

Definition loadFromStorage (fallback : jsval) (window : Window) : jsval :=
  match window with
  | None => fallback
  | Some item =>
      match item with
      | None => fallback
      | Some raw =>
          if truthy raw then
            match JSON_parse raw with
            | Some parsed =>
                match get_member "data" parsed with
                | Some data => data
                | None => fallback
                end
            | None => fallback
            end
          else fallback
      end
  end.

Definition saveToStorage (data : jsval) (window : Window) : Window :=
  match window with
  | None => None
  | Some item =>
      Some (JSON_stringify (JObj [("version", JNum 1); ("data", data)]))
  end.

Definition clearStorage (window : Window) : Window :=
  match window with
  | None => None
  | Some _ => Some None
  end.

(** ** The snapshot ([stores/chatPersistence.ts]) *)

Definition defaultState : jsval :=
  JObj [("sessions", JArr []); ("messages", JObj [])].

(** [JSON.parse(JSON.stringify(value))]; [None] when it throws. *)
Definition clone (value : jsval) : option jsval :=
  match JSON_stringify value with
  | Some text => JSON_parse text
  | None => None
  end.

Definition readInitialChatState (window : Window) : option jsval :=
  match clone defaultState with
  | Some fallback => Some (loadFromStorage fallback window)
  | None => None
  end.

Definition persistChatState (state : jsval) (window : Window) : Window :=
  saveToStorage state window.

Definition makePersistedState (sessions messages : jsval) : option jsval :=
  match clone sessions, clone messages with
  | Some s, Some m => Some (JObj [("sessions", s); ("messages", m)])
  | _, _ => None
  end.

(** The layout of the typed records as JavaScript objects; the members are
    in the order of the object literals that create them. *)

Definition js_of_role (r : ChatRole) : jsval :=
  JStr match r with
       | RoleUser => "user" | RoleAssistant => "assistant" | RoleSystem => "system"
       end.

Definition js_of_status (s : MessageStatus) : jsval :=
  JStr match s with
       | StatusPending => "pending" | StatusStreaming => "streaming"
       | StatusSent => "sent" | StatusError => "error"
       end.

Definition js_of_type (t : MessageType) : jsval :=
  JStr match t with
       | TypeText => "text" | TypeCard => "card" | TypeFile => "file"
       end.

Definition js_of_cardType (t : CardType) : jsval :=
  JStr match t with CardContact => "contact" | CardArticle => "article" end.

Definition optional_member (k : string) (v : option jsval)
    : list (string * jsval) :=
  match v with
  | Some x => [(k, x)]
  | None => []
  end.

Definition js_of_metadata (m : Metadata) : jsval :=
  JObj [("size", JNum (meta_size m)); ("mime", JStr (meta_mime m))].

Definition js_of_attachment (a : FileAttachment) : jsval :=
  JObj ([("name", JStr (att_name a)); ("size", JNum (att_size a));
         ("mime", JStr (att_mime a))]
        ++ optional_member "url" (JStr <$> att_url a)
        ++ optional_member "storageKey" (JStr <$> att_storageKey a)).

Definition js_of_card (c : AssistantCard) : jsval :=
  JObj [("cardType", js_of_cardType (cardType c)); ("title", JStr (card_title c));
        ("description", JStr (description c)); ("actionText", JStr (actionText c));
        ("actionUrl", JStr (actionUrl c))].

Definition js_of_message (m : ChatMessage.t) : jsval :=
  JObj ([("id", JStr (ChatMessage.id m));
         ("sessionId", JStr (ChatMessage.sessionId m));
         ("role", js_of_role (ChatMessage.role m));
         ("type", js_of_type (ChatMessage.type m));
         ("content", JStr (ChatMessage.content m));
         ("createdAt", JNum (ChatMessage.createdAt m));
         ("status", js_of_status (ChatMessage.status m))]
        ++ optional_member "metadata" (js_of_metadata <$> ChatMessage.metadata m)
        ++ optional_member "attachment" (js_of_attachment <$> ChatMessage.attachment m)
        ++ optional_member "card" (js_of_card <$> ChatMessage.card m)).

Definition js_of_session (s : ChatSession.t) : jsval :=
  JObj [("id", JStr (ChatSession.id s)); ("title", JStr (ChatSession.title s));
        ("createdAt", JNum (ChatSession.createdAt s));
        ("updatedAt", JNum (ChatSession.updatedAt s));
        ("messageIds", JArr (map JStr (ChatSession.messageIds s)))].

Definition js_of_sessions (ss : list ChatSession.t) : jsval :=
  JArr (map js_of_session ss).

Definition js_of_messages (ms : gmap string (list ChatMessage.t)) : jsval :=
  JObj (map (fun kv : string * list ChatMessage.t =>
               (fst kv, JArr (map js_of_message (snd kv))))
            (map_to_list ms)).

(** ** Values that survive a JSON round trip *)

(** What may follow a value inside a text that [render] wrote: nothing, a
    comma or a closing bracket. *)
Definition delimited (rest : list ascii) : bool :=
  match rest with
  | [] => true
  | c :: _ => Ascii.eqb c "," || Ascii.eqb c "]" || Ascii.eqb c "}"
  end.

(** [parse_number] after the sign. *)
Definition parse_unsigned (negative : bool) (s1 : list ascii) : option (Z * list ascii) :=
  let '(u, rest) := read_uint s1 in
  if decide (u = Nil) then None
  else if decide (unorm u = u) then
    if starts_fraction rest then None
    else Some (Z.of_int (if negative then Neg u else Pos u), rest)
  else None.

(** The values that [JSON.stringify] writes without loss: no [undefined]
    anywhere and no object with a repeated key. *)
#[local] Unset Elimination Schemes.
Inductive clean : jsval -> Prop :=
| clean_null : clean JNull
| clean_bool b : clean (JBool b)
| clean_num n : clean (JNum n)
| clean_str s : clean (JStr s)
| clean_arr l : Forall clean l -> clean (JArr l)
| clean_obj l : NoDup (map fst l) -> Forall (fun kv => clean (snd kv)) l -> clean (JObj l).
#[local] Set Elimination Schemes.

(** Fuel that suffices to parse the text of a value. *)
Fixpoint need (v : jsval) : nat :=
  match v with
  | JArr l => S (list_sum (map (fun x => S (need x)) l))
  | JObj l => S (list_sum (map (fun kv => S (need (snd kv))) l))
  | _ => 1
  end.

Definition render_member (kv : string * jsval) : list ascii :=
  quote (fst kv) ++ ":"%char :: render (snd kv).

(** The first character of a value is neither white space nor a closing
    bracket. *)
Definition value_start (c : ascii) : bool :=
  negb (is_ws c) && negb (Ascii.eqb c "]") && negb (Ascii.eqb c "}").

Definition value_ok (v : jsval) : Prop :=
  forall fuel rest, (need v <= fuel)%nat -> delimited rest = true ->
    parse_value fuel (render v ++ rest) = Some (v, rest).

(** ** The chunked text stream ([utils/mockService.ts])

    An [AbortController] is its index in the list of the controllers created
    so far; the list holds the [aborted] flag of each signal. *)

Definition signal_aborted (controllers : list bool) (signal : option nat) : bool :=
  match signal with
  | Some c => default false (controllers !! c)
  | None => false
  end.

(** [content.slice(a, b)] *)
Definition slice (a b : nat) (content : string) : string :=
  string_of_list_ascii (take (b - a) (drop a (chars content))).

(** The state of the generator [streamText(content, options)] between two
    requests for a chunk. *)
Record StreamText := {
  stream_content : string;
  chunkSize : nat;
  signal : option nat;
  cursor : nat
}.

(** [streamText(content, { chunkSize, signal })]:
    [Math.max(1, options.chunkSize ?? 5)]. *)
Definition streamText (content : string) (size : option nat) (sig : option nat)
    : StreamText :=
  {| stream_content := content;
     chunkSize := Nat.max 1 (default 5%nat size);
     signal := sig;
     cursor := 0 |}.

Inductive Exception :=
| AbortError
| OtherError.

(** The generator from the head of its loop to the next time it waits or
    ends: it ends, throws [AbortError], or computes a chunk and sleeps. *)
Inductive StreamStep :=
| StreamDone
| StreamAborted
| StreamSleeping (chunk : string) (next : StreamText).

Definition stream_advance (controllers : list bool) (g : StreamText) : StreamStep :=
  if (cursor g <? String.length (stream_content g))%nat then
    if signal_aborted controllers (signal g) then StreamAborted
    else
      let nextCursor := Nat.min (String.length (stream_content g)) (cursor g + chunkSize g) in
      StreamSleeping (slice (cursor g) nextCursor (stream_content g))
        {| stream_content := stream_content g; chunkSize := chunkSize g;
           signal := signal g; cursor := nextCursor |}
  else StreamDone.

(** ** Message store ([stores/chat.ts]) *)

Record Stores := {
  registry : ChatSessionsState;
  messagesBySession : gmap string (list ChatMessage.t);
  streamingMessageId : option string;
  isSending : bool;
  abortController : option nat;
  controllers : list bool;
  window : Window
}.

Definition on_registry (f : ChatSessionsState -> ChatSessionsState) (st : Stores) : Stores :=
  {| registry := f (registry st); messagesBySession := messagesBySession st;
     streamingMessageId := streamingMessageId st; isSending := isSending st;
     abortController := abortController st; controllers := controllers st;
     window := window st |}.

Definition set_messages (m : gmap string (list ChatMessage.t)) (st : Stores) : Stores :=
  {| registry := registry st; messagesBySession := m;
     streamingMessageId := streamingMessageId st; isSending := isSending st;
     abortController := abortController st; controllers := controllers st;
     window := window st |}.

Definition set_streamingMessageId (v : option string) (st : Stores) : Stores :=
  {| registry := registry st; messagesBySession := messagesBySession st;
     streamingMessageId := v; isSending := isSending st;
     abortController := abortController st; controllers := controllers st;
     window := window st |}.

Definition set_isSending (v : bool) (st : Stores) : Stores :=
  {| registry := registry st; messagesBySession := messagesBySession st;
     streamingMessageId := streamingMessageId st; isSending := v;
     abortController := abortController st; controllers := controllers st;
     window := window st |}.

Definition set_abortController (v : option nat) (st : Stores) : Stores :=
  {| registry := registry st; messagesBySession := messagesBySession st;
     streamingMessageId := streamingMessageId st; isSending := isSending st;
     abortController := v; controllers := controllers st;
     window := window st |}.

Definition set_controllers (v : list bool) (st : Stores) : Stores :=
  {| registry := registry st; messagesBySession := messagesBySession st;
     streamingMessageId := streamingMessageId st; isSending := isSending st;
     abortController := abortController st; controllers := v;
     window := window st |}.

Definition set_window (v : Window) (st : Stores) : Stores :=
  {| registry := registry st; messagesBySession := messagesBySession st;
     streamingMessageId := streamingMessageId st; isSending := isSending st;
     abortController := abortController st; controllers := controllers st;
     window := v |}.

(** [this.abortController?.abort()] *)
Definition abort_current (st : Stores) : Stores :=
  match abortController st with
  | Some c => set_controllers (<[c := true]> (controllers st)) st
  | None => st
  end.

(** [this.abortController = new AbortController()] *)
Definition new_controller (st : Stores) : Stores :=
  set_abortController (Some (length (controllers st)))
    (set_controllers (controllers st ++ [false]) st).

Definition persist (st : Stores) : Stores :=
  match makePersistedState (js_of_sessions (sessions (registry st)))
          (js_of_messages (messagesBySession st)) with
  | Some snapshot => set_window (persistChatState snapshot (window st)) st
  | None => st
  end.

(** The list of a session, [[]] where the store has none yet. *)
Definition messages_of (sessionId : string) (st : Stores) : list ChatMessage.t :=
  default [] (messagesBySession st !! sessionId).

Definition getMessages (sessionId : string) (st : Stores)
    : Stores * list ChatMessage.t :=
  match messagesBySession st !! sessionId with
  | Some list => (st, list)
  | None => (set_messages (<[sessionId := []]> (messagesBySession st)) st, [])
  end.

Definition appendMessage (sessionId : string) (message : ChatMessage.t) (now : Z)
    (st : Stores) : Stores :=
  let '(st1, list) := getMessages sessionId st in
  on_registry (appendMessageId sessionId (ChatMessage.id message) now)
    (set_messages (<[sessionId := list ++ [message]]> (messagesBySession st1)) st1).

Definition message_has_id (messageId : string) (m : ChatMessage.t) : bool :=
  String.eqb (ChatMessage.id m) messageId.

Definition updateMessage (sessionId messageId : string)
    (updater : ChatMessage.t -> ChatMessage.t) (st : Stores) : Stores :=
  let '(st1, list) := getMessages sessionId st in
  set_messages
    (<[sessionId := find_update (message_has_id messageId) updater list]>
       (messagesBySession st1)) st1.

Definition setMessageStatus (sessionId messageId : string) (status : MessageStatus)
    (st : Stores) : Stores :=
  updateMessage sessionId messageId (ChatMessage.with_status status) st.

Definition startNewSession (title : option string) (newId : string) (now : Z)
    (st : Stores) : Stores * string :=
  let '(reg, newSession) := createSession title newId now (registry st) in
  let st1 := on_registry (fun _ => reg) st in
  let st2 := set_messages (<[ChatSession.id newSession := []]> (messagesBySession st1)) st1 in
  (persist st2, ChatSession.id newSession).

Definition ensureSession (newId : string) (now : Z) (st : Stores) : Stores * string :=
  match activeSessionId (registry st) with
  | Some id => if truthy id then (st, id) else startNewSession None newId now st
  | None => startNewSession None newId now st
  end.

(** The entries of a completion request. *)
Definition ContextMessage : Type := ChatRole * string.

Definition buildContextMessages (sessionId : string) (st : Stores)
    : Stores * list ContextMessage :=
  let st1 := on_registry (setActiveSession sessionId) st in
  let '(st2, allMessages) := getMessages sessionId st1 in
  let textMessages :=
    List.filter
      (fun msg => bool_decide (ChatMessage.type msg = TypeText)
                  && negb (bool_decide (ChatMessage.status msg = StatusStreaming)))
      allMessages in
  let slice8 := drop (length textMessages - 8) textMessages in
  (st2, map (fun msg => (ChatMessage.role msg, ChatMessage.content msg)) slice8).

(** ** The asynchronous flows

    An [async] action runs without interruption from one [await] of a timer,
    of the network or of the blob store to the next.  A [Task] is an action
    suspended at such an [await]; [resume] runs it to the next one.  Every
    segment takes the value of [Date.now()] and the identifier that
    [nanoid()] returns in it. *)

Inductive Flow := FlowSend | FlowFiles | FlowRegenerate.

Record File := { file_name : string; file_size : Z; file_type : string }.

Inductive Outcome :=
| Returned
| Threw (e : Exception).

Inductive Task :=
| SavingFile (sessionId : string) (files : list File) (file : File)
    (msgId : string) (remaining : list File)
| AwaitCompletion (flow : Flow) (sessionId messageId : string)
    (request : list ContextMessage)
| Streaming (flow : Flow) (sessionId messageId : string)
    (card : option AssistantCard) (chunk : string) (generator : StreamText)
| Finished (outcome : Outcome).

(** What wakes a task: the completion request settles, the delay of the
    stream elapses (and the simulated transport fails or not), the blob store
    answers. *)
Inductive Event :=
| CompletionResolved (choices : list string) (card : option AssistantCard)
| CompletionRejected (e : Exception)
| DelayElapsed (streamFails : bool)
| FileSaved (ok : bool).

Definition text_message (id sessionId : string) (role : ChatRole) (content : string)
    (now : Z) (status : MessageStatus) : ChatMessage.t :=
  ChatMessage.mk id sessionId role TypeText content now status None None None.

Definition card_message (id sessionId : string) (c : AssistantCard) (now : Z)
    : ChatMessage.t :=
  ChatMessage.mk id sessionId RoleAssistant TypeCard (card_title c) now StatusSent
    None None (Some c).

Definition file_message (id sessionId : string) (f : File) (now : Z) : ChatMessage.t :=
  ChatMessage.mk id sessionId RoleUser TypeFile (file_name f) now StatusSent
    (Some {| meta_size := file_size f; meta_mime := file_type f |})
    (Some {| att_name := file_name f; att_size := file_size f;
             att_mime := file_type f; att_url := None;
             att_storageKey := Some ("file_" +:+ id) |})
    None.

Definition append_card (sessionId : string) (card : option AssistantCard)
    (cardId : string) (now : Z) (st : Stores) : Stores :=
  match card with
  | Some c => appendMessage sessionId (card_message cardId sessionId c now) now st
  | None => st
  end.

(** After [streamIntoMessage] has returned: the rest of the [try] block and
    the [finally] block. *)
Definition finish_generation (flow : Flow) (sessionId messageId : string)
    (card : option AssistantCard) (cardId : string) (now : Z) (st : Stores)
    : Stores * Task :=
  let st1 := setMessageStatus sessionId messageId StatusSent st in
  match flow with
  | FlowSend =>
      let st2 := set_streamingMessageId None st1 in
      let st3 := append_card sessionId card cardId now st2 in
      let st4 := persist (on_registry (touchSession sessionId now) st3) in
      (set_abortController None (set_isSending false st4), Finished Returned)
  | FlowFiles =>
      let st2 := set_streamingMessageId None st1 in
      let st3 := append_card sessionId card cardId now st2 in
      let st4 := persist (on_registry (touchSession sessionId now) st3) in
      (set_isSending false st4, Finished Returned)
  | FlowRegenerate =>
      let st2 := append_card sessionId card cardId now st1 in
      (set_abortController None (persist st2), Finished Returned)
  end.

(** The [catch] block and the [finally] block. *)
Definition fail_generation (flow : Flow) (sessionId messageId : string)
    (e : Exception) (now : Z) (st : Stores) : Stores * Task :=
  let st1 := setMessageStatus sessionId messageId StatusError st in
  match flow with
  | FlowSend =>
      let st2 := persist (set_streamingMessageId None st1) in
      (set_abortController None (set_isSending false st2), Finished (Threw e))
  | FlowFiles =>
      let st2 := persist (set_streamingMessageId None st1) in
      let st3 := persist (on_registry (touchSession sessionId now) st2) in
      (set_isSending false st3, Finished Returned)
  | FlowRegenerate =>
      (set_abortController None (persist st1), Finished Returned)
  end.

(** The [for await] loop of [streamIntoMessage] at the point where it asks
    the generator for a chunk.  An [AbortError] of the generator is caught
    there and the function returns. *)
Definition stream_continue (flow : Flow) (sessionId messageId : string)
    (card : option AssistantCard) (g : StreamText) (cardId : string) (now : Z)
    (st : Stores) : Stores * Task :=
  match stream_advance (controllers st) g with
  | StreamSleeping chunk g' => (st, Streaming flow sessionId messageId card chunk g')
  | StreamDone | StreamAborted => finish_generation flow sessionId messageId card cardId now st
  end.

Definition streamIntoMessage (flow : Flow) (sessionId messageId : string)
    (card : option AssistantCard) (content : string) (cardId : string) (now : Z)
    (st : Stores) : Stores * Task :=
  let st1 :=
    updateMessage sessionId messageId
      (fun msg => ChatMessage.with_status StatusStreaming (ChatMessage.with_content "" msg))
      st in
  stream_continue flow sessionId messageId card
    (streamText content (Some 4%nat) (abortController st1)) cardId now st1.

(** The placeholder, the context and the request: what [sendMessage] and
    [sendFiles] do from the creation of the placeholder to the [await] of
    the completion. *)
Definition start_generation (flow : Flow) (sessionId placeholderId : string)
    (extra : list ContextMessage) (now : Z) (st : Stores) : Stores * Task :=
  let placeholder :=
    text_message placeholderId sessionId RoleAssistant "" now StatusStreaming in
  let st1 := appendMessage sessionId placeholder now st in
  let st2 := set_streamingMessageId (Some placeholderId) st1 in
  let st3 := match flow with FlowSend => set_isSending true st2 | _ => st2 end in
  let st4 := persist st3 in
  let '(st5, contextMessages) := buildContextMessages sessionId st4 in
  (new_controller (abort_current st5),
   AwaitCompletion flow sessionId placeholderId (contextMessages ++ extra)).

Definition sendMessage (content : string)
    (newSessionId userMessageId placeholderId : string) (now : Z) (st : Stores)
    : Stores * Task :=
  let trimmed := trim content in
  if truthy trimmed then
    let '(st1, sessionId) := ensureSession newSessionId now st in
    let userMessage := text_message userMessageId sessionId RoleUser trimmed now StatusSent in
    let st2 := appendMessage sessionId userMessage now st1 in
    start_generation FlowSend sessionId placeholderId [] now st2
  else (st, Finished Returned).

(** [Math.round(size / 1024)] for a size in bytes. *)
Definition kilobytes (size : Z) : Z := (size + 512) / 1024.

Fixpoint join_strings (sep : string) (l : list string) : string :=
  match l with
  | [] => ""
  | [x] => x
  | x :: r => x +:+ sep +:+ join_strings sep r
  end.

Definition summaryForApi (files : list File) : string :=
  "已上传文件：" +:+
  join_strings ", "
    (map (fun f => file_name f +:+ " (" +:+ string_of_number (kilobytes (file_size f))
                   +:+ " KB)") files).

Definition sendFiles (files : list File) (newSessionId firstId : string) (now : Z)
    (st : Stores) : Stores * Task :=
  match files with
  | [] => (st, Finished Returned)
  | file :: remaining =>
      let '(st1, sessionId) := ensureSession newSessionId now st in
      (set_isSending true st1, SavingFile sessionId files file firstId remaining)
  end.

Definition sendFile (file : File) := sendFiles [file].

(** The number of [assistant]/[card] messages at the head of a list. *)
Fixpoint count_cards (l : list ChatMessage.t) : nat :=
  match l with
  | m :: r =>
      if bool_decide (ChatMessage.role m = RoleAssistant)
         && bool_decide (ChatMessage.type m = TypeCard)
      then S (count_cards r) else 0%nat
  | [] => 0%nat
  end.

(** [[...list].slice(0, index).reverse().find(msg => msg.role === 'user')] *)
Definition previousUser (list : list ChatMessage.t) (index : nat)
    : option ChatMessage.t :=
  List.find (fun msg => bool_decide (ChatMessage.role msg = RoleUser))
    (rev (take index list)).

Definition regenerateAssistantMessage (messageId : string) (now : Z) (st : Stores)
    : Stores * Task :=
  match activeSessionId (registry st) with
  | None => (st, Finished Returned)
  | Some sessionId =>
      if truthy sessionId then
        let '(st1, list) := getMessages sessionId st in
        match findIndex (message_has_id messageId) list with
        | None => (st1, Finished Returned)
        | Some index =>
            match previousUser list index with
            | None => (st1, Finished Returned)
            | Some user =>
                let removeCount := count_cards (drop (index + 1) list) in
                let st2 :=
                  if (0 <? removeCount)%nat then
                    let list' := take (index + 1) list ++ drop (index + 1 + removeCount) list in
                    persist
                      (on_registry
                         (replaceMessageIds sessionId (map ChatMessage.id list') now)
                         (set_messages (<[sessionId := list']> (messagesBySession st1)) st1))
                  else st1 in
                let st3 := setMessageStatus sessionId messageId StatusStreaming st2 in
                let st4 := updateMessage sessionId messageId (ChatMessage.with_content "") st3 in
                (new_controller (abort_current st4),
                 AwaitCompletion FlowRegenerate sessionId messageId
                   [(RoleUser, ChatMessage.content user)])
            end
        end
      else (st, Finished Returned)
  end.

(** A suspended task is woken by the event it waits for; any other event
    leaves it as it is. *)
Definition resume (ev : Event) (freshId : string) (now : Z) (task : Task) (st : Stores)
    : Stores * Task :=
  match task, ev with
  | SavingFile sessionId files file msgId remaining, FileSaved _ =>
      let st1 := appendMessage sessionId (file_message msgId sessionId file now) now st in
      match remaining with
      | next :: remaining' => (st1, SavingFile sessionId files next freshId remaining')
      | [] =>
          start_generation FlowFiles sessionId freshId
            [(RoleUser, summaryForApi files)] now st1
      end
  | AwaitCompletion flow sessionId messageId _, CompletionResolved choices card =>
      streamIntoMessage flow sessionId messageId card (default "" (head choices))
        freshId now st
  | AwaitCompletion flow sessionId messageId _, CompletionRejected e =>
      fail_generation flow sessionId messageId e now st
  | Streaming flow sessionId messageId card chunk g, DelayElapsed streamFails =>
      if streamFails then fail_generation flow sessionId messageId OtherError now st
      else
        stream_continue flow sessionId messageId card g freshId now
          (updateMessage sessionId messageId
             (fun msg => ChatMessage.with_content (ChatMessage.content msg +:+ chunk) msg)
             st)
  | _, _ => (st, task)
  end.

(** What happens to one task from its start: it is resumed, or meanwhile
    another generation starts, which among the controllers aborts the one in
    place and installs a new one, or the user selects a session. *)
Inductive Step :=
| Wake (ev : Event) (freshId : string) (now : Z)
| Cancel
| Select (sessionId : string).

Definition step (s : Step) (run : Stores * Task) : Stores * Task :=
  match s with
  | Wake ev freshId now => resume ev freshId now (snd run) (fst run)
  | Cancel => (new_controller (abort_current (fst run)), snd run)
  | Select id => (on_registry (setActiveSession id) (fst run), snd run)
  end.

Definition run_task (steps : list Step) (run : Stores * Task) : Stores * Task :=
  fold_left (fun r s => step s r) steps run.

(** The engine with the tasks in flight; [Call...] starts an action,
    [Resume i] wakes the [i]-th task started. *)
Record System := { stores : Stores; tasks : list Task }.

Inductive Op :=
| CallSendMessage (content newSessionId userMessageId placeholderId : string) (now : Z)
| CallSendFiles (files : list File) (newSessionId firstId : string) (now : Z)
| CallRegenerate (messageId : string) (now : Z)
| CallSetActiveSession (sessionId : string)
| CallRenameSession (sessionId title : string) (now : Z)
| Resume (i : nat) (ev : Event) (freshId : string) (now : Z).

Definition spawn (r : Stores * Task) (sys : System) : System :=
  {| stores := fst r; tasks := tasks sys ++ [snd r] |}.

Definition exec (sys : System) (op : Op) : System :=
  match op with
  | CallSendMessage content newSessionId userMessageId placeholderId now =>
      spawn (sendMessage content newSessionId userMessageId placeholderId now (stores sys)) sys
  | CallSendFiles files newSessionId firstId now =>
      spawn (sendFiles files newSessionId firstId now (stores sys)) sys
  | CallRegenerate messageId now =>
      spawn (regenerateAssistantMessage messageId now (stores sys)) sys
  | CallSetActiveSession id =>
      {| stores := on_registry (setActiveSession id) (stores sys); tasks := tasks sys |}
  | CallRenameSession id title now =>
      {| stores := on_registry (renameSession id title now) (stores sys); tasks := tasks sys |}
  | Resume i ev freshId now =>
      match tasks sys !! i with
      | Some task =>
          let r := resume ev freshId now task (stores sys) in
          {| stores := fst r; tasks := <[i := snd r]> (tasks sys) |}
      | None => sys
      end
  end.

Definition run (ops : list Op) (sys : System) : System := fold_left exec ops sys.

(** The engine when the page is first opened: nothing stored, no session. *)
Definition initial : System :=
  {| stores :=
       {| registry := {| sessions := []; activeSessionId := None |};
          messagesBySession := ∅;
          streamingMessageId := None;
          isSending := false;
          abortController := None;
          controllers := [];
          window := Some None |};
     tasks := [] |}.

Definition all_messages (st : Stores) : list ChatMessage.t :=
  concat (map snd (map_to_list (messagesBySession st))).

Definition streaming_count (st : Stores) : nat :=
  length (List.filter (fun m => bool_decide (ChatMessage.status m = StatusStreaming))
            (all_messages st)).

(** ** Notions used to state the properties *)

(** The claim as the specification words it: the number chosen is the least
    positive [N] whose auto-generated title is not a title in use. *)
Definition least_unused_title_number (st : ChatSessionsState) (n : Z) : Prop :=
  1 <= n /\ (auto_title n ∉ titles st)
  /\ forall k, 1 <= k -> auto_title k ∉ titles st -> n <= k.

Definition zero_padded_registry : ChatSessionsState :=
  {| sessions := [ChatSession.mk "s1" (TITLE_PREFIX +:+ "01") 1 1 []];
     activeSessionId := Some "s1" |}.

(** What is stored under the key, read as a snapshot: the [data] member of
    the object that the text parses to. *)
Definition stored_data (raw : string) : option jsval :=
  match JSON_parse raw with
  | Some (JObj o) => assoc "data" o
  | _ => None
  end.

(** The claim as the specification words it: whatever the store holds, load
    yields the stored data or the empty state. *)
Definition load_yields_data_or_empty (item : option string) : Prop :=
  readInitialChatState (Some item) = Some defaultState
  \/ exists raw data,
       item = Some raw /\ stored_data raw = Some data
       /\ readInitialChatState (Some item) = Some data.

(** The first [length P] messages of the session are [P]. *)
Definition prefix_kept (P : list ChatMessage.t) (sid : string) (st : Stores) : Prop :=
  take (length P) (messages_of sid st) = P.

(** The task writes into message [mid] of session [sid], or has ended. *)
Definition generating (sid mid : string) (t : Task) : Prop :=
  match t with
  | AwaitCompletion _ s m _ | Streaming _ s m _ _ _ => s = sid /\ m = mid
  | Finished _ => True
  | SavingFile _ _ _ _ _ => False
  end.

Definition is_delivery (s : Step) : bool :=
  match s with
  | Wake (DelayElapsed false) _ _ => true
  | _ => false
  end.

(** The number of chunks of [chunkSize] 4 that a content is cut into. *)
Definition chunk_count (content : string) : nat := (String.length content + 3) / 4.

(** While the files are saved the task is woken by the blob store, and the
    user may select sessions in between. *)
Definition is_save_or_select (s : Step) : bool :=
  match s with
  | Wake (FileSaved _) _ _ | Select _ => true
  | _ => false
  end.

Definition is_save (s : Step) : bool :=
  match s with
  | Wake (FileSaved _) _ _ => true
  | _ => false
  end.

Definition select_then_build : Stores :=
  {| registry := {| sessions := []; activeSessionId := Some "other" |};
     messagesBySession := {["s" := []]};
     streamingMessageId := None; isSending := false; abortController := None;
     controllers := []; window := Some None |}.

(** *** Traces of the engine *)

Definition status_of (sessionId messageId : string) (st : Stores) : option MessageStatus :=
  ChatMessage.status <$> List.find (message_has_id messageId) (messages_of sessionId st).

Definition content_of (sessionId messageId : string) (st : Stores) : option string :=
  ChatMessage.content <$> List.find (message_has_id messageId) (messages_of sessionId st).

(** Two sends, the second before the first has settled. *)
Definition two_sends : list Op :=
  [CallSendMessage "Hello" "s1" "u1" "p1" 1;
   CallSendMessage "Again" "s2" "u2" "p2" 2].

(** The second send starts while the first awaits its completion; then both
    run to their end. *)
Definition second_send_before_completion : list Op :=
  two_sends ++
  [Resume 0 (CompletionResolved ["Hi there"] None) "c1" 3;
   Resume 0 (DelayElapsed false) "c1" 4;
   Resume 0 (DelayElapsed false) "c1" 5;
   Resume 1 (CompletionResolved ["Yo"] None) "c2" 6;
   Resume 1 (DelayElapsed false) "c2" 7].

(** The second send starts while the first streams its first chunk. *)
Definition second_send_while_streaming : list Op :=
  [CallSendMessage "Hello" "s1" "u1" "p1" 1;
   Resume 0 (CompletionResolved ["Hi there"] None) "c1" 2;
   CallSendMessage "Again" "s2" "u2" "p2" 3;
   Resume 0 (DelayElapsed false) "c1" 4;
   Resume 1 (CompletionResolved ["Yo"] None) "c2" 5;
   Resume 1 (DelayElapsed false) "c2" 6].

Definition demo_card : AssistantCard :=
  {| cardType := CardArticle; card_title := "Guide"; description := "How to";
     actionText := "Open"; actionUrl := "https://example.org/guide" |}.

(** Two complete turns in one session. *)
Definition two_turns : list Op :=
  [CallSendMessage "Q1" "s1" "u1" "a1" 1;
   Resume 0 (CompletionResolved ["A1"] None) "x1" 2;
   Resume 0 (DelayElapsed false) "x1" 3;
   CallSendMessage "Q2" "s2" "u2" "a2" 4;
   Resume 1 (CompletionResolved ["A2"] None) "x2" 5;
   Resume 1 (DelayElapsed false) "x2" 6].

(** The first answer is regenerated and the new completion carries a card. *)
Definition regenerate_first_with_card : list Op :=
  two_turns ++
  [CallRegenerate "a1" 7;
   Resume 2 (CompletionResolved ["B1"] (Some demo_card)) "c1" 8;
   Resume 2 (DelayElapsed false) "c1" 9].

(** One complete turn. *)
Definition one_turn : list Op :=
  [CallSendMessage "Q1" "s1" "u1" "a1" 1;
   Resume 0 (CompletionResolved ["A1"] None) "x1" 2;
   Resume 0 (DelayElapsed false) "x1" 3].

(** The answer is being regenerated when the user sends the next text; the
    composer is open then, since a regeneration does not set [isSending]. *)
Definition send_during_regeneration : list Op :=
  one_turn ++
  [CallRegenerate "a1" 4;
   CallSendMessage "Q2" "s2" "u2" "a2" 5].

(** Then the completion of the regeneration resolves with a card, and both
    generations run to their end. *)
Definition card_after_send_during_regeneration : list Op :=
  send_during_regeneration ++
  [Resume 1 (CompletionResolved ["B1"] (Some demo_card)) "c1" 6;
   Resume 1 (DelayElapsed false) "c1" 7;
   Resume 2 (CompletionResolved ["A2"] None) "x2" 8;
   Resume 2 (DelayElapsed false) "x2" 9].

(** ** The rest of the stores *)

(** The getter [activeSession] of the session registry. *)
Definition activeSession (st : ChatSessionsState) : option ChatSession.t :=
  match activeSessionId st with
  | Some a => List.find (has_id a) (sessions st)
  | None => None
  end.

(** The getter [messages] of the message store: the list of the active
    session. *)
Definition messages (st : Stores) : list ChatMessage.t :=
  match activeSessionId (registry st) with
  | Some sessionId => if truthy sessionId then messages_of sessionId st else []
  | None => []
  end.

(** [resetAll].  The call of [clearAllFiles] is not awaited and touches the
    blob store only. *)
Definition resetAll (st : Stores) : Stores :=
  let st1 := set_window (clearStorage (window st)) st in
  let st2 := on_registry (fun _ => {| sessions := []; activeSessionId := None |}) st1 in
  persist (set_messages ∅ st2).








(** The pointer of the registry names a session of the list. *)
Definition active_valid (st : ChatSessionsState) : Prop :=
  forall a, activeSessionId st = Some a -> a ∈ map ChatSession.id (sessions st).

(** The registry mirrors the order of the messages of a session. *)
Definition mirrored (sessionId : string) (st : Stores) : Prop :=
  session_messageIds sessionId (registry st)
  = Some (map ChatMessage.id (messages_of sessionId st)).

Definition is_blank (s : string) : Prop :=
  Forall (fun c => is_js_space c = true) (chars s).

(** [s'] is the session [s] at a later moment, not after [now]. *)
Definition later (now : Z) (s s' : ChatSession.t) : Prop :=
  ChatSession.id s' = ChatSession.id s
  /\ ChatSession.updatedAt s <= ChatSession.updatedAt s' <= now.

(** A registry with two sessions, the newer one in front and active. *)
Definition sample_registry : ChatSessionsState :=
  {| sessions := [ChatSession.mk "s2" "Chat B" 2 3 ["m3"];
                  ChatSession.mk "s1" "Chat A" 1 2 ["m1"; "m2"]];
     activeSessionId := Some "s2" |}.

(** Two states of the stores that no reader can tell apart: the same
    registry, the same list for every session, the same flags, controllers
    and durable storage. *)
Definition same_view (st st' : Stores) : Prop :=
  registry st' = registry st
  /\ (forall sessionId, messages_of sessionId st' = messages_of sessionId st)
  /\ streamingMessageId st' = streamingMessageId st
  /\ isSending st' = isSending st
  /\ abortController st' = abortController st
  /\ controllers st' = controllers st
  /\ window st' = window st.

(** The session that a suspended task writes to. *)
Definition task_session (t : Task) : option string :=
  match t with
  | SavingFile s _ _ _ _ | AwaitCompletion _ s _ _ | Streaming _ s _ _ _ _ => Some s
  | Finished _ => None
  end.

(** The id that a task drew before it was suspended and has not used yet. *)
Definition pending_id (t : Task) : option string :=
  match t with
  | SavingFile _ _ _ msgId _ => Some msgId
  | _ => None
  end.

(** A message that [buildContextMessages] may put in a request. *)
Definition in_context (msg : ChatMessage.t) : bool :=
  bool_decide (ChatMessage.type msg = TypeText)
  && negb (bool_decide (ChatMessage.status msg = StatusStreaming)).

Definition context_entry (msg : ChatMessage.t) : ContextMessage :=
  (ChatMessage.role msg, ChatMessage.content msg).

(** A message is a card attached to an answer. *)
Definition is_card (msg : ChatMessage.t) : Prop :=
  ChatMessage.role msg = RoleAssistant /\ ChatMessage.type msg = TypeCard.

(** A session with one completed turn and a card under the answer. *)
Definition sample_stores : Stores :=
  {| registry :=
       {| sessions := [ChatSession.mk "s1" "Chat A" 1 4 ["u1"; "a1"; "k1"]];
          activeSessionId := Some "s1" |};
     messagesBySession :=
       {["s1" := [text_message "u1" "s1" RoleUser "Q1" 1 StatusSent;
                  text_message "a1" "s1" RoleAssistant "A1" 2 StatusSent;
                  card_message "k1" "s1" demo_card 3]]};
     streamingMessageId := None;
     isSending := false;
     abortController := None;
     controllers := [];
     window := Some None |}.

(** The list of a session during a generation: the target, with the given
    content and status, between the messages before and after it, then the
    messages appended since. *)
Definition shaped (sid : string) (before rest : list ChatMessage.t) (base : ChatMessage.t)
    (content : string) (status : MessageStatus) (appended : list ChatMessage.t)
    (st : Stores) : Prop :=
  messages_of sid st
  = before
    ++ ChatMessage.with_content content (ChatMessage.with_status status base)
       :: rest ++ appended.

(** The first [k] characters of a content. *)
Definition prefix_of_content (c : string) (k : nat) : string :=
  string_of_list_ascii (take k (chars c)).

(** Where a generation of content [c] stands: streaming with the chunks
    written so far and the next one in hand, or ended with a prefix of the
    content written and at most one message appended. *)
Definition underway (flow : Flow) (sid mid : string) (before rest : list ChatMessage.t)
    (base : ChatMessage.t) (c : string) (card : option AssistantCard)
    (r : Stores * Task) : Prop :=
  match r.2 with
  | Streaming fl s m cd chunk g =>
      fl = flow /\ s = sid /\ m = mid /\ cd = card /\ stream_content g = c
      /\ exists k, (k <= cursor g)%nat
           /\ shaped sid before rest base (prefix_of_content c k) StatusStreaming [] r.1
           /\ chunk = slice k (cursor g) c
  | Finished _ =>
      exists k status appended,
        shaped sid before rest base (prefix_of_content c k) status appended r.1
        /\ (status = StatusSent \/ status = StatusError)
        /\ (length appended <= 1)%nat
  | _ => False
  end.

(** The flow that a suspended task belongs to. *)
Definition task_flow (t : Task) : option Flow :=
  match t with
  | SavingFile _ _ _ _ _ => Some FlowFiles
  | AwaitCompletion flow _ _ _ | Streaming flow _ _ _ _ _ => Some flow
  | Finished _ => None
  end.


(** The snapshot of the two stores as they are in memory. *)
Definition snapshot_of (st : Stores) : jsval :=
  JObj [("sessions", js_of_sessions (sessions (registry st)));
        ("messages", js_of_messages (messagesBySession st))].



(** Durable storage holds the snapshot of the stores as they are now. *)
Definition in_sync (st : Stores) : Prop :=
  readInitialChatState (window st) = Some (snapshot_of st).

(** The page runs in a browser window. *)
Definition has_window (st : Stores) : Prop := exists item, window st = Some item.

(** The two flags that the composer reads. *)
Definition flags (st : Stores) : bool * option string :=
  (isSending st, streamingMessageId st).

(** The blob store answers for one file: whether it kept the blob, and the
    id and the time that the flow draws next. *)
Definition save_step (s : bool * (string * Z)) : Step :=
  Wake (FileSaved s.1) s.2.1 s.2.2.

(** ** The thread view ([components/chat/ChatThread.vue]) *)

(** [visibleMessages]: the last [visibleCount] messages; [slice(-0)] is
    [slice(0)], the whole list. *)
Definition visibleMessages (visibleCount : nat) (messages : list ChatMessage.t)
    : list ChatMessage.t :=
  if (length messages <=? visibleCount)%nat then messages
  else if (visibleCount =? 0)%nat then messages
  else drop (length messages - visibleCount) messages.

(** The inner loop of [mergedMessages]: the cards of the assistant card
    messages at the head of a list, as long as they carry one. *)
Fixpoint attached_cards (l : list ChatMessage.t) : list AssistantCard :=
  match l with
  | nxt :: r =>
      if bool_decide (ChatMessage.role nxt = RoleAssistant)
         && bool_decide (ChatMessage.type nxt = TypeCard)
      then match ChatMessage.card nxt with
           | Some c => c :: attached_cards r
           | None => []
           end
      else []
  | [] => []
  end.

(** An item of the thread: a message, with the cards shown under it when it
    has some. *)
Definition ThreadItem : Type := ChatMessage.t * option (list AssistantCard).

(** The outer loop of [mergedMessages] from a position on; [fuel] bounds the
    number of rounds. *)
Fixpoint merge_from (fuel : nat) (l : list ChatMessage.t) : list ThreadItem :=
  match fuel with
  | O => []
  | S fuel' =>
      match l with
      | [] => []
      | msg :: r =>
          if bool_decide (ChatMessage.role msg = RoleAssistant)
             && bool_decide (ChatMessage.type msg = TypeText)
          then
            let cards := attached_cards r in
            if (0 <? length cards)%nat
            then (msg, Some cards) :: merge_from fuel' (drop (length cards) r)
            else (msg, None) :: merge_from fuel' r
          else (msg, None) :: merge_from fuel' r
      end
  end.

Definition mergedMessages (visibleCount : nat) (messages : list ChatMessage.t)
    : list ThreadItem :=
  let l := visibleMessages visibleCount messages in
  merge_from (length l) l.

Definition isLatestAssistantMessage (messages : list ChatMessage.t)
    (message : ChatMessage.t) : bool :=
  if negb (bool_decide (ChatMessage.role message = RoleAssistant)) then false
  else
    match findIndex (message_has_id (ChatMessage.id message)) messages with
    | None => false
    | Some idx =>
        forallb
          (fun m => negb (bool_decide (ChatMessage.role m = RoleAssistant))
                    || bool_decide (ChatMessage.type m = TypeCard))
          (drop (idx + 1) messages)
    end.

(** [canRegenerate] of [MessageBubble.vue], for the item of a message. *)
Definition canRegenerate (messages : list ChatMessage.t) (message : ChatMessage.t) : bool :=
  bool_decide (ChatMessage.role message = RoleAssistant)
  && bool_decide (ChatMessage.type message = TypeText)
  && isLatestAssistantMessage messages message.

(** The number of messages that an item of the thread shows. *)
Definition item_size (it : ThreadItem) : nat := S (length (default [] it.2)).

(** * Properties *)

(** ** Session registry *)

Section FindUpdate.
Context {A : Type} (p : A -> bool).


Lemma find_update_twice (f g : A -> A) l :
  (forall x, p x = true -> p (f x) = true) ->
  (forall x, p x = true -> g (f x) = f x) ->
  find_update p g (find_update p f l) = find_update p f l.
Proof.
  intros Hp Hg. induction l as [|x r IH]; simpl; [done|].
  destruct (p x) eqn:Hx; simpl.
  - rewrite (Hp x Hx), (Hg x Hx). done.
  - rewrite Hx, IH. done.
Qed.
End FindUpdate.

Lemma includes_snoc x l : includes x (l ++ [x]) = true.
Proof.
  unfold includes. rewrite existsb_app. simpl.
  rewrite String.eqb_refl. apply orb_true_iff. right. done.
Qed.

Lemma includes_true x l : includes x l = true <-> x ∈ l.
Proof.
  unfold includes. rewrite existsb_exists. split.
  - intros (y & Hin & Heq). apply String.eqb_eq in Heq. subst.
    by apply list_elem_of_In.
  - intros Hin. exists x. split; [by apply list_elem_of_In | apply String.eqb_refl].
Qed.

(** C7. [appendMessageId] is idempotent: a second call with the same session
    and message id leaves the registry, hence the session's [messageIds] and
    their length, exactly as the first call left them. *)
Theorem appendMessageId_idempotent (sessionId messageId : string) (now1 now2 : Z)
    (st : ChatSessionsState) :
  appendMessageId sessionId messageId now2
    (appendMessageId sessionId messageId now1 st)
  = appendMessageId sessionId messageId now1 st
  /\ (length <$> session_messageIds sessionId
        (appendMessageId sessionId messageId now2
           (appendMessageId sessionId messageId now1 st)))
     = (length <$> session_messageIds sessionId
          (appendMessageId sessionId messageId now1 st)).
Proof.
  assert (Heq : appendMessageId sessionId messageId now2
                  (appendMessageId sessionId messageId now1 st)
                = appendMessageId sessionId messageId now1 st).
  { unfold appendMessageId. simpl. f_equal.
    apply find_update_twice.
    - intros s Hs. destruct (includes _ _); [done|]. exact Hs.
    - intros s _. destruct (includes messageId (ChatSession.messageIds s)) eqn:Hin.
      + by rewrite Hin.
      + simpl. by rewrite includes_snoc. }
  split; [exact Heq | by rewrite Heq].
Qed.

(** *** The auto-generated title *)

Lemma next_number_from_spec nums : forall next,
  Sorted Z.le nums ->
  let r := next_number_from next nums in
  next <= r /\ (r ∉ nums) /\ (forall k, next <= k < r -> k ∈ nums).
Proof.
  induction nums as [|num rest IH]; intros next Hs; simpl.
  - split; [lia|]. split; [apply not_elem_of_nil | intros k Hk; lia].
  - assert (Hs' : Sorted Z.le rest) by (by inversion Hs).
    destruct (Z.eqb_spec num next) as [->|Hne].
    + destruct (IH (next + 1) Hs') as (Hle & Hnotin & Hall).
      split; [lia|]. split.
      * rewrite elem_of_cons. intros [Heq|Hin]; [lia | done].
      * intros k Hk. destruct (decide (k = next)) as [->|Hk'].
        -- apply list_elem_of_here.
        -- apply list_elem_of_further, Hall. lia.
    + destruct (Z.ltb_spec next num) as [Hlt|Hge].
      * split; [lia|]. split; [|intros k Hk; lia].
        apply Sorted_StronglySorted in Hs; [|intros ???; lia].
        inversion Hs as [|?? _ Hall]; subst.
        rewrite elem_of_cons. intros [Heq|Hin]; [lia|].
        rewrite List.Forall_forall in Hall.
        apply list_elem_of_In, Hall in Hin. lia.
      * destruct (IH next Hs') as (Hle & Hnotin & Hall).
        split; [lia|]. split.
        -- rewrite elem_of_cons. intros [Heq|Hin]; [lia | done].
        -- intros k Hk. apply list_elem_of_further, Hall. lia.
Qed.

Lemma existingNumbers_sorted ss : Sorted Z.le (existingNumbers ss).
Proof. apply Sorted_merge_sort. intros x y. lia. Qed.

Lemma elem_of_existingNumbers ss n :
  n ∈ existingNumbers ss <->
  0 < n /\ exists t, t ∈ map ChatSession.title ss /\ title_number t = n.
Proof.
  unfold existingNumbers. rewrite merge_sort_Permutation.
  rewrite list_elem_of_filter. split.
  - intros [Hpos Hin]. split; [done|].
    apply list_elem_of_In, in_map_iff in Hin as (s & Hs & Hin).
    exists (ChatSession.title s). split; [|done].
    apply list_elem_of_In, in_map. done.
  - intros [Hpos (t & Hin & Ht)]. split; [done|].
    apply list_elem_of_In, in_map_iff in Hin as (s & Hs & Hin).
    apply list_elem_of_In, in_map_iff. exists s. split; [congruence | done].
Qed.

Lemma strip_prefix_app p s : strip_prefix p (p +:+ s) = Some s.
Proof. induction p as [|a p IH]; simpl; [done|]. by rewrite Ascii.eqb_refl. Qed.

Lemma string_of_uint_nonempty u : u <> Nil -> NilEmpty.string_of_uint u <> "".
Proof. destruct u; simpl; congruence. Qed.

Lemma title_number_auto_title n : 1 <= n -> title_number (auto_title n) = n.
Proof.
  intros Hn. unfold title_number, auto_title. rewrite strip_prefix_app.
  destruct n as [|p|p]; try lia.
  unfold string_of_number. simpl.
  pose proof (string_of_uint_nonempty _ (DecimalPos.Unsigned.to_uint_nonnil p)) as Hne.
  destruct (NilEmpty.string_of_uint (Pos.to_uint p)) eqn:Hstr; [done|].
  rewrite <- Hstr, NilEmpty.usu. unfold N.of_uint.
  by rewrite DecimalPos.Unsigned.of_to.
Qed.

Lemma nextNumber_spec ss :
  let n := nextNumber ss in
  1 <= n
  /\ (forall t, t ∈ map ChatSession.title ss -> title_number t <> n)
  /\ (forall k, 1 <= k < n ->
        exists t, t ∈ map ChatSession.title ss /\ title_number t = k).
Proof.
  pose proof (next_number_from_spec (existingNumbers ss) 1 (existingNumbers_sorted ss))
    as (Hle & Hnotin & Hall).
  fold (nextNumber ss) in Hle, Hnotin, Hall.
  split; [done|]. split.
  - intros t Hin Heq. apply Hnotin, elem_of_existingNumbers.
    split; [lia|]. by exists t.
  - intros k Hk. apply Hall, elem_of_existingNumbers in Hk as [_ Ht]. done.
Qed.

(** C6, as stated, fails: a session renamed to the prefix followed by "01"
    counts as number 1, so the next title carries number 2 although the
    title with number 1 is not in use. *)
Lemma createSession_not_least_unused :
  ~ (forall st newId now,
       exists n, ChatSession.title (createSession None newId now st).2 = auto_title n
                 /\ least_unused_title_number st n).
Proof.
  intros H. destruct (H zero_padded_registry "s2" 2) as (n & Htitle & Hn & _ & Hleast).
  assert (Hn2 : n = 2).
  { apply (f_equal title_number) in Htitle.
    rewrite (title_number_auto_title n Hn) in Htitle. rewrite <- Htitle. reflexivity. }
  subst n. specialize (Hleast 1). 
  assert (2 <= 1); [|lia]. apply Hleast; [lia|].
  unfold titles. simpl. rewrite list_elem_of_singleton.
  intros Heq. vm_compute in Heq. discriminate Heq.
Qed.

(** C6, amended.  With no title supplied, the new session is named with the
    least positive number that is not the number of an existing title, where
    the number of a title is the decimal value of the digits after the
    prefix (so "01" counts as 1); the title chosen is never a title in use;
    the session goes to the front of the list and becomes active. *)
Theorem createSession_auto_title (st : ChatSessionsState) (newId : string) (now : Z) :
  exists n : Z,
    ChatSession.title (createSession None newId now st).2 = auto_title n
    /\ 1 <= n
    /\ (forall t, t ∈ titles st -> title_number t <> n)
    /\ (forall k, 1 <= k < n -> exists t, t ∈ titles st /\ title_number t = k)
    /\ (auto_title n ∉ titles st)
    /\ sessions (createSession None newId now st).1
       = (createSession None newId now st).2 :: sessions st
    /\ activeSessionId (createSession None newId now st).1 = Some newId
    /\ ChatSession.id (createSession None newId now st).2 = newId
    /\ ChatSession.messageIds (createSession None newId now st).2 = [].
Proof.
  destruct (nextNumber_spec (sessions st)) as (Hle & Hnot & Hall).
  exists (nextNumber (sessions st)). simpl.
  repeat split; try done.
  intros Hin. apply (Hnot _ Hin). by apply title_number_auto_title.
Qed.

(** The example of the specification: numbers 1 and 3 in use give number 2. *)
Example createSession_fills_gap :
  ChatSession.title
    (createSession None "c" 9
       {| sessions := [ChatSession.mk "b" (auto_title 3) 2 2 [];
                       ChatSession.mk "a" (auto_title 1) 1 1 []];
          activeSessionId := Some "b" |}).2
  = auto_title 2.
Proof. vm_compute. reflexivity. Qed.

(** ** JSON: parsing what [render] wrote *)

Lemma NoDup_keys_bool (l : list string) :
  bool_decide (NoDup l) = true -> NoDup l.
Proof. apply bool_decide_eq_true_1. Qed.

Lemma parse_chars_escape_char c tl :
  parse_chars (escape_char c ++ tl) = prepend (String c EmptyString) (parse_chars tl).
Proof.
  destruct c as [[] [] [] [] [] [] [] []]; reflexivity.
Qed.

Lemma parse_chars_escape s rest :
  parse_chars (escape_string s ++ rest) = Some (s, rest).
Proof.
  induction s as [|c s IH]; simpl; [done|].
  rewrite <- app_assoc, parse_chars_escape_char, IH. done.
Qed.

Lemma delimited_inv rest :
  delimited rest = true ->
  read_uint rest = (Nil, rest) /\ starts_fraction rest = false.
Proof.
  destruct rest as [|c r]; simpl; [done|].
  intros H. apply orb_true_iff in H as [H|H]; [apply orb_true_iff in H as [H|H]|];
    apply Ascii.eqb_eq in H; subst c; done.
Qed.

Lemma read_uint_render u rest :
  read_uint rest = (Nil, rest) ->
  read_uint (chars (NilEmpty.string_of_uint u) ++ rest) = (u, rest).
Proof.
  intros Hrest. induction u; simpl; try done;
    change (read_uint (?c :: ?s)) with
      (match digit_of c with
       | Some d => let '(u, rest) := read_uint s in (d u, rest)
       | None => (Nil, c :: s)
       end); fold chars; rewrite IHu; done.
Qed.

Lemma unorm_to_uint p : unorm (Pos.to_uint p) = Pos.to_uint p.
Proof.
  rewrite <- DecimalPos.Unsigned.to_of, DecimalPos.Unsigned.of_to. done.
Qed.

Lemma string_of_uint_head u :
  u <> Nil ->
  exists c tl, chars (NilEmpty.string_of_uint u) = c :: tl
    /\ Ascii.eqb c "-" = false /\ is_number_start c = true /\ is_ws c = false.
Proof. destruct u; try done; intros _; simpl; eauto 10. Qed.

Lemma render_number_head n :
  exists c tl, chars (string_of_number n) = c :: tl
    /\ is_number_start c = true /\ is_ws c = false.
Proof.
  destruct n as [|p|p]; unfold string_of_number; simpl.
  - eauto.
  - destruct (string_of_uint_head _ (DecimalPos.Unsigned.to_uint_nonnil p))
      as (c & tl & -> & _ & ? & ?). eauto.
  - eauto.
Qed.

Lemma parse_number_cons c r :
  parse_number (c :: r)
  = if Ascii.eqb c "-" then parse_unsigned true r else parse_unsigned false (c :: r).
Proof. unfold parse_number, parse_unsigned. destruct (Ascii.eqb c "-"); done. Qed.

Lemma parse_unsigned_render negative p rest :
  delimited rest = true ->
  parse_unsigned negative (chars (NilEmpty.string_of_uint (Pos.to_uint p)) ++ rest)
  = Some (Z.of_int (if negative then Neg (Pos.to_uint p) else Pos (Pos.to_uint p)), rest).
Proof.
  intros Hd. destruct (delimited_inv rest Hd) as [Hru Hfrac].
  unfold parse_unsigned. rewrite (read_uint_render _ _ Hru).
  destruct (decide (Pos.to_uint p = Nil)) as [H0|_];
    [by apply DecimalPos.Unsigned.to_uint_nonnil in H0|].
  rewrite decide_True by apply unorm_to_uint. by rewrite Hfrac.
Qed.

Lemma parse_number_render n rest :
  delimited rest = true ->
  parse_number (chars (string_of_number n) ++ rest) = Some (n, rest).
Proof.
  intros Hd. destruct n as [|p|p]; unfold string_of_number; simpl Z.to_int.
  - destruct (delimited_inv rest Hd) as [Hru Hfrac].
    change (chars (NilEmpty.string_of_int (Pos zero)) ++ rest) with ("0"%char :: rest).
    rewrite parse_number_cons. change (Ascii.eqb "0" "-") with false.
    unfold parse_unsigned.
    change (read_uint ("0"%char :: rest)) with (let '(u, r) := read_uint rest in (D0 u, r)).
    rewrite Hru. simpl. by rewrite Hfrac.
  - simpl NilEmpty.string_of_int.
    pose proof (parse_unsigned_render false p rest Hd) as Hparse.
    destruct (string_of_uint_head _ (DecimalPos.Unsigned.to_uint_nonnil p))
      as (c & tl & Heq & Hminus & _ & _).
    rewrite Heq in *. simpl app in *. rewrite parse_number_cons, Hminus, Hparse.
    f_equal. f_equal. apply (DecimalZ.of_to (Z.pos p)).
  - change (chars (NilEmpty.string_of_int (Neg (Pos.to_uint p))) ++ rest)
      with ("-"%char :: (chars (NilEmpty.string_of_uint (Pos.to_uint p)) ++ rest)).
    rewrite parse_number_cons. change (Ascii.eqb "-" "-") with true.
    rewrite (parse_unsigned_render true p rest Hd).
    f_equal. f_equal. apply (DecimalZ.of_to (Z.neg p)).
Qed.

Lemma render_members_clean l :
  Forall (fun kv => clean (snd kv)) l ->
  omap (fun kv : string * jsval =>
          match snd kv with
          | JUndefined => None
          | _ => Some (quote (fst kv) ++ ":"%char :: render (snd kv))
          end) l
  = map render_member l.
Proof.
  induction 1 as [|[k v] l Hv _ IH]; [done|].
  change (map render_member ((k, v) :: l))
    with (render_member (k, v) :: map render_member l).
  rewrite <- IH. simpl in Hv. by destruct Hv.
Qed.

Lemma render_head v :
  clean v -> exists c tl, render v = c :: tl /\ value_start c = true.
Proof.
  destruct 1 as [| [] | n | s | l _ | l _ _]; simpl; eauto.
  destruct (render_number_head n) as (c & tl & -> & Hn & Hw).
  exists c, tl. split; [done|]. unfold value_start. rewrite Hw. simpl.
  clear -Hn. destruct c as [[] [] [] [] [] [] [] []]; done.
Qed.

Lemma skip_ws_start c r : value_start c = true -> skip_ws (c :: r) = c :: r.
Proof.
  unfold value_start. intros H. simpl. destruct (is_ws c); done.
Qed.

Lemma join_comma_more {A} (f : A -> list ascii) x y l :
  join_comma (map f (x :: y :: l)) = f x ++ ","%char :: join_comma (map f (y :: l)).
Proof. done. Qed.

Lemma parse_elements_render l :
  Forall value_ok l -> l <> [] ->
  forall fuel rest,
    (list_sum (map (fun x => S (need x)) l) <= fuel)%nat ->
    parse_elements fuel (join_comma (map render l) ++ "]"%char :: rest) = Some (l, rest).
Proof.
  induction 1 as [|x l Hx Hl IH]; [done|]. intros _ fuel rest Hfuel.
  simpl in Hfuel. destruct fuel as [|fuel]; [lia|].
  change (parse_elements (S fuel)) with
    (parse_elements_with (parse_value fuel) (parse_elements fuel)).
  unfold parse_elements_with.
  destruct l as [|y l].
  - simpl. rewrite Hx by (done || lia). done.
  - rewrite join_comma_more, <- app_assoc, <- app_comm_cons.
    rewrite Hx by (done || lia).
    change (skip_ws (","%char :: ?r)) with (","%char :: r).
    change (Ascii.eqb "," ",") with true. cbv iota.
    rewrite IH by (done || simpl in *; lia). done.
Qed.

Lemma parse_members_render l :
  Forall (fun kv => value_ok (snd kv)) l -> l <> [] ->
  forall fuel rest,
    (list_sum (map (fun kv => S (need (snd kv))) l) <= fuel)%nat ->
    parse_members fuel (join_comma (map render_member l) ++ "}"%char :: rest)
    = Some (l, rest).
Proof.
  induction 1 as [|[k v] l Hx Hl IH]; [done|]. intros _ fuel rest Hfuel.
  simpl in Hfuel, Hx. destruct fuel as [|fuel]; [lia|].
  change (parse_members (S fuel)) with
    (parse_members_with (parse_value fuel) (parse_members fuel)).
  unfold parse_members_with.
  assert (Hjoin : join_comma (map render_member ((k, v) :: l)) ++ "}"%char :: rest
                  = "034"%char :: escape_string k ++ ":"%char :: render v ++
                    match l with
                    | [] => "}"%char :: rest
                    | _ :: _ => ","%char :: join_comma (map render_member l) ++ "}"%char :: rest
                    end).
  { destruct l as [|y l].
    - simpl. unfold render_member, quote. simpl. by rewrite <- !app_assoc.
    - rewrite join_comma_more. unfold render_member at 1, quote. simpl.
      by rewrite <- !app_assoc. }
  rewrite Hjoin. clear Hjoin.
  change (skip_ws ("034"%char :: ?r)) with ("034"%char :: r).
  change (Ascii.eqb "034" "034") with true. cbv iota.
  rewrite parse_chars_escape.
  change (skip_ws (":"%char :: ?r)) with (":"%char :: r).
  change (Ascii.eqb ":" ":") with true. cbv iota.
  destruct l as [|y l].
  - rewrite Hx by (done || lia). done.
  - rewrite Hx by (done || lia).
    change (skip_ws (","%char :: ?r)) with (","%char :: r).
    change (Ascii.eqb "," ",") with true. cbv iota.
    rewrite IH by (done || simpl in *; lia). done.
Qed.

Lemma obj_set_fresh k v o :
  k ∉ map fst o -> obj_set k v o = o ++ [(k, v)].
Proof.
  induction o as [|[k' v'] o IH]; simpl; [done|].
  rewrite not_elem_of_cons. intros [Hne Hnotin].
  destruct (String.eqb_spec k' k); [congruence|]. by rewrite IH.
Qed.

Lemma obj_of_members_nodup l : NoDup (map fst l) -> obj_of_members l = l.
Proof.
  unfold obj_of_members.
  assert (H : forall acc, NoDup (map fst (acc ++ l)) ->
            fold_left (fun o kv => obj_set (fst kv) (snd kv) o) l acc = acc ++ l).
  { induction l as [|[k v] l IH]; intros acc Hnd; simpl.
    - by rewrite app_nil_r.
    - rewrite obj_set_fresh.
      + rewrite IH; rewrite <- app_assoc; done.
      + rewrite map_app in Hnd. simpl in Hnd.
        apply NoDup_app in Hnd as (_ & Hdisj & _).
        intros Hin. apply (Hdisj k Hin). apply list_elem_of_here. }
  intros Hnd. by rewrite (H [] Hnd).
Qed.

Lemma join_members_head l :
  l <> [] -> exists tl, join_comma (map render_member l) = "034"%char :: tl.
Proof.
  destruct l as [|[k v] [|y l]]; [done|..]; intros _.
  - simpl. unfold render_member, quote. simpl. eauto.
  - rewrite join_comma_more. unfold render_member at 1, quote. simpl. eauto.
Qed.

Lemma join_elements_head l :
  Forall clean l -> l <> [] ->
  exists c tl, join_comma (map render l) = c :: tl /\ value_start c = true.
Proof.
  destruct 1 as [|x l Hx _]; [done|]. intros _.
  destruct (render_head x Hx) as (c & tl & Heq & Hc).
  destruct l as [|y l].
  - simpl. rewrite Heq. eauto.
  - rewrite join_comma_more, Heq. simpl. eauto.
Qed.

Lemma parse_render v : clean v -> value_ok v.
Proof.
  induction v as [| | b | n | s | l IH | l IH] using jsval_forall_ind;
    intros Hclean fuel rest Hfuel Hd;
    inversion Hclean; subst; simpl in Hfuel; (destruct fuel as [|fuel]; [lia|]);
    change (parse_value (S fuel)) with
      (parse_value_with (parse_elements fuel) (parse_members fuel)).
  - done.
  - by destruct b.
  - unfold parse_value_with. simpl render.
    pose proof (parse_number_render n rest Hd) as Hparse.
    destruct (render_number_head n) as (c & tl & Heq & Hn & Hw).
    rewrite Heq in *. simpl app in *. simpl skip_ws. rewrite Hw, Hn, Hparse. done.
  - unfold parse_value_with. simpl render. unfold quote. rewrite <- app_comm_cons.
    change (skip_ws ("034"%char :: ?r)) with ("034"%char :: r). cbv iota.
    change (is_number_start "034") with false.
    change (Ascii.eqb "034" "034") with true. cbv iota.
    by rewrite parse_chars_escape.
  - unfold parse_value_with. simpl render.
    rewrite <- app_comm_cons, <- app_assoc. simpl app.
    change (skip_ws ("["%char :: ?r)) with ("["%char :: r). cbv iota.
    change (is_number_start "[") with false.
    change (Ascii.eqb "[" "034") with false.
    change (Ascii.eqb "[" "[") with true. cbv iota.
    destruct (decide (l = [])) as [->|Hne]; [done|].
    destruct (join_elements_head l) as (c & tl & Heq & Hc); [done..|].
    pose proof (parse_elements_render l) as Hparse.
    rewrite Heq in *. simpl app in *. rewrite skip_ws_start by done.
    unfold value_start in Hc. destruct (Ascii.eqb c "]"); [by destruct (is_ws c)|].
    rewrite Hparse; [done| |done|lia].
    rewrite Forall_forall in IH. apply Forall_forall. intros x Hx.
    apply IH; [done|]. rewrite Forall_forall in H0. by apply H0.
  - unfold parse_value_with. simpl render.
    rewrite render_members_clean by done.
    rewrite <- app_comm_cons, <- app_assoc. simpl app.
    change (skip_ws ("{"%char :: ?r)) with ("{"%char :: r). cbv iota.
    change (is_number_start "{") with false.
    change (Ascii.eqb "{" "034") with false.
    change (Ascii.eqb "{" "[") with false.
    change (Ascii.eqb "{" "{") with true. cbv iota.
    destruct (decide (l = [])) as [->|Hne]; [done|].
    destruct (join_members_head l Hne) as (tl & Heq).
    pose proof (parse_members_render l) as Hparse.
    rewrite Heq in *. simpl app in *.
    change (skip_ws ("034"%char :: ?r)) with ("034"%char :: r). cbv iota.
    change (Ascii.eqb "034" "}") with false. cbv iota.
    rewrite Hparse; [by rewrite obj_of_members_nodup| |done|lia].
    rewrite Forall_forall in IH. apply Forall_forall. intros x Hx.
    apply IH; [done|]. rewrite Forall_forall in H1. by apply H1.
Qed.

Lemma join_comma_length xs :
  (list_sum (map (fun x => S (length x)) xs) <= S (length (join_comma xs)))%nat.
Proof.
  induction xs as [|x [|y r] IH]; [simpl; lia | simpl; lia |].
  change (join_comma (x :: y :: r)) with (x ++ ","%char :: join_comma (y :: r)).
  rewrite length_app. simpl length. simpl in IH |- *. lia.
Qed.

Lemma list_sum_le {A} (f g : A -> nat) l :
  Forall (fun x => f x <= g x)%nat l ->
  (list_sum (map f l) <= list_sum (map g l))%nat.
Proof. induction 1; simpl; lia. Qed.

Lemma need_le_length v : clean v -> (need v <= length (render v))%nat.
Proof.
  induction v as [| | b | n | s | l IH | l IH] using jsval_forall_ind;
    intros Hclean; inversion Hclean; subst.
  - simpl. lia.
  - destruct b; simpl; lia.
  - destruct (render_number_head n) as (c & tl & Heq & _).
    simpl. rewrite Heq. simpl. lia.
  - simpl. lia.
  - simpl. rewrite length_app. simpl.
    pose proof (join_comma_length (map render l)) as Hjoin.
    rewrite map_map in Hjoin.
    assert (list_sum (map (fun x => S (need x)) l)
            <= list_sum (map (fun x => S (length (render x))) l))%nat; [|lia].
    apply list_sum_le. rewrite Forall_forall in IH, H0. apply Forall_forall.
    intros x Hx. specialize (IH x Hx (H0 x Hx)). lia.
  - simpl. rewrite render_members_clean by done. rewrite length_app. simpl.
    pose proof (join_comma_length (map render_member l)) as Hjoin.
    rewrite map_map in Hjoin.
    assert (list_sum (map (fun kv => S (need (snd kv))) l)
            <= list_sum (map (fun kv => S (length (render_member kv))) l))%nat; [|lia].
    apply list_sum_le. rewrite Forall_forall in IH, H1. apply Forall_forall.
    intros x Hx. specialize (IH x Hx (H1 x Hx)).
    unfold render_member. rewrite length_app. simpl. lia.
Qed.

Lemma clean_stringify v :
  clean v -> JSON_stringify v = Some (string_of_list_ascii (render v)).
Proof. by destruct 1. Qed.

Lemma JSON_parse_render v :
  clean v -> JSON_parse (string_of_list_ascii (render v)) = Some v.
Proof.
  intros Hclean. unfold JSON_parse, chars.
  rewrite list_ascii_of_string_of_list_ascii.
  pose proof (parse_render v Hclean (S (length (render v))) []) as Hparse.
  rewrite app_nil_r in Hparse. rewrite Hparse; [done| |done].
  pose proof (need_le_length v Hclean). lia.
Qed.

Lemma clone_clean v : clean v -> clone v = Some v.
Proof.
  intros Hclean. unfold clone. rewrite (clean_stringify v Hclean).
  by apply JSON_parse_render.
Qed.

Lemma clean_optional_member k v :
  (forall x, v = Some x -> clean x) ->
  Forall (fun kv => clean (snd kv)) (optional_member k v).
Proof.
  intros H. destruct v as [x|]; simpl; [|constructor].
  repeat constructor. by apply H.
Qed.

Lemma clean_metadata m : clean (js_of_metadata m).
Proof.
  apply clean_obj; [apply NoDup_keys_bool; vm_compute; reflexivity|].
  repeat constructor.
Qed.

Lemma clean_attachment a : clean (js_of_attachment a).
Proof.
  destruct a as [n sz mi [u|] [k|]]; (apply clean_obj;
    [apply NoDup_keys_bool; vm_compute; reflexivity | simpl; repeat constructor]).
Qed.

Lemma clean_card c : clean (js_of_card c).
Proof.
  apply clean_obj; [apply NoDup_keys_bool; vm_compute; reflexivity|].
  destruct c as [[] ? ? ? ?]; simpl; repeat constructor.
Qed.

Lemma clean_message m : clean (js_of_message m).
Proof.
  destruct m as [i s r t c ca st [md|] [att|] [cd|]];
    (apply clean_obj; [apply NoDup_keys_bool; vm_compute; reflexivity|]);
    simpl; repeat (apply List.Forall_cons || apply List.Forall_nil); simpl;
    try (by constructor); try (by destruct r); try (by destruct t);
    try (by destruct st);
    try apply clean_metadata; try apply clean_attachment; try apply clean_card.
Qed.

Lemma clean_session s : clean (js_of_session s).
Proof.
  apply clean_obj; [apply NoDup_keys_bool; vm_compute; reflexivity|].
  simpl. repeat (apply List.Forall_cons || apply List.Forall_nil); simpl;
    try (by constructor).
  constructor. apply Forall_forall. intros x Hx.
  apply list_elem_of_In, in_map_iff in Hx as (y & <- & _). constructor.
Qed.

Lemma clean_sessions ss : clean (js_of_sessions ss).
Proof.
  constructor. apply Forall_forall. intros x Hx.
  apply list_elem_of_In, in_map_iff in Hx as (y & <- & _). apply clean_session.
Qed.

Lemma clean_messages ms : clean (js_of_messages ms).
Proof.
  apply clean_obj.
  - rewrite map_map. simpl. apply (NoDup_fst_map_to_list ms).
  - apply Forall_forall. intros x Hx.
    apply list_elem_of_In, in_map_iff in Hx as ([k l] & <- & _). simpl.
    constructor. apply Forall_forall. intros x Hx.
    apply list_elem_of_In, in_map_iff in Hx as (y & <- & _). apply clean_message.
Qed.

(** ** Durable storage *)

Lemma clean_snapshot ss ms :
  clean (JObj [("sessions", js_of_sessions ss); ("messages", js_of_messages ms)]).
Proof.
  apply clean_obj; [apply NoDup_keys_bool; vm_compute; reflexivity|].
  repeat (apply List.Forall_cons || apply List.Forall_nil); simpl;
    [apply clean_sessions | apply clean_messages].
Qed.

Lemma makePersistedState_typed ss ms :
  makePersistedState (js_of_sessions ss) (js_of_messages ms)
  = Some (JObj [("sessions", js_of_sessions ss); ("messages", js_of_messages ms)]).
Proof.
  unfold makePersistedState.
  by rewrite (clone_clean _ (clean_sessions ss)), (clone_clean _ (clean_messages ms)).
Qed.

Lemma load_after_save data item fallback :
  clean data ->
  loadFromStorage fallback (saveToStorage data (Some item)) = data.
Proof.
  intros Hclean.
  assert (Hpayload : clean (JObj [("version", JNum 1); ("data", data)])).
  { apply clean_obj; [apply NoDup_keys_bool; vm_compute; reflexivity|].
    repeat (apply List.Forall_cons || apply List.Forall_nil); simpl;
      [constructor | done]. }
  unfold saveToStorage, loadFromStorage.
  rewrite (clean_stringify _ Hpayload), (JSON_parse_render _ Hpayload).
  done.
Qed.

(** The action [persist] of the message store writes the snapshot of the two
    stores, and a load that follows reads it back. *)
Lemma persist_window st :
  window (persist st)
  = persistChatState
      (JObj [("sessions", js_of_sessions (sessions (registry st)));
             ("messages", js_of_messages (messagesBySession st))])
      (window st).
Proof. unfold persist. by rewrite makePersistedState_typed. Qed.

Lemma load_after_persist st item :
  window st = Some item ->
  readInitialChatState (window (persist st))
  = Some (JObj [("sessions", js_of_sessions (sessions (registry st)));
                ("messages", js_of_messages (messagesBySession st))]).
Proof.
  intros Hwindow. rewrite persist_window, Hwindow.
  unfold readInitialChatState, persistChatState.
  change (clone defaultState) with (Some defaultState). cbv beta iota.
  by rewrite load_after_save by apply clean_snapshot.
Qed.

(** C5. Persisting a snapshot made of a list of sessions and a map of
    messages per session, then loading, gives back the snapshot: the value
    loaded is structurally equal to the value persisted, whatever the store
    held before and whatever the fallback is. *)
Theorem load_persist_roundtrip (ss : list ChatSession.t)
    (ms : gmap string (list ChatMessage.t)) (item : option string) :
  exists snapshot,
    makePersistedState (js_of_sessions ss) (js_of_messages ms) = Some snapshot
    /\ snapshot = JObj [("sessions", js_of_sessions ss); ("messages", js_of_messages ms)]
    /\ readInitialChatState (persistChatState snapshot (Some item)) = Some snapshot
    /\ forall fallback,
         loadFromStorage fallback (persistChatState snapshot (Some item)) = snapshot.
Proof.
  eexists. split; [apply makePersistedState_typed|]. split; [done|].
  pose proof (clean_snapshot ss ms) as Hclean.
  unfold readInitialChatState, persistChatState.
  split.
  - change (clone defaultState) with (Some defaultState). cbv beta iota.
    by rewrite load_after_save.
  - intros fallback. by apply load_after_save.
Qed.

(** C4, as stated, fails: a stored text that parses but has no [data]
    member, such as the empty object, makes load return [undefined], which
    is neither stored data nor the empty state. *)
Lemma load_not_always_data_or_empty :
  ~ (forall item, load_yields_data_or_empty item).
Proof.
  intros H. destruct (H (Some "{}")) as [Hempty | (raw & data & Hraw & Hdata & _)].
  - vm_compute in Hempty. discriminate Hempty.
  - injection Hraw as <-. vm_compute in Hdata. discriminate Hdata.
Qed.

Lemma truthy_false s : truthy s = false -> s = "".
Proof.
  unfold truthy. intros H. apply negb_false_iff in H. by apply String.eqb_eq.
Qed.

(** C4, amended.  Load returns the empty state when there is no window, no
    stored item, or a stored text that does not parse or parses to [null];
    it returns the [data] member when the text parses to an object that has
    one; for any other parsable text it returns [undefined]. *)
Theorem readInitialChatState_cases (window : Window) :
  readInitialChatState window
  = Some match window with
         | Some (Some raw) =>
             match JSON_parse raw with
             | None | Some JNull | Some JUndefined => defaultState
             | Some (JObj o) =>
                 match assoc "data" o with
                 | Some data => data
                 | None => JUndefined
                 end
             | Some _ => JUndefined
             end
         | _ => defaultState
         end.
Proof.
  unfold readInitialChatState.
  change (clone defaultState) with (Some defaultState). f_equal.
  destruct window as [[raw|]|]; simpl; try done.
  destruct (truthy raw) eqn:Hraw.
  - by destruct (JSON_parse raw) as [[| | | | | |o]|].
  - apply truthy_false in Hraw. subst raw. done.
Qed.

(** ** Message store: what each action does to the list of a session *)

Lemma messages_of_persist sid st : messages_of sid (persist st) = messages_of sid st.
Proof. unfold persist. by destruct (makePersistedState _ _). Qed.

Lemma registry_persist st : registry (persist st) = registry st.
Proof. unfold persist. by destruct (makePersistedState _ _). Qed.

Lemma controllers_persist st : controllers (persist st) = controllers st.
Proof. unfold persist. by destruct (makePersistedState _ _). Qed.

Lemma abortController_persist st : abortController (persist st) = abortController st.
Proof. unfold persist. by destruct (makePersistedState _ _). Qed.

Lemma messages_of_abort_current sid st :
  messages_of sid (abort_current st) = messages_of sid st.
Proof. unfold abort_current. by destruct (abortController st). Qed.

Lemma registry_abort_current st : registry (abort_current st) = registry st.
Proof. unfold abort_current. by destruct (abortController st). Qed.

Lemma getMessages_list sid st : (getMessages sid st).2 = messages_of sid st.
Proof. unfold getMessages, messages_of. by destruct (messagesBySession st !! sid). Qed.

Lemma messages_of_getMessages sid sid' st :
  messages_of sid (getMessages sid' st).1 = messages_of sid st.
Proof.
  unfold getMessages, messages_of.
  destruct (messagesBySession st !! sid') eqn:Hl; [done|]. simpl.
  destruct (decide (sid' = sid)) as [->|Hne].
  - by rewrite lookup_insert_eq, Hl.
  - by rewrite lookup_insert_ne.
Qed.

Lemma registry_getMessages sid st : registry (getMessages sid st).1 = registry st.
Proof. unfold getMessages. by destruct (messagesBySession st !! sid). Qed.

Lemma messages_of_appendMessage sid sid' m now st :
  messages_of sid (appendMessage sid' m now st)
  = if decide (sid' = sid) then messages_of sid st ++ [m] else messages_of sid st.
Proof.
  unfold appendMessage.
  pose proof (getMessages_list sid' st) as Hlist.
  pose proof (messages_of_getMessages sid sid' st) as Hother.
  destruct (getMessages sid' st) as [st1 list]. simpl in *. subst list.
  unfold messages_of at 1. simpl.
  destruct (decide (sid' = sid)) as [->|Hne].
  - by rewrite lookup_insert_eq.
  - by rewrite lookup_insert_ne.
Qed.

Lemma messages_of_updateMessage sid sid' mid f st :
  messages_of sid (updateMessage sid' mid f st)
  = if decide (sid' = sid)
    then find_update (message_has_id mid) f (messages_of sid st)
    else messages_of sid st.
Proof.
  unfold updateMessage.
  pose proof (getMessages_list sid' st) as Hlist.
  pose proof (messages_of_getMessages sid sid' st) as Hother.
  destruct (getMessages sid' st) as [st1 list]. simpl in *. subst list.
  unfold messages_of at 1. simpl.
  destruct (decide (sid' = sid)) as [->|Hne].
  - by rewrite lookup_insert_eq.
  - by rewrite lookup_insert_ne.
Qed.

Lemma registry_updateMessage sid mid f st :
  registry (updateMessage sid mid f st) = registry st.
Proof.
  unfold updateMessage. pose proof (registry_getMessages sid st).
  by destruct (getMessages sid st).
Qed.

Lemma controllers_updateMessage sid mid f st :
  controllers (updateMessage sid mid f st) = controllers st.
Proof.
  unfold updateMessage, getMessages. by destruct (messagesBySession st !! sid).
Qed.

Lemma abortController_updateMessage sid mid f st :
  abortController (updateMessage sid mid f st) = abortController st.
Proof.
  unfold updateMessage, getMessages. by destruct (messagesBySession st !! sid).
Qed.

Lemma activeSessionId_appendMessage sid m now st :
  activeSessionId (registry (appendMessage sid m now st)) = activeSessionId (registry st).
Proof.
  unfold appendMessage. pose proof (registry_getMessages sid st) as Hreg.
  destruct (getMessages sid st) as [st1 list]. simpl in *. by rewrite Hreg.
Qed.

Lemma messages_of_buildContextMessages sid sid' st :
  messages_of sid (buildContextMessages sid' st).1 = messages_of sid st.
Proof.
  unfold buildContextMessages.
  pose proof (messages_of_getMessages sid sid' (on_registry (setActiveSession sid') st)) as H.
  by destruct (getMessages sid' _).
Qed.

Lemma activeSessionId_buildContextMessages sid st :
  activeSessionId (registry (buildContextMessages sid st).1) = Some sid.
Proof.
  unfold buildContextMessages.
  pose proof (registry_getMessages sid (on_registry (setActiveSession sid) st)) as H.
  destruct (getMessages sid _). simpl in *. by rewrite H.
Qed.

Lemma messages_of_append_card sid sid' card cardId now st :
  messages_of sid (append_card sid' card cardId now st)
  = match card with
    | Some c => if decide (sid' = sid)
                then messages_of sid st ++ [card_message cardId sid' c now]
                else messages_of sid st
    | None => messages_of sid st
    end.
Proof. destruct card; simpl; [apply messages_of_appendMessage | done]. Qed.

Lemma messages_of_start_generation sid flow sid' pid extra now st :
  messages_of sid (start_generation flow sid' pid extra now st).1
  = if decide (sid' = sid)
    then messages_of sid st ++ [text_message pid sid' RoleAssistant "" now StatusStreaming]
    else messages_of sid st.
Proof.
  unfold start_generation.
  match goal with |- context [buildContextMessages sid' ?s] =>
    pose proof (messages_of_buildContextMessages sid sid' s) as Hb;
    destruct (buildContextMessages sid' s) as [st5 ctx] end.
  simpl in *. unfold new_controller. 
  change (messages_of sid (set_abortController ?a (set_controllers ?c ?s)))
    with (messages_of sid s).
  rewrite messages_of_abort_current, Hb, messages_of_persist.
  destruct flow;
    change (messages_of sid (set_isSending ?b ?s)) with (messages_of sid s);
    change (messages_of sid (set_streamingMessageId ?b ?s)) with (messages_of sid s);
    apply messages_of_appendMessage.
Qed.

Lemma activeSessionId_start_generation flow sid pid extra now st :
  activeSessionId (registry (start_generation flow sid pid extra now st).1) = Some sid.
Proof.
  unfold start_generation.
  match goal with |- context [buildContextMessages sid ?s] =>
    pose proof (activeSessionId_buildContextMessages sid s) as Hb;
    destruct (buildContextMessages sid s) as [st5 ctx] end.
  simpl in *. unfold new_controller. 
  change (registry (set_abortController ?a (set_controllers ?c ?s))) with (registry s).
  by rewrite registry_abort_current.
Qed.

(** ** Frame: a generation writes at its target and after it *)

Lemma take_find_update {A} (p : A -> bool) (f : A -> A) n l :
  (forall x, x ∈ take n l -> p x = false) ->
  take n (find_update p f l) = take n l.
Proof.
  revert n. induction l as [|x l IH]; intros [|n] Hp; simpl; try done.
  simpl in Hp. rewrite (Hp x) by apply list_elem_of_here. simpl. f_equal.
  apply IH. intros y Hy. apply Hp. by apply list_elem_of_further.
Qed.

Lemma findIndex_Some {A} (p : A -> bool) l i :
  findIndex p l = Some i ->
  (i < length l)%nat
  /\ (exists x, l !! i = Some x /\ p x = true)
  /\ forall x, x ∈ take i l -> p x = false.
Proof.
  revert i. induction l as [|a l IH]; intros i; simpl; [done|].
  destruct (p a) eqn:Ha.
  - intros [= <-]. split; [lia|]. split; [eauto|]. simpl. by intros x ?%elem_of_nil.
  - destruct (findIndex p l) as [j|]; simpl; [|done]. intros [= <-].
    destruct (IH j eq_refl) as (Hlt & Hx & Hbefore).
    split; [lia|]. split; [done|]. simpl. intros x [->|Hin]%elem_of_cons; auto.
Qed.

(** Writes to the other fields leave the lists of messages alone. *)
Ltac drop_setters :=
  repeat first
    [ progress change (prefix_kept ?P ?sid (set_abortController _ ?s)) with (prefix_kept P sid s)
    | progress change (prefix_kept ?P ?sid (set_isSending _ ?s)) with (prefix_kept P sid s)
    | progress change (prefix_kept ?P ?sid (set_streamingMessageId _ ?s)) with (prefix_kept P sid s)
    | progress change (prefix_kept ?P ?sid (set_controllers _ ?s)) with (prefix_kept P sid s)
    | progress change (prefix_kept ?P ?sid (set_window _ ?s)) with (prefix_kept P sid s)
    | progress change (prefix_kept ?P ?sid (on_registry _ ?s)) with (prefix_kept P sid s) ].

Section Frame.
Variables (P : list ChatMessage.t) (sid mid : string).
Hypothesis P_fresh : forall m, m ∈ P -> message_has_id mid m = false.

Lemma prefix_kept_length l : take (length P) l = P -> (length P <= length l)%nat.
Proof.
  intros H. apply (f_equal length) in H. rewrite length_take in H. lia.
Qed.

Lemma prefix_kept_same st st' :
  messages_of sid st' = messages_of sid st -> prefix_kept P sid st -> prefix_kept P sid st'.
Proof. unfold prefix_kept. by intros ->. Qed.

Lemma prefix_kept_updateMessage f st :
  prefix_kept P sid st -> prefix_kept P sid (updateMessage sid mid f st).
Proof.
  unfold prefix_kept. intros H. rewrite messages_of_updateMessage.
  rewrite decide_True by done. rewrite take_find_update; [done|].
  rewrite H. apply P_fresh.
Qed.

Lemma prefix_kept_appendMessage sid' m now st :
  prefix_kept P sid st -> prefix_kept P sid (appendMessage sid' m now st).
Proof.
  unfold prefix_kept. intros H. rewrite messages_of_appendMessage.
  destruct (decide (sid' = sid)); [|done].
  rewrite take_app_le; [done|]. by apply prefix_kept_length.
Qed.

Lemma prefix_kept_append_card sid' card cardId now st :
  prefix_kept P sid st -> prefix_kept P sid (append_card sid' card cardId now st).
Proof. destruct card; simpl; [apply prefix_kept_appendMessage | done]. Qed.

Lemma prefix_kept_persist st : prefix_kept P sid st -> prefix_kept P sid (persist st).
Proof. apply prefix_kept_same, messages_of_persist. Qed.

Lemma prefix_kept_finish flow card cardId now st :
  prefix_kept P sid st ->
  prefix_kept P sid (finish_generation flow sid mid card cardId now st).1.
Proof.
  intros H. unfold finish_generation, setMessageStatus.
  pose proof (prefix_kept_updateMessage (ChatMessage.with_status StatusSent) st H) as H1.
  destruct flow; simpl; drop_setters; apply prefix_kept_persist; drop_setters;
    apply prefix_kept_append_card; drop_setters; exact H1.
Qed.

Lemma prefix_kept_fail flow e now st :
  prefix_kept P sid st ->
  prefix_kept P sid (fail_generation flow sid mid e now st).1.
Proof.
  intros H. unfold fail_generation, setMessageStatus.
  pose proof (prefix_kept_updateMessage (ChatMessage.with_status StatusError) st H) as H1.
  destruct flow; simpl; drop_setters; apply prefix_kept_persist; drop_setters;
    try (apply prefix_kept_persist; drop_setters); exact H1.
Qed.

Lemma stream_continue_frame flow card g cardId now st :
  prefix_kept P sid st ->
  prefix_kept P sid (stream_continue flow sid mid card g cardId now st).1
  /\ generating sid mid (stream_continue flow sid mid card g cardId now st).2.
Proof.
  intros H. unfold stream_continue.
  destruct (stream_advance (controllers st) g); simpl.
  - split; [by apply prefix_kept_finish | by destruct flow].
  - split; [by apply prefix_kept_finish | by destruct flow].
  - done.
Qed.

Lemma resume_frame ev freshId now t st :
  generating sid mid t -> prefix_kept P sid st ->
  prefix_kept P sid (resume ev freshId now t st).1
  /\ generating sid mid (resume ev freshId now t st).2.
Proof.
  intros Ht H. destruct t as [| flow s m req | flow s m card chunk g | o]; simpl in Ht;
    [done| destruct Ht as [-> ->] | destruct Ht as [-> ->] |].
  - destruct ev as [choices card | e | fails | ok]; simpl; try done.
    + apply stream_continue_frame. by apply prefix_kept_updateMessage.
    + split; [by apply prefix_kept_fail | by destruct flow].
  - destruct ev as [choices card' | e | fails | ok]; simpl; try done.
    destruct fails.
    + split; [by apply prefix_kept_fail | by destruct flow].
    + apply stream_continue_frame. by apply prefix_kept_updateMessage.
  - by destruct ev.
Qed.

Lemma step_frame s r :
  generating sid mid r.2 -> prefix_kept P sid r.1 ->
  prefix_kept P sid (step s r).1 /\ generating sid mid (step s r).2.
Proof.
  intros Ht H. destruct s as [ev freshId now | | id]; simpl.
  - by apply resume_frame.
  - split; [|done]. unfold new_controller. drop_setters.
    revert H. apply prefix_kept_same, messages_of_abort_current.
  - done.
Qed.

Lemma run_task_frame steps r :
  generating sid mid r.2 -> prefix_kept P sid r.1 ->
  prefix_kept P sid (run_task steps r).1 /\ generating sid mid (run_task steps r).2.
Proof.
  revert r. induction steps as [|s steps IH]; intros r Ht H; [done|].
  simpl. destruct (step_frame s r Ht H). by apply IH.
Qed.
End Frame.

Lemma previousUser_located list index user :
  previousUser list index = Some user ->
  exists p, (p < index)%nat /\ list !! p = Some user
            /\ ChatMessage.role user = RoleUser.
Proof.
  unfold previousUser. intros Hfind.
  apply find_some in Hfind as [Hin Hrole].
  apply bool_decide_eq_true_1 in Hrole.
  apply in_rev, list_elem_of_In, list_elem_of_lookup in Hin as [p Hp].
  apply lookup_take_Some in Hp as [Hp Hlt]. eauto.
Qed.

Lemma regenerate_start_frame st messageId now sessionId list index :
  activeSessionId (registry st) = Some sessionId ->
  messagesBySession st !! sessionId = Some list ->
  findIndex (message_has_id messageId) list = Some index ->
  prefix_kept (take index list) sessionId (regenerateAssistantMessage messageId now st).1
  /\ generating sessionId messageId (regenerateAssistantMessage messageId now st).2.
Proof.
  intros Hactive Hlist Hindex.
  destruct (findIndex_Some _ _ _ Hindex) as (Hlt & _ & Hfresh).
  assert (Hlen : length (take index list) = index) by (rewrite length_take; lia).
  assert (H0 : prefix_kept (take index list) sessionId st).
  { unfold prefix_kept, messages_of. rewrite Hlist, Hlen. done. }
  unfold regenerateAssistantMessage. rewrite Hactive.
  destruct (truthy sessionId); [|done].
  unfold getMessages. rewrite Hlist, Hindex.
  destruct (previousUser list index) as [user|]; [|done].
  split; [|done]. cbv zeta. cbn [fst]. unfold new_controller. drop_setters.
  match goal with |- prefix_kept _ _ (abort_current ?s) =>
    apply (prefix_kept_same _ _ s); [apply messages_of_abort_current|] end.
  apply (prefix_kept_updateMessage _ _ _ Hfresh).
  apply (prefix_kept_updateMessage _ _ _ Hfresh).
  destruct (0 <? count_cards (drop (index + 1) list))%nat; [|done].
  apply prefix_kept_persist. unfold prefix_kept, messages_of. simpl.
  rewrite lookup_insert_eq. simpl. rewrite Hlen.
  rewrite take_app_le by (rewrite length_take; lia).
  rewrite take_take. f_equal. lia.
Qed.

(** C8. A regeneration, from its start through any sequence of wake-ups
    (completion resolved or rejected, chunks delivered or failing) and of
    cancellations by other generations, leaves every message before the
    target as it was; the located user message is one of them, so it and
    all the messages before it are unchanged in every field. *)
Theorem regenerate_preserves_history (st : Stores) (messageId : string) (now : Z)
    (sessionId : string) (msgs : list ChatMessage.t) (index : nat)
    (user : ChatMessage.t) (steps : list Step) :
  activeSessionId (registry st) = Some sessionId ->
  messagesBySession st !! sessionId = Some msgs ->
  findIndex (message_has_id messageId) msgs = Some index ->
  previousUser msgs index = Some user ->
  let st' := (run_task steps (regenerateAssistantMessage messageId now st)).1 in
  exists p,
    (p < index)%nat /\ msgs !! p = Some user
    /\ (forall j, (j <= p)%nat -> messages_of sessionId st' !! j = msgs !! j)
    /\ (ChatMessage.content <$> messages_of sessionId st' !! p)
       = Some (ChatMessage.content user)
    /\ take index (messages_of sessionId st') = take index msgs.
Proof.
  intros Hactive Hlist Hindex Huser st'.
  destruct (previousUser_located _ _ _ Huser) as (p & Hp & Hlookup & _).
  destruct (findIndex_Some _ _ _ Hindex) as (Hlt & _ & Hfresh).
  destruct (regenerate_start_frame st messageId now sessionId msgs index
              Hactive Hlist Hindex) as [Hkept Hgen].
  destruct (run_task_frame _ _ _ Hfresh steps _ Hgen Hkept) as [Hfinal _].
  fold st' in Hfinal. unfold prefix_kept in Hfinal.
  rewrite length_take, Nat.min_l in Hfinal by lia.
  assert (Hsame : forall j, (j < index)%nat -> messages_of sessionId st' !! j = msgs !! j).
  { intros j Hj.
    rewrite <- (lookup_take_lt _ index j) by lia. rewrite Hfinal.
    apply lookup_take_lt. lia. }
  exists p. repeat split; try done.
  - intros j Hj. apply Hsame. lia.
  - rewrite Hsame by lia. by rewrite Hlookup.
Qed.

(** ** Delivery: the chunks put the content back together *)

Lemma string_of_list_ascii_app l1 l2 :
  string_of_list_ascii (l1 ++ l2) = string_of_list_ascii l1 +:+ string_of_list_ascii l2.
Proof. induction l1 as [|a l1 IH]; simpl; [done|]. by rewrite IH. Qed.

Lemma string_length_chars s : String.length s = length (chars s).
Proof. induction s as [|a s IH]; simpl; [done|]. by rewrite IH. Qed.

Lemma string_of_chars s : string_of_list_ascii (chars s) = s.
Proof. apply string_of_list_ascii_of_string. Qed.

Lemma append_slice k k' c :
  (k <= k')%nat ->
  string_of_list_ascii (take k (chars c)) +:+ slice k k' c
  = string_of_list_ascii (take k' (chars c)).
Proof.
  intros Hle. unfold slice. rewrite <- string_of_list_ascii_app, take_take_drop.
  f_equal. f_equal. lia.
Qed.

Lemma find_update_target (before : list ChatMessage.t) user target f pid tail :
  (forall m, m ∈ before -> ChatMessage.id m <> pid) ->
  ChatMessage.id user <> pid ->
  ChatMessage.id target = pid ->
  find_update (message_has_id pid) f (before ++ user :: target :: tail)
  = before ++ user :: f target :: tail.
Proof.
  intros Hbefore Huser Htarget.
  induction before as [|m before IH]; simpl.
  - unfold message_has_id.
    destruct (String.eqb_spec (ChatMessage.id user) pid); [done|].
    destruct (String.eqb_spec (ChatMessage.id target) pid); done.
  - unfold message_has_id at 1.
    destruct (String.eqb_spec (ChatMessage.id m) pid) as [Heq|_].
    + exfalso. apply (Hbefore m); [apply list_elem_of_here | done].
    + rewrite IH; [done|]. intros x Hx. apply Hbefore. by apply list_elem_of_further.
Qed.

Lemma run_task_finished steps st o :
  Forall (fun s => is_delivery s = true) steps ->
  run_task steps (st, Finished o) = (st, Finished o).
Proof.
  induction 1 as [|s steps Hs _ IH]; [done|].
  simpl. destruct s as [[| |[]|] ? ?| |]; try done.
Qed.

Section Delivery.
Variables (sid pid : string) (before : list ChatMessage.t) (user : ChatMessage.t).
Variables (c : string) (created : Z) (card : option AssistantCard).
Hypothesis before_fresh : forall m, m ∈ before -> ChatMessage.id m <> pid.
Hypothesis user_fresh : ChatMessage.id user <> pid.

Lemma finish_send_messages content cardId now st :
  messages_of sid st
  = before ++ [user; text_message pid sid RoleAssistant content created StatusStreaming] ->
  (finish_generation FlowSend sid pid card cardId now st).2 = Finished Returned
  /\ exists cards,
       messages_of sid (finish_generation FlowSend sid pid card cardId now st).1
       = before ++ [user; text_message pid sid RoleAssistant content created StatusSent] ++ cards.
Proof.
  intros Hmsgs. split; [done|].
  unfold finish_generation. cbn [fst].
  change (messages_of sid (set_abortController ?a (set_isSending ?b ?s)))
    with (messages_of sid s).
  rewrite messages_of_persist.
  change (messages_of sid (on_registry ?f ?s)) with (messages_of sid s).
  rewrite messages_of_append_card.
  change (messages_of sid (set_streamingMessageId ?a ?s)) with (messages_of sid s).
  unfold setMessageStatus. rewrite messages_of_updateMessage, decide_True by done.
  rewrite Hmsgs, find_update_target by done.
  destruct card as [cd|].
  - rewrite decide_True by done. eexists. by rewrite <- app_assoc.
  - exists []. done.
Qed.

Lemma stream_continue_delivers steps : forall g cardId now st,
  messages_of sid st
  = before ++ [user; text_message pid sid RoleAssistant
                       (string_of_list_ascii (take (cursor g) (chars c))) created
                       StatusStreaming] ->
  stream_content g = c ->
  chunkSize g = 4%nat ->
  signal_aborted (controllers st) (signal g) = false ->
  Forall (fun s => is_delivery s = true) steps ->
  (String.length c <= cursor g + 4 * length steps)%nat ->
  let final := run_task steps (stream_continue FlowSend sid pid card g cardId now st) in
  final.2 = Finished Returned
  /\ exists cards,
       messages_of sid final.1
       = before ++ [user; text_message pid sid RoleAssistant c created StatusSent] ++ cards.
Proof.
  induction steps as [|s steps IH]; intros g cardId now st Hmsgs Hc Hsize Hsig Hdel Hlen.
  - (* no step left: the cursor is at the end *)
    simpl in Hlen. unfold stream_continue, stream_advance.
    rewrite Hc. destruct (Nat.ltb_spec (cursor g) (String.length c)) as [Hlt|Hge]; [lia|].
    simpl run_task.
    rewrite take_ge in Hmsgs by (rewrite <- string_length_chars; lia).
    rewrite string_of_chars in Hmsgs.
    by apply finish_send_messages.
  - apply Forall_cons in Hdel as [Hs Hdel'].
    unfold stream_continue, stream_advance. rewrite Hc, Hsig, Hsize.
    destruct (Nat.ltb_spec (cursor g) (String.length c)) as [Hlt|Hge].
    + destruct s as [[| |[]|] freshId now'| |]; try done.
      simpl run_task. cbn [step resume fst snd].
      apply IH; try done.
      * cbn [cursor]. rewrite messages_of_updateMessage, decide_True by done.
        rewrite Hmsgs, find_update_target by done.
        unfold text_message, ChatMessage.with_content. simpl.
        rewrite append_slice by lia. done.
      * by rewrite controllers_updateMessage.
      * cbn [cursor]. simpl in Hlen. lia.
    + rewrite take_ge in Hmsgs by (rewrite <- string_length_chars; lia).
      rewrite string_of_chars in Hmsgs.
      destruct (finish_send_messages c cardId now st Hmsgs) as [Htask Hfinal].
      destruct (finish_generation FlowSend sid pid card cardId now st) as [st' t'].
      simpl in Htask. subst t'.
      rewrite run_task_finished by (by apply Forall_cons). done.
Qed.
End Delivery.

Lemma start_generation_task flow sid pid extra now st :
  exists request,
    (start_generation flow sid pid extra now st).2 = AwaitCompletion flow sid pid request.
Proof.
  unfold start_generation.
  destruct (buildContextMessages sid _) as [st5 ctx]. simpl. eauto.
Qed.

Lemma new_controller_not_aborted st :
  signal_aborted (controllers (new_controller st)) (abortController (new_controller st))
  = false.
Proof.
  unfold new_controller, signal_aborted. simpl.
  by rewrite lookup_app_r, Nat.sub_diag by lia.
Qed.

Lemma start_generation_not_aborted flow sid pid extra now st :
  signal_aborted (controllers (start_generation flow sid pid extra now st).1)
    (abortController (start_generation flow sid pid extra now st).1) = false.
Proof.
  unfold start_generation.
  destruct (buildContextMessages sid _) as [st5 ctx]. simpl.
  apply new_controller_not_aborted.
Qed.

(** C9. Sending a text that is not blank appends a sent user message and a
    streaming placeholder.  When the completion then resolves with content
    [c] and the chunks are delivered without failure or cancellation, the
    send returns and the placeholder has status sent and content exactly
    [c]; a card, if any, follows it. *)
Theorem sendMessage_delivers (st : Stores)
    (content newSessionId userMessageId placeholderId : string) (now : Z) :
  let sessionId := (ensureSession newSessionId now st).2 in
  let before := messages_of sessionId (ensureSession newSessionId now st).1 in
  let user := text_message userMessageId sessionId RoleUser (trim content) now StatusSent in
  let started := sendMessage content newSessionId userMessageId placeholderId now st in
  truthy (trim content) = true ->
  userMessageId <> placeholderId ->
  (forall m, m ∈ before -> ChatMessage.id m <> placeholderId) ->
  messages_of sessionId started.1
  = before ++ [user; text_message placeholderId sessionId RoleAssistant "" now StatusStreaming]
  /\ forall (c : string) (more : list string) (card : option AssistantCard)
       (freshId : string) (wokenAt : Z) (deliveries : list Step),
       Forall (fun s => is_delivery s = true) deliveries ->
       (chunk_count c <= length deliveries)%nat ->
       let final :=
         run_task (Wake (CompletionResolved (c :: more) card) freshId wokenAt :: deliveries)
           started in
       final.2 = Finished Returned
       /\ exists cards,
            messages_of sessionId final.1
            = before ++ [user; text_message placeholderId sessionId RoleAssistant c now
                                 StatusSent] ++ cards.
Proof.
  intros sessionId before user started Htrim Hids Hfresh.
  assert (Hstart : messages_of sessionId started.1
            = before ++ [user; text_message placeholderId sessionId RoleAssistant ""
                                 now StatusStreaming]).
  { subst started. unfold sendMessage. rewrite Htrim.
    subst sessionId before user.
    destruct (ensureSession newSessionId now st) as [st1 sid]. cbn [fst snd].
    rewrite messages_of_start_generation, decide_True by done.
    rewrite messages_of_appendMessage, decide_True by done.
    by rewrite <- app_assoc. }
  split; [exact Hstart|].
  intros c more card freshId wokenAt deliveries Hdel Hcount final.
  assert (Htask : exists request,
            started.2 = AwaitCompletion FlowSend sessionId placeholderId request).
  { subst started. unfold sendMessage. rewrite Htrim.
    subst sessionId. destruct (ensureSession newSessionId now st) as [st1 sid].
    apply start_generation_task. }
  assert (Hsig : signal_aborted (controllers started.1) (abortController started.1) = false).
  { subst started. unfold sendMessage. rewrite Htrim.
    destruct (ensureSession newSessionId now st) as [st1 sid].
    apply start_generation_not_aborted. }
  destruct Htask as [request Htask].
  subst final. destruct started as [st0 t0]. simpl in Htask, Hstart, Hsig. subst t0.
  simpl run_task. cbn [step resume fst snd]. unfold streamIntoMessage.
  apply (stream_continue_delivers sessionId placeholderId before user c now card).
  - intros m Hm. by apply Hfresh.
  - done.
  - rewrite messages_of_updateMessage, decide_True by done.
    rewrite Hstart, find_update_target; [done| |done..].
    intros m Hm. by apply Hfresh.
  - done.
  - done.
  - by rewrite controllers_updateMessage, abortController_updateMessage.
  - done.
  - unfold chunk_count in Hcount. simpl cursor.
    pose proof (Nat.div_mod_eq (String.length c + 3) 4).
    pose proof (Nat.mod_upper_bound (String.length c + 3) 4). lia.
Qed.

(** ** The active session after a send *)

Lemma sendFiles_reaches_generation steps :
  forall sid files file msgId remaining ok freshId now st,
    Forall (fun s => is_save_or_select s = true) steps ->
    length (List.filter is_save steps) = length remaining ->
    let final :=
      run_task (steps ++ [Wake (FileSaved ok) freshId now])
        (st, SavingFile sid files file msgId remaining) in
    activeSessionId (registry final.1) = Some sid
    /\ (exists request, final.2 = AwaitCompletion FlowFiles sid freshId request)
    /\ last (messages_of sid final.1)
       = Some (text_message freshId sid RoleAssistant "" now StatusStreaming).
Proof.
  induction steps as [|s steps IH];
    intros sid files file msgId remaining ok freshId now st Hsteps Hcount.
  - destruct remaining; [|done]. simpl run_task. cbn [step resume fst snd].
    split; [apply activeSessionId_start_generation|].
    split; [apply start_generation_task|].
    rewrite messages_of_start_generation, decide_True by done.
    apply last_snoc.
  - apply Forall_cons in Hsteps as [Hs Hsteps].
    destruct s as [[| | |ok'] freshId' now'| |id]; try done.
    + simpl in Hcount. destruct remaining as [|next remaining]; [done|].
      simpl in Hcount. change ((?s :: steps) ++ ?l) with (s :: (steps ++ l)).
      simpl run_task. cbn [step resume fst snd].
      apply IH; [done | lia].
    + simpl in Hcount. change ((?s :: steps) ++ ?l) with (s :: (steps ++ l)).
      simpl run_task. cbn [step fst snd].
      by apply IH.
Qed.

(** C10. After the synchronous part of [sendMessage] on a text that is not
    blank, and after [sendFiles] on a batch that is not empty has saved its
    files, the active session is the session that the messages were
    appended to, whatever session was selected while the files were saved.
    The pointer is written by [buildContextMessages], which therefore is
    not a pure read: it can change the registry. *)
Theorem send_sets_active_session (st : Stores)
    (content newSessionId userMessageId placeholderId : string) (now : Z) :
  truthy (trim content) = true ->
  let sessionId := (ensureSession newSessionId now st).2 in
  let started := sendMessage content newSessionId userMessageId placeholderId now st in
  (activeSessionId (registry started.1) = Some sessionId
   /\ last (messages_of sessionId started.1)
      = Some (text_message placeholderId sessionId RoleAssistant "" now StatusStreaming))
  /\ (forall (file : File) (remaining : list File) (firstId : string)
        (steps : list Step) (ok : bool) (freshId : string) (wokenAt : Z),
        Forall (fun s => is_save_or_select s = true) steps ->
        length (List.filter is_save steps) = length remaining ->
        let final :=
          run_task (steps ++ [Wake (FileSaved ok) freshId wokenAt])
            (sendFiles (file :: remaining) newSessionId firstId now st) in
        activeSessionId (registry final.1) = Some sessionId
        /\ last (messages_of sessionId final.1)
           = Some (text_message freshId sessionId RoleAssistant "" wokenAt StatusStreaming))
  /\ (forall sid st0, activeSessionId (registry (buildContextMessages sid st0).1) = Some sid)
  /\ (buildContextMessages "s" select_then_build).1 <> select_then_build.
Proof.
  intros Htrim sessionId started. repeat split.
  - subst started sessionId. unfold sendMessage. rewrite Htrim.
    destruct (ensureSession newSessionId now st) as [st1 sid].
    apply activeSessionId_start_generation.
  - subst started sessionId. unfold sendMessage. rewrite Htrim.
    destruct (ensureSession newSessionId now st) as [st1 sid]. cbn [fst snd].
    rewrite messages_of_start_generation, decide_True by done. apply last_snoc.
  - subst sessionId. unfold sendFiles.
    destruct (ensureSession newSessionId now st) as [st1 sid]. cbn [fst snd].
    by apply sendFiles_reaches_generation.
  - subst sessionId. unfold sendFiles.
    destruct (ensureSession newSessionId now st) as [st1 sid]. cbn [fst snd].
    by apply sendFiles_reaches_generation.
  - apply activeSessionId_buildContextMessages.
  - intros Heq. apply (f_equal (fun s => activeSessionId (registry s))) in Heq.
    vm_compute in Heq. discriminate Heq.
Qed.

(** ** Overlapping generations *)

(** A generator that finds its signal aborted throws [AbortError], which
    [streamIntoMessage] catches: the flow goes on as after a complete
    delivery. *)
Lemma observed_cancellation_finishes flow sid mid card g cardId now st :
  (cursor g < String.length (stream_content g))%nat ->
  signal_aborted (controllers st) (signal g) = true ->
  stream_continue flow sid mid card g cardId now st
  = finish_generation flow sid mid card cardId now st.
Proof.
  intros Hcursor Haborted. unfold stream_continue, stream_advance.
  apply Nat.ltb_lt in Hcursor. by rewrite Hcursor, Haborted.
Qed.

(** C1 (the code departs from the claim).  When a second send starts while
    the first is in flight, the first send returns normally and its
    placeholder ends with status sent, not error: with the full content when
    the second send started before the first completion resolved, with the
    chunks written so far when it started during the streaming.  The second
    send returns normally in both cases. *)
Theorem second_send_leaves_first_placeholder_sent :
  let early := run second_send_before_completion initial in
  let late := run second_send_while_streaming initial in
  (status_of "s1" "p1" (stores early) = Some StatusSent
   /\ content_of "s1" "p1" (stores early) = Some "Hi there"
   /\ tasks early = [Finished Returned; Finished Returned])
  /\ (status_of "s1" "p1" (stores late) = Some StatusSent
      /\ content_of "s1" "p1" (stores late) = Some "Hi t"
      /\ tasks late = [Finished Returned; Finished Returned]).
Proof. vm_compute. repeat split. Qed.

(** C2 (the code departs from the claim).  After two sends of which the
    first has not settled, both placeholders have status streaming; and when
    the user sends a text while an answer is being regenerated, the
    regenerated answer and the new placeholder both have status streaming. *)
Theorem two_messages_streaming :
  (streaming_count (stores (run two_sends initial)) = 2%nat
   /\ status_of "s1" "p1" (stores (run two_sends initial)) = Some StatusStreaming
   /\ status_of "s1" "p2" (stores (run two_sends initial)) = Some StatusStreaming)
  /\ (streaming_count (stores (run send_during_regeneration initial)) = 2%nat
      /\ status_of "s1" "a1" (stores (run send_during_regeneration initial))
         = Some StatusStreaming
      /\ status_of "s1" "a2" (stores (run send_during_regeneration initial))
         = Some StatusStreaming).
Proof. vm_compute. repeat split. Qed.

(** C3 (the code departs from the claim).  Regenerating the first answer of
    a session with two turns, with a completion that carries a card, puts
    the card at the end of the list and of [messageIds]: the message right
    after the regenerated one is still the second user message.  The same
    list results when the latest answer is regenerated and the user sends
    the next text before the regeneration has settled. *)
Theorem regenerated_card_goes_last :
  let direct := stores (run regenerate_first_with_card initial) in
  let overlapped := stores (run card_after_send_during_regeneration initial) in
  (map ChatMessage.id (messages_of "s1" direct) = ["u1"; "a1"; "u2"; "a2"; "c1"]
   /\ session_messageIds "s1" (registry direct) = Some ["u1"; "a1"; "u2"; "a2"; "c1"]
   /\ (ChatMessage.type <$> messages_of "s1" direct !! 4%nat) = Some TypeCard
   /\ (ChatMessage.role <$> messages_of "s1" direct !! 2%nat) = Some RoleUser
   /\ status_of "s1" "a1" direct = Some StatusSent)
  /\ (map ChatMessage.id (messages_of "s1" overlapped) = ["u1"; "a1"; "u2"; "a2"; "c1"]
      /\ session_messageIds "s1" (registry overlapped)
         = Some ["u1"; "a1"; "u2"; "a2"; "c1"]
      /\ (ChatMessage.type <$> messages_of "s1" overlapped !! 4%nat) = Some TypeCard
      /\ content_of "s1" "a1" overlapped = Some "B1"
      /\ status_of "s1" "a1" overlapped = Some StatusSent).
Proof. vm_compute. repeat split. Qed.

(** ** Instances *)

(** The second answer of a session with two turns is regenerated, with a
    cancellation between the completion and the first chunk. *)
Lemma regenerate_preserves_history_witness :
  let st := stores (run two_turns initial) in
  let steps := [Wake (CompletionResolved ["B2"] (Some demo_card)) "c1" 8; Cancel;
                Wake (DelayElapsed false) "c1" 9] in
  let st' := (run_task steps (regenerateAssistantMessage "a2" 7 st)).1 in
  activeSessionId (registry st) = Some "s1"
  /\ findIndex (message_has_id "a2") (messages_of "s1" st) = Some 3%nat
  /\ take 3 (messages_of "s1" st') = take 3 (messages_of "s1" st).
Proof.
  intros st steps st'.
  split; [reflexivity|]. split; [reflexivity|].
  assert (Hactive : activeSessionId (registry st) = Some "s1") by reflexivity.
  assert (Hmsgs : messagesBySession st !! "s1" = Some (messages_of "s1" st))
    by (vm_compute; reflexivity).
  assert (Hindex : findIndex (message_has_id "a2") (messages_of "s1" st) = Some 3%nat)
    by (vm_compute; reflexivity).
  assert (Huser : previousUser (messages_of "s1" st) 3
                  = Some (text_message "u2" "s1" RoleUser "Q2" 4 StatusSent))
    by (vm_compute; reflexivity).
  destruct (regenerate_preserves_history st "a2" 7 "s1" (messages_of "s1" st) 3
              (text_message "u2" "s1" RoleUser "Q2" 4 StatusSent) steps
              Hactive Hmsgs Hindex Huser)
    as (p & _ & _ & _ & _ & Hsame).
  exact Hsame.
Defined.

(** The first send of a fresh engine, answered with two chunks. *)
Lemma sendMessage_delivers_witness :
  let final :=
    run_task [Wake (CompletionResolved ["Hi there"] None) "c1" 2;
              Wake (DelayElapsed false) "c1" 3; Wake (DelayElapsed false) "c1" 4]
      (sendMessage "Hello" "s1" "u1" "p1" 1 (stores initial)) in
  truthy (trim "Hello") = true
  /\ final.2 = Finished Returned
  /\ exists cards,
       messages_of "s1" final.1
       = [] ++ [text_message "u1" "s1" RoleUser "Hello" 1 StatusSent;
                text_message "p1" "s1" RoleAssistant "Hi there" 1 StatusSent] ++ cards.
Proof.
  intros final. split; [reflexivity|].
  destruct (sendMessage_delivers (stores initial) "Hello" "s1" "u1" "p1" 1) as [_ H].
  - reflexivity.
  - discriminate.
  - intros m Hm. vm_compute in Hm. by apply elem_of_nil in Hm.
  - apply (H "Hi there" [] None "c1" 2
             [Wake (DelayElapsed false) "c1" 3; Wake (DelayElapsed false) "c1" 4]).
    + repeat constructor.
    + vm_compute. lia.
Defined.

(** The first send of a fresh engine creates the session and selects it. *)
Lemma send_sets_active_session_witness :
  truthy (trim "Hello") = true
  /\ activeSessionId (registry (sendMessage "Hello" "s1" "u1" "p1" 1 (stores initial)).1)
     = Some "s1".
Proof.
  split; [reflexivity|].
  destruct (send_sets_active_session (stores initial) "Hello" "s1" "u1" "p1" 1 eq_refl)
    as [[Hactive _] _].
  exact Hactive.
Defined.

(** * More properties *)

(** ** The session registry *)

Section FindUpdateFacts.
Context {A : Type} (p : A -> bool) (f : A -> A).

Lemma find_update_absent l :
  (forall x, x ∈ l -> p x = false) -> find_update p f l = l.
Proof.
  induction l as [|x l IH]; intros Hp; simpl; [done|].
  rewrite (Hp x) by apply list_elem_of_here. f_equal.
  apply IH. intros y Hy. apply Hp. by apply list_elem_of_further.
Qed.

Lemma find_update_map {B} (g : A -> B) l :
  (forall x, g (f x) = g x) -> map g (find_update p f l) = map g l.
Proof.
  intros Hg. induction l as [|x l IH]; simpl; [done|].
  destruct (p x); simpl; [by rewrite Hg | by rewrite IH].
Qed.

Lemma find_update_Forall (Q : A -> Prop) l :
  (forall x, Q x -> Q (f x)) -> Forall Q l -> Forall Q (find_update p f l).
Proof.
  intros HQ. induction 1 as [|x l Hx Hl IH]; simpl; [constructor|].
  destruct (p x); constructor; auto.
Qed.

Lemma find_update_Forall2 (R : A -> A -> Prop) l :
  (forall x, R x x) -> (forall x, R x (f x)) -> Forall2 R l (find_update p f l).
Proof.
  intros Hrefl Hf. induction l as [|x l IH]; simpl; [constructor|].
  destruct (p x); constructor; auto. clear IH. induction l; constructor; auto.
Qed.

Lemma find_find_update l :
  (forall x, p (f x) = p x) ->
  List.find p (find_update p f l) = f <$> List.find p l.
Proof.
  intros Hp. induction l as [|x l IH]; simpl; [done|].
  destruct (p x) eqn:Hx; simpl.
  - by rewrite Hp, Hx.
  - by rewrite Hx.
Qed.
End FindUpdateFacts.

Lemma has_id_absent id l :
  id ∉ map ChatSession.id l -> forall s, s ∈ l -> has_id id s = false.
Proof.
  intros Hnotin s Hs. unfold has_id.
  destruct (String.eqb_spec (ChatSession.id s) id) as [Heq|]; [|done].
  exfalso. apply Hnotin. subst id. apply list_elem_of_In, in_map. by apply list_elem_of_In.
Qed.

Lemma registry_eta st :
  {| sessions := sessions st; activeSessionId := activeSessionId st |} = st.
Proof. by destruct st. Qed.

(** X1. The actions that look a session up by id do nothing when no session
    has that id: [renameSession], [touchSession], [appendMessageId] and
    [replaceMessageIds] leave the registry as it is, and
    [deleteSession] keeps the list. *)
Theorem registry_unknown_id (st : ChatSessionsState) (id title messageId : string)
    (ids : list string) (now : Z) :
  id ∉ map ChatSession.id (sessions st) ->
  renameSession id title now st = st
  /\ touchSession id now st = st
  /\ appendMessageId id messageId now st = st
  /\ replaceMessageIds id ids now st = st
  /\ sessions (deleteSession_registry id st) = sessions st.
Proof.
  intros Hid. pose proof (has_id_absent id _ Hid) as Habsent.
  unfold renameSession, touchSession, appendMessageId, replaceMessageIds.
  rewrite !find_update_absent by done. rewrite registry_eta.
  repeat split; try done.
  simpl. induction (sessions st) as [|s l IH]; simpl; [done|].
  rewrite (Habsent s) by apply list_elem_of_here. simpl. f_equal.
  apply IH.
  - intros Hin. apply Hid. simpl. by apply list_elem_of_further.
  - intros x Hx. apply Habsent. by apply list_elem_of_further.
Qed.

Lemma registry_unknown_id_witness :
  ("zz" ∉ map ChatSession.id (sessions sample_registry))
  /\ renameSession "zz" "t" 5 sample_registry = sample_registry.
Proof.
  assert (H : "zz" ∉ map ChatSession.id (sessions sample_registry)).
  { apply (bool_decide_unpack _). vm_compute. exact I. }
  split; [exact H|].
  exact (proj1 (registry_unknown_id sample_registry "zz" "t" "m" [] 5 H)).
Defined.

(** X2. The actions that update a session in place never add, remove or
    reorder sessions and never move the active pointer; renaming and
    touching keep every list of message ids, and the two actions on message
    ids keep every title. *)
Theorem registry_updates_in_place (st : ChatSessionsState) (id title messageId : string)
    (ids : list string) (now : Z) :
  let renamed := renameSession id title now st in
  let touched := touchSession id now st in
  let appended := appendMessageId id messageId now st in
  let replaced := replaceMessageIds id ids now st in
  (map ChatSession.id (sessions renamed) = map ChatSession.id (sessions st)
   /\ map ChatSession.messageIds (sessions renamed)
      = map ChatSession.messageIds (sessions st)
   /\ activeSessionId renamed = activeSessionId st)
  /\ (map ChatSession.id (sessions touched) = map ChatSession.id (sessions st)
      /\ map ChatSession.messageIds (sessions touched)
         = map ChatSession.messageIds (sessions st)
      /\ map ChatSession.title (sessions touched) = map ChatSession.title (sessions st)
      /\ activeSessionId touched = activeSessionId st)
  /\ (map ChatSession.id (sessions appended) = map ChatSession.id (sessions st)
      /\ map ChatSession.title (sessions appended) = map ChatSession.title (sessions st)
      /\ activeSessionId appended = activeSessionId st)
  /\ (map ChatSession.id (sessions replaced) = map ChatSession.id (sessions st)
      /\ map ChatSession.title (sessions replaced) = map ChatSession.title (sessions st)
      /\ activeSessionId replaced = activeSessionId st).
Proof.
  simpl. repeat split; try (apply find_update_map; intros s; simpl; try done).
  - by destruct (includes _ _).
  - by destruct (includes _ _).
Qed.

Lemma elem_of_filter_sessions id (l : list ChatSession.t) s :
  s ∈ List.filter (fun s => negb (has_id id s)) l <-> s ∈ l /\ ChatSession.id s <> id.
Proof.
  rewrite !list_elem_of_In, filter_In, negb_true_iff. unfold has_id.
  destruct (String.eqb_spec (ChatSession.id s) id) as [Heq|Hne].
  - split; [by intros [_ ?] | by intros [_ ?]].
  - split; by intros [? _].
Qed.

(** X3. After [deleteSession] of the registry no session has the id, every
    session with another id is kept, the active pointer is never the id
    deleted, and it is moved only when it was that id: then it names the
    first session left, or nothing when none is left. *)
Theorem deleteSession_registry_spec (id : string) (st : ChatSessionsState) :
  let st' := deleteSession_registry id st in
  (forall s, s ∈ sessions st' <-> s ∈ sessions st /\ ChatSession.id s <> id)
  /\ (id ∉ map ChatSession.id (sessions st'))
  /\ activeSessionId st' <> Some id
  /\ (activeSessionId st <> Some id -> activeSessionId st' = activeSessionId st)
  /\ (activeSessionId st = Some id ->
      activeSessionId st' = ChatSession.id <$> head (sessions st')).
Proof.
  intros st'. subst st'. unfold deleteSession_registry. simpl.
  assert (Hnotin : id ∉ map ChatSession.id
                          (List.filter (fun s => negb (has_id id s)) (sessions st))).
  { intros Hin. apply list_elem_of_In, in_map_iff in Hin as (s & Hs & Hin).
    apply list_elem_of_In, elem_of_filter_sessions in Hin as [_ Hne]. done. }
  split; [intros s; apply elem_of_filter_sessions|].
  split; [exact Hnotin|].
  destruct (decide (activeSessionId st = Some id)) as [Heq|Hne].
  - repeat split; try done.
    destruct (List.filter _ (sessions st)) as [|s l] eqn:Hl; simpl; [done|].
    intros [= Hs]. apply Hnotin. simpl. rewrite <- Hs. apply list_elem_of_here.
  - repeat split; done.
Qed.

Lemma deleteSession_registry_spec_witness :
  activeSessionId sample_registry = Some "s2"
  /\ activeSessionId (deleteSession_registry "s2" sample_registry) = Some "s1".
Proof.
  assert (H : activeSessionId sample_registry = Some "s2") by reflexivity.
  split; [exact H|].
  exact (proj2 (proj2 (proj2 (proj2 (deleteSession_registry_spec "s2" sample_registry)))) H).
Defined.

(** X4. The pointer of the registry keeps naming a session of the list
    through every action except [setActiveSession], which stores whatever id
    it is given. *)
Theorem active_pointer_stays_valid (st : ChatSessionsState)
    (title : option string) (newId id newTitle messageId : string)
    (ids : list string) (now : Z) :
  active_valid st ->
  active_valid (createSession title newId now st).1
  /\ active_valid (renameSession id newTitle now st)
  /\ active_valid (touchSession id now st)
  /\ active_valid (appendMessageId id messageId now st)
  /\ active_valid (replaceMessageIds id ids now st)
  /\ active_valid (deleteSession_registry id st)
  /\ (id ∉ map ChatSession.id (sessions st) -> ~ active_valid (setActiveSession id st)).
Proof.
  intros Hvalid.
  assert (Hupd : forall f, (forall s, ChatSession.id (f s) = ChatSession.id s) ->
            active_valid {| sessions := find_update (has_id id) f (sessions st);
                            activeSessionId := activeSessionId st |}).
  { intros f Hf a Ha. simpl in *. rewrite find_update_map by done. by apply Hvalid. }
  split; [|split; [|split; [|split; [|split; [|split]]]]].
  - intros a [= <-]. simpl. apply list_elem_of_here.
  - by apply Hupd.
  - by apply Hupd.
  - apply Hupd. intros s. by destruct (includes _ _).
  - by apply Hupd.
  - intros a. unfold deleteSession_registry. simpl.
    destruct (decide (activeSessionId st = Some id)) as [Heq|Hne].
    + destruct (List.filter _ (sessions st)) as [|s l]; simpl; [done|].
      intros [= <-]. apply list_elem_of_here.
    + intros Ha. assert (a <> id) by congruence.
      apply Hvalid, list_elem_of_In, in_map_iff in Ha as (s & <- & Hin).
      apply list_elem_of_In, in_map, list_elem_of_In, elem_of_filter_sessions.
      split; [by apply list_elem_of_In | done].
  - intros Hid Hbad. apply Hid. by apply (Hbad id).
Qed.

Lemma active_pointer_stays_valid_witness :
  active_valid sample_registry
  /\ active_valid (deleteSession_registry "s1" sample_registry).
Proof.
  assert (H : active_valid sample_registry).
  { intros a [= <-]. simpl. apply list_elem_of_here. }
  split; [exact H|].
  exact (proj1 (proj2 (proj2 (proj2 (proj2 (proj2
           (active_pointer_stays_valid sample_registry None "n" "s1" "t" "m" [] 5 H))))))).
Defined.

(** X5. [appendMessageId] keeps the message ids of every session free of
    duplicates, and so do creating, renaming, touching and deleting a
    session. *)
Theorem messageIds_stay_unique (st : ChatSessionsState)
    (title : option string) (newId id newTitle messageId : string) (now : Z) :
  Forall (fun s => NoDup (ChatSession.messageIds s)) (sessions st) ->
  Forall (fun s => NoDup (ChatSession.messageIds s))
    (sessions (appendMessageId id messageId now st))
  /\ Forall (fun s => NoDup (ChatSession.messageIds s))
       (sessions (createSession title newId now st).1)
  /\ Forall (fun s => NoDup (ChatSession.messageIds s))
       (sessions (renameSession id newTitle now st))
  /\ Forall (fun s => NoDup (ChatSession.messageIds s)) (sessions (touchSession id now st))
  /\ Forall (fun s => NoDup (ChatSession.messageIds s))
       (sessions (deleteSession_registry id st)).
Proof.
  intros Hunique. repeat split; simpl.
  - apply find_update_Forall; [|done]. intros s Hs.
    destruct (includes messageId (ChatSession.messageIds s)) eqn:Hin; [done|]. simpl.
    apply NoDup_app. split; [done|]. split; [|apply NoDup_singleton].
    intros x Hx ->%list_elem_of_singleton.
    apply includes_true in Hx. congruence.
  - constructor; [apply NoDup_nil_2 | done].
  - by apply find_update_Forall.
  - by apply find_update_Forall.
  - rewrite Forall_forall in Hunique. apply Forall_forall.
    intros s Hs%elem_of_filter_sessions. apply Hunique, Hs.
Qed.

Lemma messageIds_stay_unique_witness :
  Forall (fun s => NoDup (ChatSession.messageIds s)) (sessions sample_registry)
  /\ Forall (fun s => NoDup (ChatSession.messageIds s))
       (sessions (appendMessageId "s1" "m1" 2 (appendMessageId "s1" "m1" 2 sample_registry))).
Proof.
  assert (H : Forall (fun s => NoDup (ChatSession.messageIds s))
                (sessions sample_registry)).
  { apply (bool_decide_unpack _). vm_compute. exact I. }
  split; [exact H|].
  apply (messageIds_stay_unique _ None "n" "s1" "t" "m1" 2).
  apply (messageIds_stay_unique _ None "n" "s1" "t" "m1" 2 H).
Defined.

(** X6. While the clock does not run behind the time stamps already stored,
    no action of the registry makes [updatedAt] of a session smaller. *)
Theorem updatedAt_never_decreases (st : ChatSessionsState)
    (id newTitle messageId : string) (ids : list string) (now : Z) :
  Forall (fun s => ChatSession.updatedAt s <= now) (sessions st) ->
  Forall2 (later now) (sessions st) (sessions (renameSession id newTitle now st))
  /\ Forall2 (later now) (sessions st) (sessions (touchSession id now st))
  /\ Forall2 (later now) (sessions st) (sessions (appendMessageId id messageId now st))
  /\ Forall2 (later now) (sessions st) (sessions (replaceMessageIds id ids now st)).
Proof.
  intros Hclock.
  assert (Hrefl : Forall (fun s => later now s s) (sessions st)).
  { eapply Forall_impl; [exact Hclock|]. intros s Hs. unfold later. cbn beta in Hs. split; [done | lia]. }
  assert (Hgo : forall f,
            Forall (fun s => later now s (f s)) (sessions st) ->
            Forall2 (later now) (sessions st) (find_update (has_id id) f (sessions st))).
  { intros f Hf. clear Hclock. induction Hf as [|s l Hs Hl IH]; simpl; [constructor|].
    apply Forall_cons in Hrefl as [Hr Hrefl].
    destruct (has_id id s); constructor; auto.
    clear -Hrefl. induction Hrefl; constructor; auto. }
  repeat split; apply Hgo; (eapply Forall_impl; [exact Hclock|]);
    intros s Hs; cbn beta in Hs; unfold later; simpl; try (split; [done | lia]).
  destruct (includes _ _); simpl; (split; [done | lia]).
Qed.

Lemma updatedAt_never_decreases_witness :
  Forall (fun s => ChatSession.updatedAt s <= 7) (sessions sample_registry)
  /\ Forall2 (later 7) (sessions sample_registry)
       (sessions (touchSession "s1" 7 sample_registry)).
Proof.
  assert (H : Forall (fun s => ChatSession.updatedAt s <= 7) (sessions sample_registry)).
  { repeat apply Forall_cons_2; simpl; try lia. apply (@List.Forall_nil _ _). }
  split; [exact H|].
  exact (proj1 (proj2 (updatedAt_never_decreases sample_registry "s1" "t" "m" [] 7 H))).
Defined.

(** X7. When the titles in use are distinct, they are still distinct after
    a session is created with an auto-generated title. *)
Theorem auto_titles_stay_distinct (st : ChatSessionsState) (newId : string) (now : Z) :
  NoDup (titles st) ->
  NoDup (titles (createSession None newId now st).1).
Proof.
  intros Hdistinct. unfold titles. simpl. apply NoDup_cons. split; [|done].
  destruct (nextNumber_spec (sessions st)) as (Hle & Hnot & _).
  intros Hin. apply (Hnot _ Hin). by apply title_number_auto_title.
Qed.

Lemma auto_titles_stay_distinct_witness :
  NoDup (titles sample_registry)
  /\ NoDup (titles (createSession None "s2" 3 sample_registry).1).
Proof.
  assert (H : NoDup (titles sample_registry)).
  { apply (bool_decide_unpack _). vm_compute. exact I. }
  split; [exact H|]. exact (auto_titles_stay_distinct sample_registry "s2" 3 H).
Defined.

(** ** Blank input *)

Lemma trim_start_empty s : trim_start s = "" <-> is_blank s.
Proof.
  unfold is_blank, chars. induction s as [|c s IH]; simpl.
  - split; [constructor | done].
  - destruct (is_js_space c) eqn:Hc.
    + rewrite IH. split.
      * intros H. by constructor.
      * intros H. by apply Forall_cons in H as [_ H].
    + split; [done|]. intros H. apply Forall_cons in H as [H _]. congruence.
Qed.

Lemma trim_start_blank_or_kept s :
  trim_start s = ""
  \/ exists c r, trim_start s = String c r /\ is_js_space c = false.
Proof.
  induction s as [|c s IH]; simpl; [by left|].
  destruct (is_js_space c) eqn:Hc; [done|]. right. eauto.
Qed.

Lemma string_rev_empty s : string_rev s = "" <-> s = "".
Proof.
  unfold string_rev. split; [|by intros ->].
  intros H. apply (f_equal list_ascii_of_string) in H.
  rewrite list_ascii_of_string_of_list_ascii in H. simpl in H.
  apply (f_equal (@rev ascii)) in H. rewrite rev_involutive in H. simpl in H.
  rewrite <- (string_of_list_ascii_of_string s), H. done.
Qed.

Lemma trim_empty s : trim s = "" <-> is_blank s.
Proof.
  unfold trim. rewrite string_rev_empty, trim_start_empty, <- (trim_start_empty s).
  destruct (trim_start_blank_or_kept s) as [->|(c & r & -> & Hc)].
  - split; [done|]. intros _. unfold is_blank. simpl. constructor.
  - split; [|done]. unfold is_blank, chars, string_rev.
    rewrite list_ascii_of_string_of_list_ascii. simpl.
    intros H. apply Forall_app in H as [_ H]. apply Forall_cons in H as [H _]. congruence.
Qed.

Lemma truthy_trim s : truthy (trim s) = false <-> is_blank s.
Proof.
  rewrite <- trim_empty. unfold truthy.
  destruct (String.eqb_spec (trim s) ""); simpl; split; congruence.
Qed.



(** ** Creating, deleting and looking up sessions *)

Lemma filter_has_id_absent id l :
  id ∉ map ChatSession.id l -> List.filter (fun s => negb (has_id id s)) l = l.
Proof.
  induction l as [|s l IH]; simpl; [done|]. intros Hnotin.
  rewrite (has_id_absent id (s :: l) Hnotin s) by apply list_elem_of_here. simpl.
  f_equal. apply IH. intros Hin. apply Hnotin. simpl. by apply list_elem_of_further.
Qed.

(** X9. Deleting a session right after it was created with an id not in use
    gives back the list of sessions as it was; the first session of that list
    is then the active one, whichever was active before. *)
Theorem create_then_delete (st : ChatSessionsState) (title : option string)
    (newId : string) (now : Z) :
  newId ∉ map ChatSession.id (sessions st) ->
  deleteSession_registry newId (createSession title newId now st).1
  = {| sessions := sessions st;
       activeSessionId := ChatSession.id <$> head (sessions st) |}.
Proof.
  intros Hfresh. unfold deleteSession_registry, createSession. simpl.
  assert (Hnew : forall t c u m, has_id newId (ChatSession.mk newId t c u m) = true)
    by (intros; apply String.eqb_refl).
  rewrite !Hnew. simpl. rewrite filter_has_id_absent by done.
  destruct (decide (Some newId = Some newId)); [done | congruence].
Qed.

Lemma create_then_delete_witness :
  ("s3" ∉ map ChatSession.id (sessions sample_registry))
  /\ deleteSession_registry "s3" (createSession None "s3" 9 sample_registry).1
     = sample_registry.
Proof.
  assert (H : "s3" ∉ map ChatSession.id (sessions sample_registry)).
  { apply (bool_decide_unpack _). vm_compute. exact I. }
  split; [exact H|].
  exact (create_then_delete sample_registry None "s3" 9 H).
Defined.

Lemma find_other_find_update id other f l :
  other <> id ->
  (forall s, ChatSession.id (f s) = ChatSession.id s) ->
  List.find (has_id other) (find_update (has_id id) f l) = List.find (has_id other) l.
Proof.
  intros Hne Hf. induction l as [|s l IH]; simpl; [done|].
  destruct (has_id id s) eqn:Hs; simpl.
  - unfold has_id in *. rewrite Hf. apply String.eqb_eq in Hs.
    destruct (String.eqb_spec (ChatSession.id s) other); [congruence | done].
  - destruct (has_id other s); [done | apply IH].
Qed.

(** X10. What [session_messageIds] reads after a write: [replaceMessageIds]
    makes the list of the session the given one, [appendMessageId] adds the
    id at the end unless the list has it, both only where the session
    exists, and the lists of the other sessions read as before. *)
Theorem messageIds_after_write (st : ChatSessionsState) (sessionId other messageId : string)
    (ids : list string) (now : Z) :
  other <> sessionId ->
  session_messageIds sessionId (replaceMessageIds sessionId ids now st)
  = (fun _ => ids) <$> session_messageIds sessionId st
  /\ session_messageIds sessionId (appendMessageId sessionId messageId now st)
     = (fun old => if includes messageId old then old else old ++ [messageId])
       <$> session_messageIds sessionId st
  /\ session_messageIds other (replaceMessageIds sessionId ids now st)
     = session_messageIds other st
  /\ session_messageIds other (appendMessageId sessionId messageId now st)
     = session_messageIds other st.
Proof.
  intros Hne. unfold session_messageIds. simpl. repeat split.
  - rewrite find_find_update by done. by destruct (List.find _ _).
  - rewrite find_find_update by (intros s; by destruct (includes _ _)).
    destruct (List.find _ _) as [s|]; simpl; [|done]. by destruct (includes _ _).
  - by rewrite find_other_find_update.
  - rewrite find_other_find_update; [done..|]. intros s. by destruct (includes _ _).
Qed.

Lemma messageIds_after_write_witness :
  "s2" <> "s1"
  /\ session_messageIds "s1" (appendMessageId "s1" "m9" 4 sample_registry)
     = Some ["m1"; "m2"; "m9"].
Proof.
  assert (H : "s2" <> "s1") by discriminate.
  split; [exact H|].
  exact (proj1 (proj2 (messageIds_after_write sample_registry "s1" "s2" "m9" [] 4 H))).
Defined.

(** X11. The getter [activeSession] gives a session of the list whose id is
    the pointer; it gives nothing exactly when no session is selected or the
    pointer names no session of the list. *)
Theorem activeSession_spec (st : ChatSessionsState) :
  (forall s, activeSession st = Some s ->
     activeSessionId st = Some (ChatSession.id s) /\ s ∈ sessions st)
  /\ (activeSession st = None <->
      forall a, activeSessionId st = Some a -> a ∉ map ChatSession.id (sessions st)).
Proof.
  unfold activeSession. destruct (activeSessionId st) as [a|]; cycle 1.
  { split; [done|]. split; [done|]. done. }
  split.
  - intros s Hfind. apply find_some in Hfind as [Hin Hid].
    apply String.eqb_eq in Hid. rewrite Hid. split; [done | by apply list_elem_of_In].
  - split.
    + intros Hnone b [= <-] Hin.
      apply list_elem_of_In, in_map_iff in Hin as (s & Hid & Hin).
      apply (find_none _ _ Hnone) in Hin. unfold has_id in Hin.
      rewrite Hid, String.eqb_refl in Hin. done.
    + intros Hnotin. destruct (List.find _ _) as [s|] eqn:Hfind; [|done].
      apply find_some in Hfind as [Hin Hid]. apply String.eqb_eq in Hid.
      exfalso. apply (Hnotin a eq_refl). rewrite <- Hid.
      apply list_elem_of_In, in_map. done.
Qed.

Lemma activeSession_spec_witness :
  activeSession sample_registry = Some (ChatSession.mk "s2" "Chat B" 2 3 ["m3"])
  /\ activeSessionId sample_registry = Some "s2".
Proof.
  assert (H : activeSession sample_registry
              = Some (ChatSession.mk "s2" "Chat B" 2 3 ["m3"])) by reflexivity.
  split; [exact H|].
  exact (proj1 (proj1 (activeSession_spec sample_registry) _ H)).
Defined.

(** ** The message store *)

Lemma buildContextMessages_request sid st :
  (buildContextMessages sid st).2
  = map context_entry
      (drop (length (List.filter in_context (messages_of sid st)) - 8)
         (List.filter in_context (messages_of sid st))).
Proof.
  unfold buildContextMessages.
  pose proof (getMessages_list sid (on_registry (setActiveSession sid) st)) as Hlist.
  destruct (getMessages sid _) as [st2 l]. simpl in Hlist. subst l. done.
Qed.

Lemma start_generation_request flow sid pid extra now st :
  (start_generation flow sid pid extra now st).2
  = AwaitCompletion flow sid pid
      (map context_entry
         (drop (length (List.filter in_context (messages_of sid st)) - 8)
            (List.filter in_context (messages_of sid st))) ++ extra).
Proof.
  unfold start_generation.
  match goal with |- context [buildContextMessages sid ?s] =>
    pose proof (buildContextMessages_request sid s) as Hb;
    destruct (buildContextMessages sid s) as [st5 ctx] end.
  simpl in *. subst ctx. rewrite messages_of_persist.
  assert (Hm : forall s, messages_of sid
             (match flow with FlowSend => set_isSending true s | _ => s end)
           = messages_of sid s) by (intros s; by destruct flow).
  rewrite Hm.
  change (messages_of sid (set_streamingMessageId ?b ?s)) with (messages_of sid s).
  rewrite messages_of_appendMessage, decide_True by done.
  rewrite List.filter_app. simpl. by rewrite app_nil_r.
Qed.

(** X12. The request of a send holds at most eight entries, each one the
    role and content of a text message of the session that is not
    streaming, and the last entry is the text just sent, trimmed; the empty
    placeholder is never part of it. *)
Theorem sendMessage_request (st : Stores)
    (content newSessionId userMessageId placeholderId : string) (now : Z) :
  ~ is_blank content ->
  let started := sendMessage content newSessionId userMessageId placeholderId now st in
  exists sessionId request,
    started.2 = AwaitCompletion FlowSend sessionId placeholderId request
    /\ last request = Some (RoleUser, trim content)
    /\ (length request <= 8)%nat
    /\ forall entry, entry ∈ request ->
         exists msg, msg ∈ messages_of sessionId started.1
                     /\ ChatMessage.type msg = TypeText
                     /\ ChatMessage.status msg <> StatusStreaming
                     /\ entry = (ChatMessage.role msg, ChatMessage.content msg).
Proof.
  intros Hblank started. subst started. unfold sendMessage.
  destruct (truthy (trim content)) eqn:Htrim; [|by apply truthy_trim in Htrim].
  destruct (ensureSession newSessionId now st) as [st1 sid].
  set (user := text_message userMessageId sid RoleUser (trim content) now StatusSent).
  exists sid. eexists. split; [apply start_generation_request|].
  rewrite app_nil_r, messages_of_appendMessage, decide_True by done.
  rewrite List.filter_app. simpl.
  set (T := List.filter in_context (messages_of sid st1)).
  rewrite length_app. simpl.
  rewrite drop_app_le by lia. rewrite map_app. simpl.
  split; [apply last_snoc|]. split.
  - rewrite length_app, length_map, length_drop. simpl. lia.
  - intros entry Hin.
    rewrite messages_of_start_generation, decide_True by done.
    rewrite messages_of_appendMessage, decide_True by done.
    assert (Hmsg : exists msg, msg ∈ messages_of sid st1 ++ [user]
                     /\ in_context msg = true /\ entry = context_entry msg).
    { apply elem_of_app in Hin as [Hin|Hin].
      - apply list_elem_of_In, in_map_iff in Hin as (msg & <- & Hin).
        apply list_elem_of_In, subseteq_drop in Hin. subst T.
        apply list_elem_of_In, filter_In in Hin as [Hin Hok].
        exists msg. split; [|done]. apply elem_of_app. left. by apply list_elem_of_In.
      - apply list_elem_of_singleton in Hin. exists user.
        split; [|done]. apply elem_of_app. right. by apply list_elem_of_singleton. }
    destruct Hmsg as (msg & Hin' & Hok & ->). exists msg.
    apply andb_true_iff in Hok as [Htype Hstatus].
    apply bool_decide_eq_true_1 in Htype.
    apply negb_true_iff, bool_decide_eq_false_1 in Hstatus.
    split; [|done]. apply elem_of_app. by left.
Qed.

Lemma sendMessage_request_witness :
  ~ is_blank " hi "
  /\ exists sessionId request,
       (sendMessage " hi " "n" "u2" "a2" 5 sample_stores).2
       = AwaitCompletion FlowSend sessionId "a2" request
       /\ last request = Some (RoleUser, "hi").
Proof.
  assert (H : ~ is_blank " hi ").
  { intros Hb. apply trim_empty in Hb. vm_compute in Hb. discriminate Hb. }
  split; [exact H|].
  destruct (sendMessage_request sample_stores " hi " "n" "u2" "a2" 5 H)
    as (sessionId & request & Htask & Hlast & _).
  exists sessionId, request. split; [exact Htask | exact Hlast].
Defined.

Lemma registry_appendMessage sid m now st :
  registry (appendMessage sid m now st)
  = appendMessageId sid (ChatMessage.id m) now (registry st).
Proof.
  unfold appendMessage. pose proof (registry_getMessages sid st) as Hreg.
  destruct (getMessages sid st) as [st1 l]. simpl in *. by rewrite Hreg.
Qed.

Lemma includes_false x l : includes x l = false <-> x ∉ l.
Proof.
  rewrite <- includes_true. destruct (includes x l); split; congruence.
Qed.

Lemma mirrored_appendMessage sid m now st :
  mirrored sid st ->
  ChatMessage.id m ∉ map ChatMessage.id (messages_of sid st) ->
  mirrored sid (appendMessage sid m now st).
Proof.
  unfold mirrored, session_messageIds. intros Hmirror Hfresh.
  rewrite registry_appendMessage, messages_of_appendMessage, decide_True by done.
  simpl. rewrite find_find_update by (intros s; by destruct (includes _ _)).
  destruct (List.find _ _) as [s|]; simpl in *; [|done].
  injection Hmirror as Hmirror. rewrite Hmirror.
  apply includes_false in Hfresh. rewrite Hfresh. simpl.
  by rewrite map_app.
Qed.

Lemma mirrored_updateMessage sid mid f st :
  (forall x, ChatMessage.id (f x) = ChatMessage.id x) ->
  mirrored sid st -> mirrored sid (updateMessage sid mid f st).
Proof.
  unfold mirrored. intros Hf Hmirror.
  rewrite registry_updateMessage, messages_of_updateMessage, decide_True by done.
  by rewrite find_update_map.
Qed.

Lemma mirrored_same sid st st' :
  registry st' = registry st -> messages_of sid st' = messages_of sid st ->
  mirrored sid st -> mirrored sid st'.
Proof. unfold mirrored. by intros -> ->. Qed.

Lemma mirrored_persist sid st : mirrored sid st -> mirrored sid (persist st).
Proof. apply mirrored_same; [apply registry_persist | apply messages_of_persist]. Qed.

(** X13. The list of message ids that the registry keeps for a session
    mirrors the list of its messages as long as every appended message has
    an id that the session does not hold yet, and updates keep the id;
    appending a message under an id already present breaks the mirror, since
    the message is added and the id is not. *)
Theorem mirror_of_messageIds (sid : string) (m : ChatMessage.t) (mid : string)
    (status : MessageStatus) (text : string) (now : Z) (st : Stores) :
  mirrored sid st ->
  (ChatMessage.id m ∉ map ChatMessage.id (messages_of sid st) ->
   mirrored sid (appendMessage sid m now st))
  /\ (ChatMessage.id m ∈ map ChatMessage.id (messages_of sid st) ->
      ~ mirrored sid (appendMessage sid m now st))
  /\ mirrored sid (setMessageStatus sid mid status st)
  /\ mirrored sid (updateMessage sid mid (ChatMessage.with_content text) st)
  /\ mirrored sid (persist st).
Proof.
  intros Hmirror. split; [by apply mirrored_appendMessage|].
  split; [|split; [|split]].
  - unfold mirrored, session_messageIds in *. intros Hin.
    rewrite registry_appendMessage, messages_of_appendMessage, decide_True by done.
    simpl. rewrite find_find_update by (intros s; by destruct (includes _ _)).
    destruct (List.find _ _) as [s|]; simpl in *; [|done].
    injection Hmirror as Hmirror.
    rewrite Hmirror. apply includes_true in Hin. rewrite Hin, Hmirror.
    (* the ids stay, the list grows *)
    intros [= Heq]. apply (f_equal length) in Heq.
    rewrite map_app, length_app in Heq. simpl in Heq. lia.
  - by apply mirrored_updateMessage.
  - by apply mirrored_updateMessage.
  - by apply mirrored_persist.
Qed.

Lemma mirror_of_messageIds_witness :
  mirrored "s1" sample_stores
  /\ mirrored "s1" (setMessageStatus "s1" "a1" StatusError sample_stores).
Proof.
  assert (H : mirrored "s1" sample_stores) by reflexivity.
  split; [exact H|].
  exact (proj1 (proj2 (proj2
           (mirror_of_messageIds "s1" (text_message "x" "s1" RoleUser "t" 9 StatusSent)
              "a1" StatusError "t" 9 sample_stores H)))).
Defined.

Lemma mirrored_append_card sid card cardId now st :
  mirrored sid st ->
  cardId ∉ map ChatMessage.id (messages_of sid st) ->
  mirrored sid (append_card sid card cardId now st).
Proof.
  intros Hmirror Hfresh. destruct card as [c|]; simpl; [|done].
  by apply mirrored_appendMessage.
Qed.

Lemma mirrored_touch sid now st :
  mirrored sid st -> mirrored sid (on_registry (touchSession sid now) st).
Proof.
  unfold mirrored, session_messageIds. simpl.
  change (messages_of sid (on_registry ?f st)) with (messages_of sid st).
  rewrite find_find_update by done. by destruct (List.find _ _).
Qed.

Lemma map_id_find_update mid f (l : list ChatMessage.t) :
  (forall x, ChatMessage.id (f x) = ChatMessage.id x) ->
  map ChatMessage.id (find_update (message_has_id mid) f l) = map ChatMessage.id l.
Proof. apply find_update_map. Qed.

Lemma ids_setMessageStatus sid mid status st :
  map ChatMessage.id (messages_of sid (setMessageStatus sid mid status st))
  = map ChatMessage.id (messages_of sid st).
Proof.
  unfold setMessageStatus. rewrite messages_of_updateMessage, decide_True by done.
  by apply map_id_find_update.
Qed.

Lemma mirrored_finish flow sid mid card cardId now st :
  mirrored sid st ->
  cardId ∉ map ChatMessage.id (messages_of sid st) ->
  mirrored sid (finish_generation flow sid mid card cardId now st).1.
Proof.
  intros Hmirror Hfresh. unfold finish_generation.
  assert (H1 : mirrored sid (setMessageStatus sid mid StatusSent st))
    by (by apply mirrored_updateMessage).
  pose proof (ids_setMessageStatus sid mid StatusSent st) as Hids.
  destruct flow; cbn [fst].
  - apply (mirrored_same _ (persist (on_registry (touchSession sid now)
             (append_card sid card cardId now
                (set_streamingMessageId None (setMessageStatus sid mid StatusSent st))))));
      [done | done |].
    apply mirrored_persist, mirrored_touch, mirrored_append_card.
    + by apply (mirrored_same _ (setMessageStatus sid mid StatusSent st)).
    + change (messages_of sid (set_streamingMessageId ?a ?s)) with (messages_of sid s).
      by rewrite Hids.
  - apply (mirrored_same _ (persist (on_registry (touchSession sid now)
             (append_card sid card cardId now
                (set_streamingMessageId None (setMessageStatus sid mid StatusSent st))))));
      [done | done |].
    apply mirrored_persist, mirrored_touch, mirrored_append_card.
    + by apply (mirrored_same _ (setMessageStatus sid mid StatusSent st)).
    + change (messages_of sid (set_streamingMessageId ?a ?s)) with (messages_of sid s).
      by rewrite Hids.
  - apply (mirrored_same _ (persist (append_card sid card cardId now
             (setMessageStatus sid mid StatusSent st)))); [done | done |].
    apply mirrored_persist, mirrored_append_card; [done | by rewrite Hids].
Qed.

Lemma mirrored_fail flow sid mid e now st :
  mirrored sid st -> mirrored sid (fail_generation flow sid mid e now st).1.
Proof.
  intros Hmirror. unfold fail_generation.
  assert (H1 : mirrored sid (setMessageStatus sid mid StatusError st))
    by (by apply mirrored_updateMessage).
  destruct flow; cbn [fst].
  - apply (mirrored_same _ (persist (set_streamingMessageId None
             (setMessageStatus sid mid StatusError st)))); [done | done |].
    apply mirrored_persist. by apply (mirrored_same _ (setMessageStatus sid mid StatusError st)).
  - apply (mirrored_same _ (persist (on_registry (touchSession sid now)
             (persist (set_streamingMessageId None
                (setMessageStatus sid mid StatusError st)))))); [done | done |].
    apply mirrored_persist, mirrored_touch, mirrored_persist.
    by apply (mirrored_same _ (setMessageStatus sid mid StatusError st)).
  - apply (mirrored_same _ (persist (setMessageStatus sid mid StatusError st)));
      [done | done |].
    by apply mirrored_persist.
Qed.

Lemma mirrored_stream_continue flow sid mid card g cardId now st :
  mirrored sid st ->
  cardId ∉ map ChatMessage.id (messages_of sid st) ->
  mirrored sid (stream_continue flow sid mid card g cardId now st).1.
Proof.
  intros Hmirror Hfresh. unfold stream_continue.
  destruct (stream_advance _ _); [by apply mirrored_finish..|done].
Qed.

Lemma registry_start_generation flow sid pid extra now st :
  registry (start_generation flow sid pid extra now st).1
  = setActiveSession sid (registry (appendMessage sid
      (text_message pid sid RoleAssistant "" now StatusStreaming) now st)).
Proof.
  unfold start_generation, buildContextMessages.
  match goal with |- context [getMessages sid ?s] =>
    pose proof (registry_getMessages sid s) as Hreg;
    destruct (getMessages sid s) as [st2 l] end.
  cbn [fst] in *. unfold new_controller.
  change (registry (set_abortController ?a (set_controllers ?c ?s))) with (registry s).
  rewrite registry_abort_current, Hreg. simpl. rewrite registry_persist.
  by destruct flow.
Qed.

Lemma mirrored_start_generation flow sid pid extra now st :
  mirrored sid st ->
  pid ∉ map ChatMessage.id (messages_of sid st) ->
  mirrored sid (start_generation flow sid pid extra now st).1.
Proof.
  intros Hmirror Hfresh.
  pose proof (mirrored_appendMessage sid
                (text_message pid sid RoleAssistant "" now StatusStreaming) now st
                Hmirror Hfresh) as H.
  unfold mirrored in *.
  rewrite registry_start_generation, messages_of_start_generation, decide_True by done.
  rewrite messages_of_appendMessage, decide_True in H by done. exact H.
Qed.

(** X14. The flows keep the mirror: a send, a regeneration and every
    resumption of a suspended task leave the ids that the registry keeps for
    the session equal to the ids of its messages, provided the ids drawn for
    new messages are not in use in the session. *)
Theorem flows_keep_mirror (sid : string) (st : Stores) :
  mirrored sid st ->
  (forall content newSessionId userMessageId placeholderId now,
     activeSessionId (registry st) = Some sid -> truthy sid = true ->
     userMessageId <> placeholderId ->
     userMessageId ∉ map ChatMessage.id (messages_of sid st) ->
     placeholderId ∉ map ChatMessage.id (messages_of sid st) ->
     mirrored sid (sendMessage content newSessionId userMessageId placeholderId now st).1)
  /\ (forall messageId now,
        activeSessionId (registry st) = Some sid ->
        mirrored sid (regenerateAssistantMessage messageId now st).1)
  /\ (forall ev freshId now task,
        task_session task = Some sid ->
        freshId ∉ map ChatMessage.id (messages_of sid st) ->
        (forall msgId, pending_id task = Some msgId ->
           msgId <> freshId /\ msgId ∉ map ChatMessage.id (messages_of sid st)) ->
        mirrored sid (resume ev freshId now task st).1).
Proof.
  intros Hmirror. split; [|split].
  - intros content newSessionId uid pid now Hactive Htruthy Hne Huid Hpid.
    unfold sendMessage. destruct (truthy (trim content)); [|done].
    unfold ensureSession. rewrite Hactive, Htruthy.
    apply mirrored_start_generation.
    + by apply mirrored_appendMessage.
    + rewrite messages_of_appendMessage, decide_True by done.
      rewrite map_app. simpl. intros [Hin|Hin%list_elem_of_singleton]%elem_of_app; done.
  - intros messageId now Hactive. unfold regenerateAssistantMessage. rewrite Hactive.
    destruct (truthy sid); [|done].
    pose proof (getMessages_list sid st) as Hlist.
    pose proof (registry_getMessages sid st) as Hreg.
    pose proof (messages_of_getMessages sid sid st) as Hsame.
    destruct (getMessages sid st) as [st1 l]. cbn [fst snd] in *. subst l.
    assert (H1 : mirrored sid st1) by (by apply (mirrored_same _ st)).
    destruct (findIndex _ _) as [index|]; [|done].
    destruct (previousUser _ _) as [user|]; [|done].
    cbn [fst]. unfold new_controller.
    match goal with |- mirrored _ (set_abortController _ (set_controllers _ (abort_current ?s))) =>
      apply (mirrored_same _ s);
        [apply registry_abort_current | apply messages_of_abort_current |] end.
    apply mirrored_updateMessage; [done|]. apply mirrored_updateMessage; [done|].
    destruct (0 <? _)%nat; [|done].
    apply mirrored_persist. unfold mirrored, session_messageIds in *. simpl.
    change (messages_of sid (on_registry ?f (set_messages ?m ?s)))
      with (default [] (m !! sid)).
    rewrite lookup_insert_eq. simpl.
    rewrite find_find_update by done.
    clear Hmirror.
    destruct (List.find _ (sessions (registry st1))); simpl in *; [done | discriminate H1].
  - intros ev freshId now task Htask Hfresh Hpending.
    destruct task as [s files file msgId remaining | flow s m req | flow s m card chunk g | o];
      simpl in Htask; try discriminate Htask; injection Htask as ->.
    + destruct (Hpending msgId eq_refl) as [Hne Hmsg].
      destruct ev; try done. cbn [resume].
      assert (H1 : mirrored sid (appendMessage sid (file_message msgId sid file now) now st))
        by (by apply mirrored_appendMessage).
      destruct remaining as [|next remaining]; [|done].
      apply mirrored_start_generation; [done|].
      rewrite messages_of_appendMessage, decide_True by done.
      rewrite map_app. simpl.
      intros [Hin|Hin%list_elem_of_singleton]%elem_of_app; [done | congruence].
    + destruct ev; try done; cbn [resume].
      * unfold streamIntoMessage. apply mirrored_stream_continue.
        -- by apply mirrored_updateMessage.
        -- rewrite messages_of_updateMessage, decide_True by done.
           by rewrite map_id_find_update.
      * by apply mirrored_fail.
    + destruct ev as [| |fails|]; try done. cbn [resume].
      destruct fails; [by apply mirrored_fail|].
      apply mirrored_stream_continue.
      * by apply mirrored_updateMessage.
      * rewrite messages_of_updateMessage, decide_True by done.
        by rewrite map_id_find_update.
Qed.

Lemma flows_keep_mirror_witness :
  mirrored "s1" sample_stores
  /\ mirrored "s1" (regenerateAssistantMessage "a1" 9 sample_stores).1.
Proof.
  assert (H : mirrored "s1" sample_stores) by reflexivity.
  split; [exact H|].
  exact (proj1 (proj2 (flows_keep_mirror "s1" sample_stores H)) "a1" 9 eq_refl).
Defined.

Lemma message_has_id_absent mid (l : list ChatMessage.t) :
  mid ∉ map ChatMessage.id l -> forall m, m ∈ l -> message_has_id mid m = false.
Proof.
  intros Hnotin m Hm. unfold message_has_id.
  destruct (String.eqb_spec (ChatMessage.id m) mid) as [Heq|]; [|done].
  exfalso. apply Hnotin. subst mid. apply list_elem_of_In, in_map. by apply list_elem_of_In.
Qed.

Lemma findIndex_absent {A} (p : A -> bool) l :
  (forall x, x ∈ l -> p x = false) -> findIndex p l = None.
Proof.
  induction l as [|x l IH]; intros Hp; simpl; [done|].
  rewrite (Hp x) by apply list_elem_of_here.
  rewrite IH; [done|]. intros y Hy. apply Hp. by apply list_elem_of_further.
Qed.

Lemma findIndex_at {A} (p : A -> bool) before x rest :
  (forall y, y ∈ before -> p y = false) -> p x = true ->
  findIndex p (before ++ x :: rest) = Some (length before).
Proof.
  intros Hp Hx. induction before as [|y before IH]; simpl; [by rewrite Hx|].
  rewrite (Hp y) by apply list_elem_of_here.
  rewrite IH; [done|]. intros z Hz. apply Hp. by apply list_elem_of_further.
Qed.

Lemma find_update_at {A} (p : A -> bool) f before x rest :
  (forall y, y ∈ before -> p y = false) -> p x = true ->
  find_update p f (before ++ x :: rest) = before ++ f x :: rest.
Proof.
  intros Hp Hx. induction before as [|y before IH]; simpl; [by rewrite Hx|].
  rewrite (Hp y) by apply list_elem_of_here.
  rewrite IH; [done|]. intros z Hz. apply Hp. by apply list_elem_of_further.
Qed.

Lemma same_view_refl st : same_view st st.
Proof. by repeat split. Qed.

Lemma same_view_getMessages sid st : same_view st (getMessages sid st).1.
Proof.
  split; [apply registry_getMessages|].
  split; [intros s; apply messages_of_getMessages|].
  unfold getMessages. by destruct (messagesBySession st !! sid).
Qed.



Lemma previousUser_none l index :
  Forall (fun m => ChatMessage.role m <> RoleUser) (take index l) ->
  previousUser l index = None.
Proof.
  intros Hnone. unfold previousUser.
  destruct (List.find _ _) as [u|] eqn:Hfind; [|done].
  apply find_some in Hfind as [Hin Hrole]. apply bool_decide_eq_true_1 in Hrole.
  apply in_rev in Hin. rewrite Forall_forall in Hnone.
  by destruct (Hnone u (proj2 (list_elem_of_In _ _) Hin)).
Qed.

Lemma find_skip {A} (p : A -> bool) l1 l2 :
  (forall x, In x l1 -> p x = false) -> List.find p (l1 ++ l2) = List.find p l2.
Proof.
  induction l1 as [|x l1 IH]; intros Hp; simpl; [done|].
  rewrite (Hp x) by (by left). apply IH. intros y Hy. apply Hp. by right.
Qed.

Lemma previousUser_last l b1 user b2 rest :
  l = (b1 ++ user :: b2) ++ rest ->
  ChatMessage.role user = RoleUser ->
  Forall (fun m => ChatMessage.role m <> RoleUser) b2 ->
  previousUser l (length (b1 ++ user :: b2)) = Some user.
Proof.
  intros -> Hrole Hnone. unfold previousUser.
  rewrite take_app_length, rev_app_distr. simpl. rewrite <- app_assoc. simpl.
  rewrite find_skip.
  - simpl. by rewrite bool_decide_eq_true_2.
  - intros m Hm%in_rev. rewrite Forall_forall in Hnone.
    apply bool_decide_eq_false_2, Hnone. by apply list_elem_of_In.
Qed.

(** ** Regeneration *)

(** X16. A regeneration that has nothing to regenerate does nothing: when
    the active session holds no message with the id, or no user message
    before it, the action returns at once, no message or session changes, and
    the generation in place is not cancelled. *)
Theorem regenerate_without_target (st : Stores) (sid messageId : string) (now : Z) :
  activeSessionId (registry st) = Some sid ->
  messageId ∉ map ChatMessage.id (messages_of sid st)
  \/ (exists index, findIndex (message_has_id messageId) (messages_of sid st) = Some index
        /\ Forall (fun m => ChatMessage.role m <> RoleUser)
             (take index (messages_of sid st))) ->
  (regenerateAssistantMessage messageId now st).2 = Finished Returned
  /\ same_view st (regenerateAssistantMessage messageId now st).1.
Proof.
  intros Hactive Hnothing. unfold regenerateAssistantMessage. rewrite Hactive.
  destruct (truthy sid); [|split; [done | apply same_view_refl]].
  pose proof (getMessages_list sid st) as Hlist.
  pose proof (same_view_getMessages sid st) as Hview.
  destruct (getMessages sid st) as [st1 l]. cbn [fst snd] in *. subst l.
  destruct Hnothing as [Hnotin | (index & Hindex & Hnone)].
  - rewrite findIndex_absent by (by apply message_has_id_absent). done.
  - rewrite Hindex, previousUser_none by done. done.
Qed.

Lemma regenerate_without_target_witness :
  activeSessionId (registry sample_stores) = Some "s1"
  /\ (regenerateAssistantMessage "u1" 9 sample_stores).2 = Finished Returned.
Proof.
  assert (H : activeSessionId (registry sample_stores) = Some "s1") by reflexivity.
  split; [exact H|].
  refine (proj1 (regenerate_without_target sample_stores "s1" "u1" 9 H _)).
  right. exists 0%nat. split; [reflexivity | apply (@List.Forall_nil _ _)].
Defined.

Lemma count_cards_app cards rest :
  Forall is_card cards -> count_cards rest = 0%nat ->
  count_cards (cards ++ rest) = length cards.
Proof.
  intros Hcards Hrest. induction Hcards as [|m cards [Hrole Htype] _ IH]; simpl; [done|].
  by rewrite !bool_decide_eq_true_2, IH.
Qed.

Lemma controllers_abort_new st :
  signal_aborted (controllers (new_controller (abort_current st)))
    (abortController (new_controller (abort_current st))) = false
  /\ forall c, abortController st = Some c -> (c < length (controllers st))%nat ->
       controllers (new_controller (abort_current st)) !! c = Some true.
Proof.
  split; [apply new_controller_not_aborted|].
  intros c Hc Hlt. unfold abort_current. rewrite Hc. simpl.
  rewrite lookup_app_l by (rewrite length_insert; lia).
  by apply list_lookup_insert_eq.
Qed.

Lemma regenerate_start_facts (st : Stores) (sid messageId : string) (now : Z)
    (b1 b2 cards rest : list ChatMessage.t) (user target : ChatMessage.t) :
  activeSessionId (registry st) = Some sid ->
  truthy sid = true ->
  messages_of sid st = (b1 ++ user :: b2) ++ target :: cards ++ rest ->
  ChatMessage.id target = messageId ->
  messageId ∉ map ChatMessage.id (b1 ++ user :: b2) ->
  ChatMessage.role user = RoleUser ->
  Forall (fun m => ChatMessage.role m <> RoleUser) b2 ->
  Forall is_card cards ->
  count_cards rest = 0%nat ->
  let started := regenerateAssistantMessage messageId now st in
  messages_of sid started.1
  = (b1 ++ user :: b2)
    ++ ChatMessage.with_content "" (ChatMessage.with_status StatusStreaming target) :: rest
  /\ started.2
     = AwaitCompletion FlowRegenerate sid messageId [(RoleUser, ChatMessage.content user)]
  /\ signal_aborted (controllers started.1) (abortController started.1) = false
  /\ (forall c, abortController st = Some c -> (c < length (controllers st))%nat ->
        controllers started.1 !! c = Some true)
  /\ (forall other, other <> sid -> messages_of other started.1 = messages_of other st).
Proof.
  intros Hactive Htruthy Hlist Htarget Hfresh Huser Hb2 Hcards Hrest started.
  subst started. unfold regenerateAssistantMessage. rewrite Hactive, Htruthy.
  pose proof (getMessages_list sid st) as Hl.
  pose proof (same_view_getMessages sid st) as (Hreg & Hmsgs & _ & _ & Hac & Hcs & _).
  destruct (getMessages sid st) as [st1 l]. cbn [fst snd] in *.
  rewrite Hlist in Hl. subst l.
  set (before := b1 ++ user :: b2) in *.
  assert (Hbefore : forall m, m ∈ before -> message_has_id messageId m = false)
    by (by apply message_has_id_absent).
  assert (Hhit : forall m, ChatMessage.id m = messageId -> message_has_id messageId m = true)
    by (intros m Hm; unfold message_has_id; rewrite Hm; apply String.eqb_refl).
  rewrite findIndex_at by auto.
  rewrite (previousUser_last _ b1 user b2 (target :: cards ++ rest)) by done.
  replace (drop (length before + 1) (before ++ target :: cards ++ rest))
    with (cards ++ rest)
    by (rewrite (cons_middle target), app_assoc, drop_app_length'; [done|];
        rewrite length_app; simpl; lia).
  rewrite count_cards_app by done.
  assert (Hlist' :
    take (length before + 1) (before ++ target :: cards ++ rest)
    ++ drop (length before + 1 + length cards) (before ++ target :: cards ++ rest)
    = before ++ target :: rest).
  { rewrite (cons_middle target before), !app_assoc.
    rewrite <- (app_assoc _ cards rest).
    rewrite take_app_length' by (rewrite length_app; simpl; lia).
    rewrite (app_assoc _ cards rest).
    rewrite drop_app_length' by (rewrite !length_app; simpl; lia).
    by rewrite <- app_assoc. }
  rewrite Hlist'. cbn [fst snd].
  match goal with |- context [updateMessage sid messageId _ (setMessageStatus sid messageId _ ?s)] =>
    set (st2 := s) end.
  assert (H2 : messages_of sid st2 = before ++ target :: rest
               /\ (forall other, other <> sid -> messages_of other st2 = messages_of other st)
               /\ controllers st2 = controllers st
               /\ abortController st2 = abortController st).
  { subst st2. destruct (0 <? length cards)%nat eqn:Hcount.
    - rewrite messages_of_persist, controllers_persist, abortController_persist.
      split; [|split; [|done]].
      + unfold messages_of. simpl. by rewrite lookup_insert_eq.
      + intros other Hne. rewrite messages_of_persist.
        unfold messages_of at 1. simpl. rewrite lookup_insert_ne by done. apply Hmsgs.
    - apply Nat.ltb_ge in Hcount. destruct cards; [|simpl in Hcount; lia].
      rewrite Hmsgs, Hlist. done. }
  destruct H2 as (Hm2 & Hother2 & Hcs2 & Hac2).
  split; [|split; [done|]].
  - unfold new_controller.
    change (messages_of sid (set_abortController ?a (set_controllers ?c ?s)))
      with (messages_of sid s).
    rewrite messages_of_abort_current.
    rewrite messages_of_updateMessage, decide_True by done.
    unfold setMessageStatus. rewrite messages_of_updateMessage, decide_True by done.
    rewrite Hm2. rewrite find_update_at by auto.
    rewrite find_update_at by auto. done.
  - match goal with |- context [new_controller (abort_current ?s)] =>
      pose proof (controllers_abort_new s) as [Hnew Hold];
      assert (Hcs4 : controllers s = controllers st)
        by (unfold setMessageStatus; by rewrite !controllers_updateMessage);
      assert (Hac4 : abortController s = abortController st)
        by (unfold setMessageStatus; by rewrite !abortController_updateMessage);
      assert (Hm4 : forall other, other <> sid -> messages_of other s = messages_of other st)
    end.
    { intros other Hne. unfold setMessageStatus.
      rewrite !messages_of_updateMessage, !decide_False by done. by apply Hother2. }
    split; [exact Hnew|]. split.
    + intros c Hc Hlt. apply Hold; [by rewrite Hac4 | by rewrite Hcs4].
    + intros other Hne. unfold new_controller.
      change (messages_of other (set_abortController ?a (set_controllers ?c ?s)))
        with (messages_of other s).
      rewrite messages_of_abort_current. by apply Hm4.
Qed.

(** X17. What a regeneration does before it awaits the completion: the
    target is emptied and set to streaming in its place, the cards attached
    to it (the assistant cards that follow it directly) are removed, the
    other messages stay as they are and in their order, the request holds the
    nearest user message before the target and nothing else, the generation
    in place is cancelled and a new controller, not aborted, is installed. *)
Theorem regenerate_start (st : Stores) (sid messageId : string) (now : Z)
    (b1 b2 cards rest : list ChatMessage.t) (user target : ChatMessage.t) :
  activeSessionId (registry st) = Some sid ->
  truthy sid = true ->
  messages_of sid st = (b1 ++ user :: b2) ++ target :: cards ++ rest ->
  ChatMessage.id target = messageId ->
  messageId ∉ map ChatMessage.id (b1 ++ user :: b2) ->
  ChatMessage.role user = RoleUser ->
  Forall (fun m => ChatMessage.role m <> RoleUser) b2 ->
  Forall is_card cards ->
  count_cards rest = 0%nat ->
  let started := regenerateAssistantMessage messageId now st in
  messages_of sid started.1
  = (b1 ++ user :: b2)
    ++ ChatMessage.with_content "" (ChatMessage.with_status StatusStreaming target) :: rest
  /\ started.2
     = AwaitCompletion FlowRegenerate sid messageId [(RoleUser, ChatMessage.content user)]
  /\ signal_aborted (controllers started.1) (abortController started.1) = false
  /\ (forall c, abortController st = Some c -> (c < length (controllers st))%nat ->
        controllers started.1 !! c = Some true)
  /\ (forall other, other <> sid -> messages_of other started.1 = messages_of other st).
Proof.
  intros Hactive Htruthy Hlist Htarget Hfresh Huser Hb2 Hcards Hrest.
  by apply (regenerate_start_facts st sid messageId now b1 b2 cards rest user target).
Qed.

Lemma regenerate_start_witness :
  let u1 := text_message "u1" "s1" RoleUser "Q1" 1 StatusSent in
  let a1 := text_message "a1" "s1" RoleAssistant "A1" 2 StatusSent in
  messages_of "s1" (regenerateAssistantMessage "a1" 9 sample_stores).1
  = ([] ++ u1 :: [])
    ++ ChatMessage.with_content "" (ChatMessage.with_status StatusStreaming a1) :: [].
Proof.
  intros u1 a1.
  refine (proj1 (regenerate_start sample_stores "s1" "a1" 9 [] []
                   [card_message "k1" "s1" demo_card 3] [] u1 a1 _ _ _ _ _ _ _ _ _)).
  - reflexivity.
  - reflexivity.
  - reflexivity.
  - reflexivity.
  - apply (bool_decide_unpack _). vm_compute. exact I.
  - reflexivity.
  - apply (@List.Forall_nil _ _).
  - apply (@List.Forall_cons _ _); [split; reflexivity | apply (@List.Forall_nil _ _)].
  - reflexivity.
Defined.

(** ** A generation from the resolved completion to its end *)

Section Generation.
Variables (flow : Flow) (sid mid : string).
Variables (before rest : list ChatMessage.t) (base : ChatMessage.t).
Variables (c : string) (card : option AssistantCard).
Hypothesis before_fresh : forall m, m ∈ before -> message_has_id mid m = false.
Hypothesis base_id : ChatMessage.id base = mid.

Local Abbreviation shape := (shaped sid before rest base).
Local Abbreviation written := (prefix_of_content c).
Local Abbreviation on_course := (underway flow sid mid before rest base c card).

Lemma target_has_id content status :
  message_has_id mid
    (ChatMessage.with_content content (ChatMessage.with_status status base)) = true.
Proof. unfold message_has_id. simpl. rewrite base_id. apply String.eqb_refl. Qed.

Lemma shaped_same content status appended st st' :
  messages_of sid st' = messages_of sid st ->
  shape content status appended st -> shape content status appended st'.
Proof. unfold shaped. by intros ->. Qed.

Lemma shaped_updateMessage f content status appended st :
  shape content status appended st ->
  messages_of sid (updateMessage sid mid f st)
  = before
    ++ f (ChatMessage.with_content content (ChatMessage.with_status status base))
       :: rest ++ appended.
Proof.
  intros Hshape. rewrite messages_of_updateMessage, decide_True by done.
  rewrite Hshape. apply find_update_at; [done | apply target_has_id].
Qed.

Lemma shaped_append_card content status cardId now st :
  shape content status [] st ->
  shape content status
    match card with Some cd => [card_message cardId sid cd now] | None => [] end
    (append_card sid card cardId now st).
Proof.
  unfold shaped. intros Hshape. rewrite messages_of_append_card.
  destruct card as [cd|]; [|done].
  rewrite decide_True by done. rewrite Hshape, app_nil_r.
  by rewrite <- app_assoc.
Qed.

Lemma finish_shaped content status cardId now st :
  shape content status [] st ->
  (finish_generation flow sid mid card cardId now st).2 = Finished Returned
  /\ shape content StatusSent
       match card with Some cd => [card_message cardId sid cd now] | None => [] end
       (finish_generation flow sid mid card cardId now st).1.
Proof.
  intros Hshape. split; [by destruct flow|].
  assert (H1 : shape content StatusSent [] (setMessageStatus sid mid StatusSent st)).
  { unfold shaped, setMessageStatus. by rewrite (shaped_updateMessage _ _ _ _ _ Hshape). }
  unfold finish_generation. destruct flow; cbn [fst].
  - eapply shaped_same; [|apply (shaped_append_card _ _ cardId now _ H1)].
    change (messages_of sid (set_abortController ?a (set_isSending ?b ?s)))
      with (messages_of sid s).
    rewrite messages_of_persist.
    change (messages_of sid (on_registry ?f ?s)) with (messages_of sid s).
    rewrite !messages_of_append_card. done.
  - eapply shaped_same; [|apply (shaped_append_card _ _ cardId now _ H1)].
    change (messages_of sid (set_isSending ?b ?s)) with (messages_of sid s).
    rewrite messages_of_persist.
    change (messages_of sid (on_registry ?f ?s)) with (messages_of sid s).
    rewrite !messages_of_append_card. done.
  - eapply shaped_same; [|apply (shaped_append_card _ _ cardId now _ H1)].
    change (messages_of sid (set_abortController ?a ?s)) with (messages_of sid s).
    by rewrite messages_of_persist.
Qed.

Lemma fail_shaped content status e now st :
  shape content status [] st ->
  (exists o, (fail_generation flow sid mid e now st).2 = Finished o)
  /\ shape content StatusError [] (fail_generation flow sid mid e now st).1.
Proof.
  intros Hshape. split; [destruct flow; simpl; eauto|].
  assert (H1 : shape content StatusError [] (setMessageStatus sid mid StatusError st)).
  { unfold shaped, setMessageStatus. by rewrite (shaped_updateMessage _ _ _ _ _ Hshape). }
  unfold fail_generation. destruct flow; cbn [fst]; (eapply shaped_same; [|exact H1]).
  - change (messages_of sid (set_abortController ?a (set_isSending ?b ?s)))
      with (messages_of sid s).
    by rewrite messages_of_persist.
  - change (messages_of sid (set_isSending ?b ?s)) with (messages_of sid s).
    rewrite messages_of_persist.
    change (messages_of sid (on_registry ?f ?s)) with (messages_of sid s).
    by rewrite messages_of_persist.
  - change (messages_of sid (set_abortController ?a ?s)) with (messages_of sid s).
    by rewrite messages_of_persist.
Qed.

Lemma stream_continue_underway g cardId now st :
  stream_content g = c ->
  shape (written (cursor g)) StatusStreaming [] st ->
  on_course (stream_continue flow sid mid card g cardId now st).
Proof.
  intros Hc Hshape. unfold stream_continue, stream_advance.
  destruct (Nat.ltb_spec (cursor g) (String.length (stream_content g))) as [Hlt|Hge];
    [destruct (signal_aborted _ _)|].
  - destruct (finish_shaped _ _ cardId now st Hshape) as [Htask Hfinal].
    unfold underway. rewrite Htask. eexists _, _, _. split; [exact Hfinal|].
    split; [by left|]. destruct card; simpl; lia.
  - unfold underway. cbn [fst snd cursor stream_content].
    repeat (split; [done|]). exists (cursor g). rewrite Hc in *.
    split; [lia|]. by split.
  - destruct (finish_shaped _ _ cardId now st Hshape) as [Htask Hfinal].
    unfold underway. rewrite Htask. eexists _, _, _. split; [exact Hfinal|].
    split; [by left|]. destruct card; simpl; lia.
Qed.

Lemma step_underway s r : on_course r -> on_course (step s r).
Proof.
  destruct r as [st task]. intros Hinv.
  assert (Hcancel : forall st', messages_of sid st' = messages_of sid st ->
            on_course (st', task)).
  { intros st' Hsame. revert Hinv. unfold underway. cbn [fst snd].
    destruct task as [| | fl s' m cd chunk g | o]; try done.
    - intros (? & ? & ? & ? & ? & k & ? & Hshape & ?).
      repeat (split; [done|]). exists k. split; [done|]. split; [|done].
      by apply (shaped_same _ _ _ st).
    - intros (k & status & appended & Hshape & ? & ?).
      exists k, status, appended. split; [|done]. by apply (shaped_same _ _ _ st). }
  destruct s as [ev freshId now | | id]; cbn [step fst snd].
  - revert Hinv. unfold underway at 1. cbn [fst snd].
    destruct task as [| | fl s' m cd chunk g | o]; try done.
    intros (-> & -> & -> & -> & Hc & k & Hk & Hshape & ->).
    destruct ev as [| |fails|]; cbn [resume]; try (by apply Hcancel).
    destruct fails.
    + destruct (fail_shaped _ _ OtherError now st Hshape) as [[o Htask] Hfinal].
      unfold underway. rewrite Htask. eexists _, _, _. split; [exact Hfinal|].
      split; [by right | simpl; lia].
    + apply stream_continue_underway; [done|].
      unfold shaped. rewrite (shaped_updateMessage _ _ _ _ _ Hshape). simpl.
      unfold prefix_of_content. by rewrite append_slice.
  - apply Hcancel. unfold new_controller.
    change (messages_of sid (set_abortController ?a (set_controllers ?c ?s)))
      with (messages_of sid s).
    apply messages_of_abort_current.
  - by apply Hcancel.
Qed.

Lemma run_task_underway steps r : on_course r -> on_course (run_task steps r).
Proof.
  revert r. induction steps as [|s steps IH]; intros r Hr; [done|].
  simpl. by apply IH, step_underway.
Qed.

Lemma resolved_underway more request freshId now st :
  messages_of sid st = before ++ base :: rest ->
  on_course
    (resume (CompletionResolved (c :: more) card) freshId now
       (AwaitCompletion flow sid mid request) st).
Proof.
  intros Hlist. cbn [resume head default]. unfold streamIntoMessage.
  apply stream_continue_underway; [done|].
  unfold shaped. rewrite messages_of_updateMessage, decide_True by done.
  rewrite Hlist, app_nil_r. rewrite find_update_at; [done | done |].
  unfold message_has_id. rewrite base_id. apply String.eqb_refl.
Qed.

(** Delivery without failure or cancellation. *)
Lemma stream_continue_completes steps : forall g cardId now st,
  shape (written (cursor g)) StatusStreaming [] st ->
  stream_content g = c ->
  chunkSize g = 4%nat ->
  signal_aborted (controllers st) (signal g) = false ->
  Forall (fun s => is_delivery s = true) steps ->
  (String.length c <= cursor g + 4 * length steps)%nat ->
  let final := run_task steps (stream_continue flow sid mid card g cardId now st) in
  final.2 = Finished Returned
  /\ exists cardId' now',
       shape c StatusSent
         match card with Some cd => [card_message cardId' sid cd now'] | None => [] end
         final.1.
Proof.
  induction steps as [|s steps IH]; intros g cardId now st Hshape Hc Hsize Hsig Hdel Hlen.
  - simpl in Hlen. unfold stream_continue, stream_advance.
    rewrite Hc. destruct (Nat.ltb_spec (cursor g) (String.length c)) as [Hlt|Hge]; [lia|].
    simpl run_task. unfold prefix_of_content in Hshape.
    rewrite take_ge in Hshape by (rewrite <- string_length_chars; lia).
    rewrite string_of_chars in Hshape.
    destruct (finish_shaped _ _ cardId now st Hshape). eauto.
  - apply Forall_cons in Hdel as [Hs Hdel'].
    unfold stream_continue, stream_advance. rewrite Hc, Hsig, Hsize.
    destruct (Nat.ltb_spec (cursor g) (String.length c)) as [Hlt|Hge].
    + destruct s as [[| |[]|] freshId now'| |]; try done.
      simpl run_task. cbn [step resume fst snd].
      apply IH; try done.
      * cbn [cursor]. unfold shaped.
        rewrite (shaped_updateMessage _ _ _ _ _ Hshape). simpl.
        unfold prefix_of_content. rewrite append_slice by lia. done.
      * cbn [signal]. by rewrite controllers_updateMessage.
      * cbn [cursor]. simpl in Hlen. lia.
    + unfold prefix_of_content in Hshape.
      rewrite take_ge in Hshape by (rewrite <- string_length_chars; lia).
      rewrite string_of_chars in Hshape.
      destruct (finish_shaped _ _ cardId now st Hshape) as [Htask Hfinal].
      destruct (finish_generation flow sid mid card cardId now st) as [st' t'].
      simpl in Htask. subst t'.
      rewrite run_task_finished by (by apply Forall_cons). eauto.
Qed.

Lemma resolved_completes more request freshId now st deliveries :
  messages_of sid st = before ++ base :: rest ->
  signal_aborted (controllers st) (abortController st) = false ->
  Forall (fun s => is_delivery s = true) deliveries ->
  (chunk_count c <= length deliveries)%nat ->
  let final :=
    run_task (Wake (CompletionResolved (c :: more) card) freshId now :: deliveries)
      (st, AwaitCompletion flow sid mid request) in
  final.2 = Finished Returned
  /\ exists cardId' now',
       shape c StatusSent
         match card with Some cd => [card_message cardId' sid cd now'] | None => [] end
         final.1.
Proof.
  intros Hlist Hsig Hdel Hcount. simpl run_task. cbn [step resume fst snd head default].
  unfold streamIntoMessage. apply stream_continue_completes; try done.
  - unfold shaped. rewrite messages_of_updateMessage, decide_True by done.
    rewrite Hlist, app_nil_r. rewrite find_update_at; [done | done |].
    unfold message_has_id. rewrite base_id. apply String.eqb_refl.
  - cbn [signal streamText]. by rewrite controllers_updateMessage, abortController_updateMessage.
  - unfold chunk_count in Hcount. simpl cursor.
    pose proof (Nat.div_mod_eq (String.length c + 3) 4).
    pose proof (Nat.mod_upper_bound (String.length c + 3) 4). lia.
Qed.
End Generation.

(** X18. Once the completion has resolved with content [c], whatever
    follows (chunks delivered, a failing transport, cancellations, the user
    selecting sessions), the content of the target is a prefix of [c], the
    messages before and after it in the list are untouched, at most one
    message is appended, and the target is no longer streaming exactly when
    the flow has ended. *)
Theorem generation_writes_prefix (flow : Flow) (sid mid : string)
    (before rest : list ChatMessage.t) (base : ChatMessage.t)
    (c : string) (more : list string) (card : option AssistantCard)
    (request : list ContextMessage) (freshId : string) (wokenAt : Z)
    (steps : list Step) (st : Stores) :
  messages_of sid st = before ++ base :: rest ->
  ChatMessage.id base = mid ->
  mid ∉ map ChatMessage.id before ->
  let final :=
    run_task (Wake (CompletionResolved (c :: more) card) freshId wokenAt :: steps)
      (st, AwaitCompletion flow sid mid request) in
  exists k status appended,
    messages_of sid final.1
    = before
      ++ ChatMessage.with_content (prefix_of_content c k)
           (ChatMessage.with_status status base) :: rest ++ appended
    /\ (length appended <= 1)%nat
    /\ ((exists o, final.2 = Finished o) <-> status <> StatusStreaming).
Proof.
  intros Hlist Hid Hfresh final.
  assert (Hbefore : forall m, m ∈ before -> message_has_id mid m = false)
    by (by apply message_has_id_absent).
  pose proof (resolved_underway flow sid mid before rest base c card Hbefore Hid
                more request freshId wokenAt st Hlist) as Hstart.
  pose proof (run_task_underway flow sid mid before rest base c card Hbefore Hid
                steps _ Hstart) as Hfinal.
  change (underway flow sid mid before rest base c card final) in Hfinal.
  unfold underway in Hfinal. destruct (final.2) as [| | fl s m cd chunk g | o].
  - done.
  - done.
  - destruct Hfinal as (_ & _ & _ & _ & _ & k & _ & Hshape & _).
    exists k, StatusStreaming, []. split; [exact Hshape|]. split; [simpl; lia|].
    split; [by intros [o Ho] | done].
  - destruct Hfinal as (k & status & appended & Hshape & Hstatus & Hlen).
    exists k, status, appended. split; [exact Hshape|]. split; [done|].
    split; [|eauto]. intros _. destruct Hstatus as [-> | ->]; done.
Qed.

Lemma generation_writes_prefix_witness :
  let u1 := text_message "u1" "s1" RoleUser "Q1" 1 StatusSent in
  let a1 := text_message "a1" "s1" RoleAssistant "A1" 2 StatusSent in
  let k1 := card_message "k1" "s1" demo_card 3 in
  let final :=
    run_task [Wake (CompletionResolved ["Hello there"] None) "x" 5;
              Wake (DelayElapsed false) "x" 6; Select "s2"; Wake (DelayElapsed true) "x" 7]
      (sample_stores, AwaitCompletion FlowRegenerate "s1" "a1" []) in
  exists k status appended,
    messages_of "s1" final.1
    = [u1] ++ ChatMessage.with_content (prefix_of_content "Hello there" k)
                (ChatMessage.with_status status a1) :: [k1] ++ appended
    /\ (length appended <= 1)%nat
    /\ ((exists o, final.2 = Finished o) <-> status <> StatusStreaming).
Proof.
  intros u1 a1 k1.
  apply (generation_writes_prefix FlowRegenerate "s1" "a1" [u1] [k1] a1).
  - reflexivity.
  - reflexivity.
  - apply (bool_decide_unpack _). vm_compute. exact I.
Defined.

(** X19. A regeneration that is not disturbed delivers: when the completion
    resolves with content [c] and the chunks arrive without failure or
    cancellation, the action returns, the target ends with status sent and
    content exactly [c] at the place it had, its old cards are gone, the
    other messages are as before, and the new card, if the completion carries
    one, is appended at the end of the list. *)
Theorem regenerate_delivers (st : Stores) (sid messageId : string) (now : Z)
    (b1 b2 cards rest : list ChatMessage.t) (user target : ChatMessage.t)
    (c : string) (more : list string) (card : option AssistantCard)
    (freshId : string) (wokenAt : Z) (deliveries : list Step) :
  activeSessionId (registry st) = Some sid ->
  truthy sid = true ->
  messages_of sid st = (b1 ++ user :: b2) ++ target :: cards ++ rest ->
  ChatMessage.id target = messageId ->
  messageId ∉ map ChatMessage.id (b1 ++ user :: b2) ->
  ChatMessage.role user = RoleUser ->
  Forall (fun m => ChatMessage.role m <> RoleUser) b2 ->
  Forall is_card cards ->
  count_cards rest = 0%nat ->
  Forall (fun s => is_delivery s = true) deliveries ->
  (chunk_count c <= length deliveries)%nat ->
  let final :=
    run_task (Wake (CompletionResolved (c :: more) card) freshId wokenAt :: deliveries)
      (regenerateAssistantMessage messageId now st) in
  final.2 = Finished Returned
  /\ exists cardId cardAt,
       messages_of sid final.1
       = (b1 ++ user :: b2)
         ++ ChatMessage.with_content c (ChatMessage.with_status StatusSent target)
            :: rest
            ++ match card with
               | Some cd => [card_message cardId sid cd cardAt]
               | None => []
               end.
Proof.
  intros Hactive Htruthy Hlist Htarget Hfresh Huser Hb2 Hcards Hrest Hdel Hcount final.
  destruct (regenerate_start_facts st sid messageId now b1 b2 cards rest user target
              Hactive Htruthy Hlist Htarget Hfresh Huser Hb2 Hcards Hrest)
    as (Hstart & Htask & Hsignal & _).
  subst final. destruct (regenerateAssistantMessage messageId now st) as [st1 task].
  cbn [fst snd] in *. subst task.
  apply (resolved_completes FlowRegenerate sid messageId (b1 ++ user :: b2) rest
           (ChatMessage.with_content "" (ChatMessage.with_status StatusStreaming target))
           c card); try done.
  by apply message_has_id_absent.
Qed.

Lemma regenerate_delivers_witness :
  let u1 := text_message "u1" "s1" RoleUser "Q1" 1 StatusSent in
  let a1 := text_message "a1" "s1" RoleAssistant "A1" 2 StatusSent in
  let final :=
    run_task [Wake (CompletionResolved ["Hello"] (Some demo_card)) "x" 5;
              Wake (DelayElapsed false) "k2" 6; Wake (DelayElapsed false) "k2" 7]
      (regenerateAssistantMessage "a1" 4 sample_stores) in
  final.2 = Finished Returned
  /\ exists cardId cardAt,
       messages_of "s1" final.1
       = ([] ++ u1 :: [])
         ++ ChatMessage.with_content "Hello" (ChatMessage.with_status StatusSent a1)
            :: [] ++ [card_message cardId "s1" demo_card cardAt].
Proof.
  intros u1 a1.
  refine (regenerate_delivers sample_stores "s1" "a1" 4 [] []
            [card_message "k1" "s1" demo_card 3] [] u1 a1 "Hello" [] (Some demo_card) "x" 5
            [Wake (DelayElapsed false) "k2" 6; Wake (DelayElapsed false) "k2" 7]
            _ _ _ _ _ _ _ _ _ _ _).
  - reflexivity.
  - reflexivity.
  - reflexivity.
  - reflexivity.
  - apply (bool_decide_unpack _). vm_compute. exact I.
  - reflexivity.
  - apply (@List.Forall_nil _ _).
  - apply (@List.Forall_cons _ _); [split; reflexivity | apply (@List.Forall_nil _ _)].
  - reflexivity.
  - repeat apply (@List.Forall_cons _ _); try reflexivity. apply (@List.Forall_nil _ _).
  - vm_compute. lia.
Defined.

(** ** How the flows end *)

Lemma stream_continue_cases flow sid mid card g cardId now st :
  (exists chunk g', stream_continue flow sid mid card g cardId now st
                    = (st, Streaming flow sid mid card chunk g'))
  \/ stream_continue flow sid mid card g cardId now st
     = finish_generation flow sid mid card cardId now st.
Proof.
  unfold stream_continue. destruct (stream_advance _ _); eauto.
Qed.

Lemma finish_generation_returns flow sid mid card cardId now st :
  (finish_generation flow sid mid card cardId now st).2 = Finished Returned.
Proof. by destruct flow. Qed.

Lemma fail_generation_outcome flow sid mid e now st :
  (fail_generation flow sid mid e now st).2
  = Finished (match flow with FlowSend => Threw e | _ => Returned end).
Proof. by destruct flow. Qed.







Lemma messagesBySession_persist st : messagesBySession (persist st) = messagesBySession st.
Proof. unfold persist. by destruct (makePersistedState _ _). Qed.

Lemma flags_persist st : flags (persist st) = flags st.
Proof. unfold persist. by destruct (makePersistedState _ _). Qed.

Lemma window_getMessages sid st : window (getMessages sid st).1 = window st.
Proof. unfold getMessages. by destruct (messagesBySession st !! sid). Qed.

Lemma flags_getMessages sid st : flags (getMessages sid st).1 = flags st.
Proof. unfold getMessages. by destruct (messagesBySession st !! sid). Qed.

Lemma window_updateMessage sid mid f st : window (updateMessage sid mid f st) = window st.
Proof.
  unfold updateMessage. pose proof (window_getMessages sid st).
  by destruct (getMessages sid st).
Qed.

Lemma flags_updateMessage sid mid f st : flags (updateMessage sid mid f st) = flags st.
Proof.
  unfold updateMessage. pose proof (flags_getMessages sid st).
  by destruct (getMessages sid st).
Qed.

Lemma window_appendMessage sid m now st : window (appendMessage sid m now st) = window st.
Proof.
  unfold appendMessage. pose proof (window_getMessages sid st).
  by destruct (getMessages sid st).
Qed.

Lemma flags_appendMessage sid m now st : flags (appendMessage sid m now st) = flags st.
Proof.
  unfold appendMessage. pose proof (flags_getMessages sid st).
  by destruct (getMessages sid st).
Qed.

Lemma window_append_card sid card cardId now st :
  window (append_card sid card cardId now st) = window st.
Proof. destruct card; [apply window_appendMessage | done]. Qed.

Lemma flags_append_card sid card cardId now st :
  flags (append_card sid card cardId now st) = flags st.
Proof. destruct card; [apply flags_appendMessage | done]. Qed.

Lemma flags_abort_current st : flags (abort_current st) = flags st.
Proof. unfold abort_current. by destruct (abortController st). Qed.

Lemma window_abort_current st : window (abort_current st) = window st.
Proof. unfold abort_current. by destruct (abortController st). Qed.

Lemma has_window_persist st : has_window st -> has_window (persist st).
Proof.
  intros [item Hitem]. unfold has_window. rewrite persist_window, Hitem.
  unfold persistChatState, saveToStorage. destruct (JSON_stringify _); eauto.
Qed.

Lemma has_window_same st st' : window st' = window st -> has_window st -> has_window st'.
Proof. unfold has_window. by intros ->. Qed.

Lemma in_sync_persist st : has_window st -> in_sync (persist st).
Proof.
  intros [item Hitem]. unfold in_sync, snapshot_of.
  rewrite registry_persist, messagesBySession_persist.
  by apply (load_after_persist st item).
Qed.

Lemma in_sync_same st st' :
  window st' = window st -> sessions (registry st') = sessions (registry st) ->
  messagesBySession st' = messagesBySession st ->
  in_sync st -> in_sync st'.
Proof. unfold in_sync, snapshot_of. by intros -> -> ->. Qed.

Lemma finish_in_sync flow sid mid card cardId now st :
  has_window st ->
  has_window (finish_generation flow sid mid card cardId now st).1
  /\ in_sync (finish_generation flow sid mid card cardId now st).1.
Proof.
  intros Hwindow.
  assert (H1 : has_window (setMessageStatus sid mid StatusSent st))
    by (apply (has_window_same st); [apply window_updateMessage | done]).
  unfold finish_generation. destruct flow; cbn [fst].
  - match goal with |- context [persist ?s] =>
      assert (Hs : has_window s)
        by (apply (has_window_same (setMessageStatus sid mid StatusSent st)); [|done];
            simpl; by rewrite window_append_card) end.
    split.
    + apply (has_window_same _ _ eq_refl), has_window_persist, Hs.
    + eapply in_sync_same; [| | |apply (in_sync_persist _ Hs)]; done.
  - match goal with |- context [persist ?s] =>
      assert (Hs : has_window s)
        by (apply (has_window_same (setMessageStatus sid mid StatusSent st)); [|done];
            simpl; by rewrite window_append_card) end.
    split.
    + apply (has_window_same _ _ eq_refl), has_window_persist, Hs.
    + eapply in_sync_same; [| | |apply (in_sync_persist _ Hs)]; done.
  - match goal with |- context [persist ?s] =>
      assert (Hs : has_window s)
        by (apply (has_window_same (setMessageStatus sid mid StatusSent st)); [|done];
            by rewrite window_append_card) end.
    split.
    + apply (has_window_same _ _ eq_refl), has_window_persist, Hs.
    + eapply in_sync_same; [| | |apply (in_sync_persist _ Hs)]; done.
Qed.

Lemma fail_in_sync flow sid mid e now st :
  has_window st ->
  has_window (fail_generation flow sid mid e now st).1
  /\ in_sync (fail_generation flow sid mid e now st).1.
Proof.
  intros Hwindow.
  assert (H1 : has_window (setMessageStatus sid mid StatusError st))
    by (apply (has_window_same st); [apply window_updateMessage | done]).
  unfold fail_generation. destruct flow; cbn [fst].
  - assert (Hs : has_window (set_streamingMessageId None
                               (setMessageStatus sid mid StatusError st)))
      by (by apply (has_window_same (setMessageStatus sid mid StatusError st))).
    split.
    + apply (has_window_same _ _ eq_refl), has_window_persist, Hs.
    + eapply in_sync_same; [| | |apply (in_sync_persist _ Hs)]; done.
  - assert (Hs : has_window (on_registry (touchSession sid now)
                   (persist (set_streamingMessageId None
                               (setMessageStatus sid mid StatusError st))))).
    { apply (has_window_same _ _ eq_refl), has_window_persist.
      by apply (has_window_same (setMessageStatus sid mid StatusError st)). }
    split.
    + apply (has_window_same _ _ eq_refl), has_window_persist, Hs.
    + eapply in_sync_same; [| | |apply (in_sync_persist _ Hs)]; done.
  - split.
    + apply (has_window_same _ _ eq_refl), has_window_persist, H1.
    + eapply in_sync_same; [| | |apply (in_sync_persist _ H1)]; done.
Qed.

Lemma window_start_generation flow sid pid extra now st :
  has_window st -> has_window (start_generation flow sid pid extra now st).1.
Proof.
  intros Hwindow. unfold start_generation, buildContextMessages.
  match goal with |- context [getMessages sid ?s] =>
    pose proof (window_getMessages sid s) as Hw;
    destruct (getMessages sid s) as [st2 l] end.
  cbn [fst] in *. unfold new_controller.
  apply (has_window_same (abort_current st2)); [done|].
  apply (has_window_same st2); [apply window_abort_current|].
  eapply has_window_same; [exact Hw|]. apply (has_window_same _ _ eq_refl).
  apply has_window_persist.
  apply (has_window_same (appendMessage sid
           (text_message pid sid RoleAssistant "" now StatusStreaming) now st)).
  - by destruct flow.
  - apply (has_window_same st); [apply window_appendMessage | done].
Qed.

Lemma resume_in_sync ev freshId now task st :
  has_window st ->
  has_window (resume ev freshId now task st).1
  /\ ((forall o, task <> Finished o) ->
      forall o, (resume ev freshId now task st).2 = Finished o ->
      in_sync (resume ev freshId now task st).1).
Proof.
  intros Hwindow.
  destruct task as [s files file msgId remaining | flow s m req | flow s m card chunk g | o];
    destruct ev as [choices card' | e | fails | ok]; cbn [resume fst snd]; try done;
    try (split; [done|]; intros _ o' Ho; discriminate Ho).
  - assert (H1 : has_window (appendMessage s (file_message msgId s file now) now st))
      by (apply (has_window_same st); [apply window_appendMessage | done]).
    destruct remaining as [|next remaining].
    + split; [by apply window_start_generation|]. intros _ o.
      match goal with |- context [start_generation ?f ?s' ?p ?x ?n ?st'] =>
        destruct (start_generation_task f s' p x n st') as [req ->] end.
      done.
    + split; [done|]. by intros _ o.
  - unfold streamIntoMessage.
    match goal with |- context [stream_continue flow s m ?c ?g ?i ?n ?st'] =>
      assert (H1 : has_window st')
        by (apply (has_window_same st); [apply window_updateMessage | done]);
      destruct (stream_continue_cases flow s m c g i n st') as [(chunk & g' & ->) | ->] end.
    + split; [done|]. by intros _ o.
    + destruct (finish_in_sync flow s m card' freshId now _ H1). by split.
  - destruct (fail_in_sync flow s m e now st Hwindow). by split.
  - destruct fails.
    + destruct (fail_in_sync flow s m OtherError now st Hwindow). by split.
    + match goal with |- context [stream_continue flow s m ?c ?g ?i ?n ?st'] =>
        assert (H1 : has_window st')
          by (apply (has_window_same st); [apply window_updateMessage | done]);
        destruct (stream_continue_cases flow s m c g i n st') as [(chunk' & g' & ->) | ->] end.
      * split; [done|]. by intros _ o.
      * destruct (finish_in_sync flow s m card freshId now _ H1). by split.
  - split; [done|]. intros Hnot. by destruct (Hnot o).
  - split; [done|]. intros Hnot. by destruct (Hnot o).
  - split; [done|]. intros Hnot. by destruct (Hnot o).
  - split; [done|]. intros Hnot. by destruct (Hnot o).
Qed.

Lemma run_in_sync steps : forall r,
  has_window r.1 ->
  (forall o, r.2 = Finished o -> in_sync r.1) ->
  has_window (run_task steps r).1
  /\ forall o, (run_task steps r).2 = Finished o -> in_sync (run_task steps r).1.
Proof.
  induction steps as [|s steps IH]; intros [st task] Hwindow Hsync; [done|].
  simpl. cbn [fst snd] in *.
  destruct s as [ev freshId now | | id]; cbn [step fst snd].
  - destruct (resume_in_sync ev freshId now task st Hwindow) as [Hw Hs].
    apply IH; [done|]. intros o Ho.
    destruct task as [| | |o0]; try (by apply (Hs ltac:(done) o)).
    destruct ev; by apply (Hsync o0).
  - apply IH; cbn [fst snd].
    + unfold new_controller. apply (has_window_same (abort_current st)); [done|].
      by apply (has_window_same st); [apply window_abort_current|].
    + intros o Ho. apply (in_sync_same st); try (by apply (Hsync o)).
      * unfold new_controller. simpl. apply window_abort_current.
      * unfold new_controller. simpl. by rewrite registry_abort_current.
      * unfold abort_current. by destruct (abortController st).
  - apply IH; cbn [fst snd]; [done|].
    intros o Ho. by apply (in_sync_same st); try (by apply (Hsync o)).
Qed.

(** X21. When a send, a send of files or a regeneration has ended, in
    whatever way, durable storage holds the sessions and messages as they
    are in memory: a reload at that point loses nothing.  Later
    cancellations and selections of a session do not change that. *)
Theorem ended_flow_is_persisted (steps : list Step) (st : Stores) (task : Task)
    (o : Outcome) :
  has_window st ->
  (forall o', task <> Finished o') ->
  (run_task steps (st, task)).2 = Finished o ->
  readInitialChatState (window (run_task steps (st, task)).1)
  = Some (snapshot_of (run_task steps (st, task)).1).
Proof.
  intros Hwindow Htask Hend.
  destruct (run_in_sync steps (st, task) Hwindow) as [_ Hsync].
  - intros o' Ho'. by destruct (Htask o').
  - by apply (Hsync o).
Qed.

Lemma ended_flow_is_persisted_witness :
  let final :=
    run_task [Wake (CompletionResolved ["Hello"] None) "x" 5;
              Wake (DelayElapsed false) "x" 6; Wake (DelayElapsed true) "x" 7]
      (sample_stores, AwaitCompletion FlowRegenerate "s1" "a1" []) in
  readInitialChatState (window final.1) = Some (snapshot_of final.1).
Proof.
  refine (ended_flow_is_persisted _ sample_stores _ Returned _ _ _).
  - exists None. reflexivity.
  - intros o' H. discriminate H.
  - vm_compute. reflexivity.
Defined.


Lemma streamingMessageId_persist st :
  streamingMessageId (persist st) = streamingMessageId st.
Proof. unfold persist. by destruct (makePersistedState _ _). Qed.

Lemma streamingMessageId_append_card sid card cardId now st :
  streamingMessageId (append_card sid card cardId now st) = streamingMessageId st.
Proof.
  pose proof (flags_append_card sid card cardId now st) as H. by injection H.
Qed.

Lemma flags_finish flow sid mid card cardId now st :
  flags (finish_generation flow sid mid card cardId now st).1
  = match flow with
    | FlowRegenerate => flags st
    | _ => (false, None)
    end.
Proof.
  unfold finish_generation. destruct flow; cbn [fst].
  - change (flags (set_abortController ?a (set_isSending false ?s)))
      with (false, streamingMessageId s).
    rewrite streamingMessageId_persist.
    change (streamingMessageId (on_registry ?f ?s)) with (streamingMessageId s).
    by rewrite streamingMessageId_append_card.
  - change (flags (set_isSending false ?s)) with (false, streamingMessageId s).
    rewrite streamingMessageId_persist.
    change (streamingMessageId (on_registry ?f ?s)) with (streamingMessageId s).
    by rewrite streamingMessageId_append_card.
  - change (flags (set_abortController ?a ?s)) with (flags s).
    rewrite flags_persist, flags_append_card. apply flags_updateMessage.
Qed.

Lemma flags_fail flow sid mid e now st :
  flags (fail_generation flow sid mid e now st).1
  = match flow with
    | FlowRegenerate => flags st
    | _ => (false, None)
    end.
Proof.
  unfold fail_generation. destruct flow; cbn [fst].
  - change (flags (set_abortController ?a (set_isSending false ?s)))
      with (false, streamingMessageId s).
    by rewrite streamingMessageId_persist.
  - change (flags (set_isSending false ?s)) with (false, streamingMessageId s).
    rewrite streamingMessageId_persist.
    change (streamingMessageId (on_registry ?f ?s)) with (streamingMessageId s).
    by rewrite streamingMessageId_persist.
  - change (flags (set_abortController ?a ?s)) with (flags s).
    rewrite flags_persist. apply flags_updateMessage.
Qed.







Lemma flags_regenerate_step s r :
  task_flow r.2 = Some FlowRegenerate \/ task_flow r.2 = None ->
  flags (step s r).1 = flags r.1
  /\ (task_flow (step s r).2 = Some FlowRegenerate \/ task_flow (step s r).2 = None).
Proof.
  destruct r as [st task]. cbn [fst snd]. intros Hflow.
  destruct s as [ev freshId now | | id]; cbn [step fst snd].
  - destruct task as [sid files file msgId remaining | flow sid m req
                     | flow sid m card chunk g | o];
      simpl in Hflow; destruct Hflow as [Hflow|Hflow]; try discriminate Hflow;
      try injection Hflow as ->;
      destruct ev as [choices card' | e | fails | ok]; cbn [resume fst snd]; auto.
    + unfold streamIntoMessage.
      match goal with |- context [stream_continue ?f sid m ?c ?g ?i ?n ?st'] =>
        destruct (stream_continue_cases f sid m c g i n st') as [(chunk & g' & ->) | ->] end.
      * cbn [fst snd]. split; [apply flags_updateMessage | by left].
      * rewrite flags_finish, finish_generation_returns.
        split; [apply flags_updateMessage | by right].
    + rewrite flags_fail, fail_generation_outcome. split; [done | by right].
    + destruct fails.
      * rewrite flags_fail, fail_generation_outcome. split; [done | by right].
      * match goal with |- context [stream_continue ?f sid m ?c ?g ?i ?n ?st'] =>
          destruct (stream_continue_cases f sid m c g i n st') as [(chunk' & g' & ->) | ->] end.
        -- cbn [fst snd]. split; [apply flags_updateMessage | by left].
        -- rewrite flags_finish, finish_generation_returns.
           split; [apply flags_updateMessage | by right].
  - split; [|done]. unfold new_controller.
    change (flags (set_abortController ?a (set_controllers ?c ?s))) with (flags s).
    apply flags_abort_current.
  - done.
Qed.

(** X23. A regeneration never touches [isSending] and
    [streamingMessageId]: from the call through whatever happens to the
    flow, both are as they were before, so the composer stays open while an
    answer is regenerated. *)
Theorem regenerate_leaves_flags (steps : list Step) (messageId : string) (now : Z)
    (st : Stores) :
  let final := run_task steps (regenerateAssistantMessage messageId now st) in
  isSending final.1 = isSending st
  /\ streamingMessageId final.1 = streamingMessageId st.
Proof.
  intros final.
  assert (Hstart : flags (regenerateAssistantMessage messageId now st).1 = flags st
                   /\ (task_flow (regenerateAssistantMessage messageId now st).2
                         = Some FlowRegenerate
                       \/ task_flow (regenerateAssistantMessage messageId now st).2 = None)).
  { unfold regenerateAssistantMessage.
    destruct (activeSessionId _) as [sid|]; [|by split; [|right]].
    destruct (truthy sid); [|by split; [|right]].
    pose proof (flags_getMessages sid st) as Hg.
    destruct (getMessages sid st) as [st1 l]. cbn [fst] in Hg.
    destruct (findIndex _ _) as [index|]; [|by split; [|right]].
    destruct (previousUser _ _) as [user|]; [|by split; [|right]].
    cbn [fst snd]. split; [|by left]. unfold new_controller.
    change (flags (set_abortController ?a (set_controllers ?c ?s))) with (flags s).
    rewrite flags_abort_current, flags_updateMessage.
    unfold setMessageStatus. rewrite flags_updateMessage.
    destruct (0 <? _)%nat; [|done]. by rewrite flags_persist. }
  assert (Hrun : forall r,
            task_flow r.2 = Some FlowRegenerate \/ task_flow r.2 = None ->
            flags (run_task steps r).1 = flags r.1).
  { induction steps as [|s steps' IH]; intros r Hr; [done|].
    simpl. destruct (flags_regenerate_step s r Hr) as [Hf Ht].
    by rewrite IH. }
  destruct Hstart as [Hf Ht]. specialize (Hrun _ Ht). fold final in Hrun.
  rewrite Hf in Hrun. unfold flags in Hrun. by injection Hrun.
Qed.

(** ** Sending files *)

Lemma saving_appends remaining : forall sid files file msgId st
    (saves : list (bool * (string * Z))),
  length saves = S (length remaining) ->
  let final := run_task (map save_step saves) (st, SavingFile sid files file msgId remaining) in
  exists lastId lastAt request,
    (snd <$> last saves) = Some (lastId, lastAt)
    /\ final.2 = AwaitCompletion FlowFiles sid lastId
                   (request ++ [(RoleUser, summaryForApi files)])
    /\ messages_of sid final.1
       = messages_of sid st
         ++ zip_with (fun f it => file_message it.1 sid f it.2) (file :: remaining)
              (zip (msgId :: map (fun s => s.2.1) saves) (map (fun s => s.2.2) saves))
         ++ [text_message lastId sid RoleAssistant "" lastAt StatusStreaming].
Proof.
  induction remaining as [|next remaining IH]; intros sid files file msgId st saves Hlen.
  - destruct saves as [|[ok [id t]] [|? ?]]; try done.
    simpl. cbn [step resume fst snd save_step].
    exists id, t. eexists. split; [done|].
    split; [apply start_generation_request|].
    rewrite messages_of_start_generation, decide_True by done.
    rewrite messages_of_appendMessage, decide_True by done.
    by rewrite <- app_assoc.
  - destruct saves as [|[ok [id t]] saves]; [done|].
    simpl in Hlen. injection Hlen as Hlen.
    simpl map. simpl run_task. cbn [step resume fst snd save_step].
    destruct (IH sid files next id
                (appendMessage sid (file_message msgId sid file t) t st) saves Hlen)
      as (lastId & lastAt & request & Hlast & Htask & Hmsgs).
    exists lastId, lastAt, request. split.
    + destruct saves; [done | exact Hlast].
    + split; [exact Htask|]. rewrite Hmsgs.
      rewrite messages_of_appendMessage, decide_True by done.
      by rewrite <- app_assoc.
Qed.

(** X24. [sendFiles] appends one file message per file, in the order of the
    files, whether or not the blob store kept the blob, then the empty
    streaming placeholder; the messages already in the session are kept, the
    request ends with the summary of the files, and each file message
    carries the storage key made of its own id. *)
Theorem sendFiles_appends_files (files : list File) (newSessionId firstId : string)
    (now : Z) (st : Stores) (saves : list (bool * (string * Z))) :
  files <> [] ->
  length saves = length files ->
  let sid := (ensureSession newSessionId now st).2 in
  let old := messages_of sid (ensureSession newSessionId now st).1 in
  let final := run_task (map save_step saves) (sendFiles files newSessionId firstId now st) in
  let fileMessages :=
    zip_with (fun f it => file_message it.1 sid f it.2) files
      (zip (firstId :: map (fun s => s.2.1) saves) (map (fun s => s.2.2) saves)) in
  exists lastId lastAt request,
    (snd <$> last saves) = Some (lastId, lastAt)
    /\ final.2 = AwaitCompletion FlowFiles sid lastId
                   (request ++ [(RoleUser, summaryForApi files)])
    /\ messages_of sid final.1
       = old ++ fileMessages ++ [text_message lastId sid RoleAssistant "" lastAt StatusStreaming]
    /\ length fileMessages = length files
    /\ Forall (fun m => ChatMessage.status m = StatusSent
                        /\ (ChatMessage.attachment m ≫= att_storageKey)
                           = Some ("file_" +:+ ChatMessage.id m))
         fileMessages.
Proof.
  intros Hfiles Hlen sid old final fileMessages.
  subst final sid old fileMessages. unfold sendFiles.
  destruct files as [|file remaining]; [done|].
  destruct (ensureSession newSessionId now st) as [st1 sid]. cbn [fst snd].
  destruct (saving_appends remaining sid (file :: remaining) file firstId
              (set_isSending true st1) saves Hlen)
    as (lastId & lastAt & request & Hlast & Htask & Hmsgs).
  exists lastId, lastAt, request.
  split; [exact Hlast|]. split; [exact Htask|]. split; [exact Hmsgs|]. split.
  - rewrite length_zip_with, length_zip. cbn [length] in *. rewrite !length_map. lia.
  - apply Forall_forall. intros m Hm.
    apply elem_of_lookup_zip_with in Hm as (i & f & it & -> & _ & _). done.
Qed.

Lemma sendFiles_appends_files_witness :
  let photo := {| file_name := "a.png"; file_size := 2048; file_type := "image/png" |} in
  let notes := {| file_name := "b.txt"; file_size := 10; file_type := "text/plain" |} in
  let final :=
    run_task (map save_step [(true, ("f2", 6)); (false, ("p1", 7))])
      (sendFiles [photo; notes] "n" "f1" 5 sample_stores) in
  exists lastId lastAt,
    map ChatMessage.id (messages_of "s1" final.1)
    = ["u1"; "a1"; "k1"] ++ ["f1"; "f2"]
      ++ [ChatMessage.id (text_message lastId "s1" RoleAssistant "" lastAt StatusStreaming)].
Proof.
  intros photo notes final.
  destruct (sendFiles_appends_files [photo; notes] "n" "f1" 5 sample_stores
              [(true, ("f2", 6)); (false, ("p1", 7))])
    as (lastId & lastAt & request & _ & _ & Hmsgs & _).
  - discriminate.
  - reflexivity.
  - exists lastId, lastAt. exact (f_equal (map ChatMessage.id) Hmsgs).
Defined.

(** ** Resetting and deleting *)

(** X25. [resetAll] empties the registry and the message store and writes
    the empty snapshot: a reload afterwards starts from the empty state.  It
    does not cancel a generation in flight and leaves [isSending] and
    [streamingMessageId] as they are. *)
Theorem resetAll_spec (st : Stores) :
  has_window st ->
  let st' := resetAll st in
  sessions (registry st') = []
  /\ activeSessionId (registry st') = None
  /\ messages st' = []
  /\ (forall sessionId, messages_of sessionId st' = [])
  /\ readInitialChatState (window st') = Some defaultState
  /\ flags st' = flags st
  /\ controllers st' = controllers st
  /\ abortController st' = abortController st.
Proof.
  intros [item Hitem] st'. subst st'. unfold resetAll.
  match goal with |- context [persist ?s] => set (emptied := s) end.
  assert (Hw : has_window emptied).
  { exists None. subst emptied. simpl. by rewrite Hitem. }
  assert (Hmsgs : forall sessionId, messages_of sessionId (persist emptied) = []).
  { intros sessionId. rewrite messages_of_persist. done. }
  split; [by rewrite registry_persist|].
  split; [by rewrite registry_persist|].
  split; [unfold messages; by rewrite registry_persist|].
  split; [exact Hmsgs|].
  split; [exact (in_sync_persist emptied Hw)|].
  split; [by rewrite flags_persist|].
  split; [by rewrite controllers_persist | by rewrite abortController_persist].
Qed.

Lemma resetAll_spec_witness :
  has_window sample_stores
  /\ readInitialChatState (window (resetAll sample_stores)) = Some defaultState.
Proof.
  assert (H : has_window sample_stores) by (exists None; reflexivity).
  split; [exact H|].
  exact (proj1 (proj2 (proj2 (proj2 (proj2 (resetAll_spec sample_stores H)))))).
Defined.





(** ** The chunks of a stream *)





(** ** What the parser returns *)












(** ** The thread view *)

Lemma attached_cards_length l : (length (attached_cards l) <= count_cards l)%nat.
Proof.
  induction l as [|m l IH]; simpl; [done|].
  destruct (_ && _); [|simpl; lia].
  destruct (ChatMessage.card m); simpl; lia.
Qed.

Lemma count_cards_length l : (count_cards l <= length l)%nat.
Proof.
  induction l as [|m l IH]; simpl; [done|]. destruct (_ && _); lia.
Qed.

Lemma merge_from_cover fuel : forall l,
  (length l <= fuel)%nat ->
  list_sum (map item_size (merge_from fuel l)) = length l
  /\ map fst (merge_from fuel l) `sublist_of` l
  /\ Forall (fun it => forall cards, it.2 = Some cards ->
               cards <> []
               /\ ChatMessage.role it.1 = RoleAssistant
               /\ ChatMessage.type it.1 = TypeText)
       (merge_from fuel l).
Proof.
  induction fuel as [|fuel IH]; intros l Hfuel.
  - destruct l; [|simpl in Hfuel; lia]. simpl. split; [done|]. split; [done | constructor].
  - destruct l as [|msg r].
    { simpl. split; [done|]. split; [done | constructor]. }
    cbn [merge_from]. cbv zeta. simpl in Hfuel.
    destruct (IH r ltac:(lia)) as (Hsum & Hsub & Hitems).
    destruct (bool_decide (ChatMessage.role msg = RoleAssistant)
              && bool_decide (ChatMessage.type msg = TypeText)) eqn:Htext.
    + destruct (Nat.ltb_spec 0 (length (attached_cards r))) as [Hcards|Hnone].
      * pose proof (attached_cards_length r). pose proof (count_cards_length r).
        destruct (IH (drop (length (attached_cards r)) r)) as (Hsum' & Hsub' & Hitems').
        { rewrite length_drop. lia. }
        cbn [map]; change (list_sum (?x :: ?t)) with (x + list_sum t)%nat. split; [|split].
        -- rewrite Hsum', length_drop. unfold item_size. simpl. lia.
        -- apply sublist_skip. etrans; [exact Hsub' | apply sublist_drop].
        -- constructor; [|done]. simpl. intros cards [= <-].
           apply andb_true_iff in Htext as [Hrole Htype].
           apply bool_decide_eq_true_1 in Hrole, Htype.
           split; [|done]. intros Hnil. rewrite Hnil in Hcards. simpl in Hcards. lia.
      * cbn [map]; change (list_sum (?x :: ?t)) with (x + list_sum t)%nat. split; [|split].
        -- rewrite Hsum. unfold item_size. simpl. lia.
        -- by apply sublist_skip.
        -- constructor; [done | done].
    + cbn [map]; change (list_sum (?x :: ?t)) with (x + list_sum t)%nat. split; [|split].
      * rewrite Hsum. unfold item_size. simpl. lia.
      * by apply sublist_skip.
      * constructor; [done | done].
Qed.

(** X29. The thread shows every visible message exactly once: the items of
    [mergedMessages] and the cards attached to them count up to the visible
    messages, the messages of the items are visible messages in their order,
    only an assistant text carries cards, and the visible messages are a
    tail of the list. *)
Theorem mergedMessages_cover (visibleCount : nat) (messages : list ChatMessage.t) :
  let visible := visibleMessages visibleCount messages in
  let items := mergedMessages visibleCount messages in
  visible `suffix_of` messages
  /\ list_sum (map item_size items) = length visible
  /\ map fst items `sublist_of` visible
  /\ Forall (fun it => forall cards, it.2 = Some cards ->
               cards <> []
               /\ ChatMessage.role it.1 = RoleAssistant
               /\ ChatMessage.type it.1 = TypeText) items.
Proof.
  intros visible items. split.
  - subst visible. unfold visibleMessages.
    destruct (_ <=? _)%nat; [done|]. destruct (_ =? _)%nat; [done|]. apply suffix_drop.
  - subst items. unfold mergedMessages. fold visible. by apply merge_from_cover.
Qed.

Lemma mergedMessages_cover_witness :
  list_sum (map item_size (mergedMessages 100 (messages sample_stores))) = 3%nat
  /\ length (mergedMessages 100 (messages sample_stores)) = 2%nat.
Proof.
  split; [|reflexivity].
  exact (proj1 (proj2 (mergedMessages_cover 100 (messages sample_stores)))).
Defined.

Lemma findIndex_NoDup (l : list ChatMessage.t) : forall p m,
  NoDup (map ChatMessage.id l) ->
  l !! p = Some m ->
  findIndex (message_has_id (ChatMessage.id m)) l = Some p.
Proof.
  induction l as [|x l IH]; intros p m Hnodup Hp; [done|].
  simpl in Hnodup. apply NoDup_cons in Hnodup as [Hx Hnodup]. simpl.
  destruct p as [|p]; simpl in Hp.
  - injection Hp as ->. unfold message_has_id. by rewrite String.eqb_refl.
  - unfold message_has_id at 1.
    destruct (String.eqb_spec (ChatMessage.id x) (ChatMessage.id m)) as [Heq|_].
    + destruct Hx. rewrite Heq. apply list_elem_of_In, in_map, list_elem_of_In.
      by apply list_elem_of_lookup_2 in Hp.
    + by rewrite (IH p m).
Qed.

Lemma latest_excludes_later messages p q m1 m2 :
  NoDup (map ChatMessage.id messages) ->
  messages !! p = Some m1 -> messages !! q = Some m2 -> (p < q)%nat ->
  ChatMessage.role m2 = RoleAssistant -> ChatMessage.type m2 = TypeText ->
  isLatestAssistantMessage messages m1 = false.
Proof.
  intros Hnodup Hp Hq Hlt Hrole Htype. unfold isLatestAssistantMessage.
  destruct (negb _); [done|]. rewrite (findIndex_NoDup messages p m1) by done.
  apply not_true_iff_false. intros Hall. rewrite forallb_forall in Hall.
  assert (Hin : In m2 (drop (p + 1) messages)).
  { apply list_elem_of_In, list_elem_of_lookup. exists (q - (p + 1))%nat.
    rewrite lookup_drop. by replace (p + 1 + (q - (p + 1)))%nat with q by lia. }
  specialize (Hall m2 Hin). rewrite Hrole, Htype in Hall. done.
Qed.

(** X30. The thread offers regeneration on at most one message: with
    distinct message ids, two messages that both pass [canRegenerate] are the
    same message.  Under it the thread never shows more cards than a
    regeneration removes. *)
Theorem canRegenerate_unique (messages : list ChatMessage.t) (m1 m2 : ChatMessage.t) :
  NoDup (map ChatMessage.id messages) ->
  m1 ∈ messages -> m2 ∈ messages ->
  canRegenerate messages m1 = true ->
  canRegenerate messages m2 = true ->
  m1 = m2
  /\ forall before rest, messages = before ++ m1 :: rest ->
       (length (attached_cards rest) <= count_cards rest)%nat.
Proof.
  intros Hnodup [p Hp]%list_elem_of_lookup [q Hq]%list_elem_of_lookup H1 H2.
  split; [|intros; apply attached_cards_length].
  unfold canRegenerate in *.
  apply andb_true_iff in H1 as [[Hr1 Ht1]%andb_true_iff Hl1].
  apply andb_true_iff in H2 as [[Hr2 Ht2]%andb_true_iff Hl2].
  apply bool_decide_eq_true_1 in Hr1, Ht1, Hr2, Ht2.
  destruct (Nat.lt_trichotomy p q) as [Hlt | [-> | Hgt]].
  - rewrite (latest_excludes_later messages p q m1 m2) in Hl1 by done. done.
  - congruence.
  - rewrite (latest_excludes_later messages q p m2 m1) in Hl2 by done. done.
Qed.

Lemma canRegenerate_unique_witness :
  let a1 := text_message "a1" "s1" RoleAssistant "A1" 2 StatusSent in
  NoDup (map ChatMessage.id (messages sample_stores))
  /\ canRegenerate (messages sample_stores) a1 = true
  /\ a1 = a1.
Proof.
  intros a1.
  assert (H : NoDup (map ChatMessage.id (messages sample_stores))).
  { apply (bool_decide_unpack _). vm_compute. exact I. }
  assert (Hin : a1 ∈ messages sample_stores).
  { apply list_elem_of_lookup. by exists 1%nat. }
  assert (Hcan : canRegenerate (messages sample_stores) a1 = true) by reflexivity.
  split; [exact H|]. split; [exact Hcan|].
  exact (proj1 (canRegenerate_unique (messages sample_stores) a1 a1 H Hin Hin Hcan Hcan)).
Defined.
